(** * TrueRate review extraction, analysis and truth-gap aggregation

    A shallow embedding of the browser-side pipeline of the repository:

    - the content script [extension/content.js]: [detectPageType],
      [extractStarRating], [extractReviews];
    - the extension popup script (the JavaScript that follows the project
      description in [README.md]): [analyzeReviews], [calculateTruthGap],
      [renderResults], [handleAnalyze], [handleLoadMore];
    - the bookmarklet [bookmarklet/truth-gap-bookmarklet.js], which has
      its own copies of the extraction and analysis functions and its own
      [calculateTruthGap], [renderResults], [handleLoadMore] and [run].

    A JavaScript number is a binary64 value: [NaN], one of the two
    infinities, or a rational that binary64 represents; a literal, a
    parsed numeral and the result of each arithmetic operation are rounded
    to the nearest such rational, ties to even, overflowing to an
    infinity (the sign of zero is not kept).  A call either completes
    normally or throws ([Completion]).  Strings are sequences of code
    units, one [ascii] each.
    An [async] function is a computation that suspends at each [await];
    the event loop interleaves the suspended calls. *)

From Stdlib Require Import ZArith QArith Qround Qpower Lia Lqa Ascii String SpecFloat.
From stdpp Require Import base decidable option list strings gmap.

(** ** JavaScript values *)

Module JS.

(** A JavaScript number. *)
Inductive number : Type :=
| NaN
| Infinity (negative : bool)
| Fin (q : Q).

(** *** Rounding to binary64

    [round64 q] is the binary64 value nearest to the rational [q]: with
    [e] the binary exponent of [q] (at least -1022, where the subnormal
    numbers start), the multiple of [2^(e-52)] nearest to [q], a tie going
    to the even multiple; a result of [2^1024] or more is an infinity. *)

Definition pow2 (k : Z) : Q := Qpower 2 k.

(** The integer nearest to [x], ties to even. *)
Definition rne (x : Q) : Z :=
  let f := Qfloor x in
  match (x - inject_Z f ?= 1 # 2)%Q with
  | Lt => f
  | Gt => (f + 1)%Z
  | Eq => if Z.even f then f else (f + 1)%Z
  end.

(** The [k] with [2^k <= n/d < 2^(k+1)]. *)
Definition log2floor (n d : positive) : Z :=
  let k := (Z.log2 (Zpos n) - Z.log2 (Zpos d))%Z in
  if Qle_bool (pow2 k) (Zpos n # d) then k else (k - 1)%Z.

Definition round64_pos (n d : positive) : option Q :=
  let e := Z.max (log2floor n d) (-1022) in
  let ulp := pow2 (e - 52) in
  let m := rne ((Zpos n # d) / ulp) in
  let v := (inject_Z m * ulp)%Q in
  if Qle_bool (pow2 1024) v then None else Some (Qred v).

Definition round64 (q : Q) : number :=
  match Qnum q with
  | Z0 => Fin 0
  | Zpos n =>
      match round64_pos n (Qden q) with
      | Some v => Fin v
      | None => Infinity false
      end
  | Zneg n =>
      match round64_pos n (Qden q) with
      | Some v => Fin (Qred (- v))
      | None => Infinity true
      end
  end.

(** The number denoted by an IEEE 754 datum of the Standard Library. *)
Definition of_spec (x : spec_float) : number :=
  match x with
  | S754_zero _ => Fin 0
  | S754_infinity s => Infinity s
  | S754_nan => NaN
  | S754_finite s m e =>
      Fin (Qred ((if s then -1 else 1) * inject_Z (Zpos m) * pow2 e))
  end.

(** The quotient of two integers as the Standard Library's binary64
    division computes it, against which [round64] is checked below. *)
Definition spec_quotient (n : Z) (d : positive) : number :=
  let operand z :=
    match z with
    | Z0 => S754_zero false
    | Zpos p => S754_finite false p 0
    | Zneg p => S754_finite true p 0
    end in
  of_spec (SFdiv 53 1024 (operand n) (operand (Zpos d))).

(** The number written as the decimal or fraction [q]. *)
Definition lit (q : Q) : number := round64 q.

Definition of_Z (z : Z) : number := Fin (inject_Z z).
Definition of_nat (n : nat) : number := of_Z (Z.of_nat n).

Definition isNaN (x : number) : bool :=
  match x with NaN => true | _ => false end.

(** [x < y]; any comparison with [NaN] is false. *)
Definition lt (x y : number) : bool :=
  match x, y with
  | NaN, _ | _, NaN => false
  | Infinity true, Infinity true => false
  | Infinity true, _ => true
  | _, Infinity true => false
  | Infinity false, _ => false
  | _, Infinity false => true
  | Fin a, Fin b => match (a ?= b)%Q with Lt => true | _ => false end
  end.

(** [Math.round]: nearest integer, ties towards plus infinity. *)
Definition Math_round (x : number) : number :=
  match x with
  | Fin q => of_Z (Qfloor (q + (1 # 2)))
  | _ => x
  end.

Definition Math_max (x y : number) : number :=
  match x, y with
  | NaN, _ | _, NaN => NaN
  | _, _ => if lt x y then y else x
  end.

Definition Math_min (x y : number) : number :=
  match x, y with
  | NaN, _ | _, NaN => NaN
  | _, _ => if lt y x then y else x
  end.

Definition add (x y : number) : number :=
  match x, y with
  | NaN, _ | _, NaN => NaN
  | Infinity s, Infinity t => if Bool.eqb s t then x else NaN
  | Infinity _, Fin _ => x
  | Fin _, Infinity _ => y
  | Fin a, Fin b => round64 (a + b)
  end.

Definition sub (x y : number) : number :=
  match x, y with
  | NaN, _ | _, NaN => NaN
  | Infinity s, Infinity t => if Bool.eqb s t then NaN else x
  | Infinity _, Fin _ => x
  | Fin _, Infinity t => Infinity (negb t)
  | Fin a, Fin b => round64 (a - b)
  end.

Definition is_negative (q : Q) : bool :=
  match (q ?= 0)%Q with Lt => true | _ => false end.

(** [x / y]; a zero divisor counts as positive zero. *)
Definition div (x y : number) : number :=
  match x, y with
  | NaN, _ | _, NaN => NaN
  | Infinity _, Infinity _ => NaN
  | Infinity s, Fin b => Infinity (xorb s (is_negative b))
  | Fin _, Infinity _ => Fin 0
  | Fin a, Fin b =>
      if Qeq_bool b 0
      then (if Qeq_bool a 0 then NaN else Infinity (is_negative a))
      else round64 (a / b)
  end.

(** Truthiness of a number: neither [NaN] nor zero. *)
Definition truthy (x : number) : bool :=
  match x with
  | NaN => false
  | Infinity _ => true
  | Fin q => negb (Qeq_bool q 0)
  end.

(** The values a numeric field of an object can hold. *)
Inductive value : Type :=
| Undefined
| Null
| Num (x : number).

Definition value_truthy (v : value) : bool :=
  match v with Num x => truthy x | _ => false end.

(** ** Completions

    The outcome of evaluating a call: a value, or an exception thrown
    (here always the [TypeError] of calling what is not a function). *)
Inductive Completion (A : Type) : Type :=
| Normal (a : A)
| Throw.
Arguments Normal {A} a.
Arguments Throw {A}.

#[export] Instance Completion_ret : MRet Completion := fun _ a => Normal a.
#[export] Instance Completion_bind : MBind Completion := fun _ _ f c =>
  match c with Normal a => f a | Throw => Throw end.
#[export] Instance Completion_fmap : FMap Completion := fun _ _ f c =>
  match c with Normal a => Normal (f a) | Throw => Throw end.

(** ** Characters and strings *)

Definition is_digit (c : ascii) : bool :=
  let n := nat_of_ascii c in (48 <=? n)%nat && (n <=? 57)%nat.

(** White space: the class [\s] and what [trim] strips. *)
Definition is_space (c : ascii) : bool :=
  let n := nat_of_ascii c in
  ((9 <=? n)%nat && (n <=? 13)%nat) || (n =? 32)%nat || (n =? 160)%nat.

Definition to_lower (c : ascii) : ascii :=
  let n := nat_of_ascii c in
  if (65 <=? n)%nat && (n <=? 90)%nat then ascii_of_nat (n + 32) else c.

Fixpoint trimStart (s : string) : string :=
  match s with
  | String c rest => if is_space c then trimStart rest else s
  | EmptyString => EmptyString
  end.

Fixpoint trimEnd (s : string) : string :=
  match s with
  | EmptyString => EmptyString
  | String c rest =>
      match trimEnd rest with
      | EmptyString => if is_space c then EmptyString else String c EmptyString
      | rest' => String c rest'
      end
  end.

(** [s.trim()] *)
Definition trim (s : string) : string := trimEnd (trimStart s).

(** [s.startsWith(p)] *)
Fixpoint startsWith (p s : string) : bool :=
  match p, s with
  | EmptyString, _ => true
  | String a p', String b s' => if Ascii.eqb a b then startsWith p' s' else false
  | String _ _, EmptyString => false
  end.

(** Case-insensitive [startsWith], for a lower-case pattern [p]. *)
Fixpoint startsWith_ci (p s : string) : bool :=
  match p, s with
  | EmptyString, _ => true
  | String a p', String b s' =>
      if Ascii.eqb a (to_lower b) then startsWith_ci p' s' else false
  | String _ _, EmptyString => false
  end.

(** [s.slice(n)] *)
Fixpoint drop_chars (n : nat) (s : string) : string :=
  match n, s with
  | O, _ => s
  | S n', String _ rest => drop_chars n' rest
  | S _, EmptyString => EmptyString
  end.

(** [s.includes(p)] *)
Fixpoint includes (p s : string) : bool :=
  startsWith p s ||
  match s with
  | EmptyString => false
  | String _ rest => includes p rest
  end.

(** Split into the longest prefix of digits and the rest. *)
Fixpoint span_digits (s : string) : string * string :=
  match s with
  | String c rest =>
      if is_digit c
      then let '(ds, r) := span_digits rest in (String c ds, r)
      else (EmptyString, s)
  | EmptyString => (EmptyString, EmptyString)
  end.

Fixpoint skip_spaces (s : string) : string :=
  match s with
  | String c rest => if is_space c then skip_spaces rest else s
  | EmptyString => EmptyString
  end.

Definition digit_value (c : ascii) : Z := Z.of_nat (nat_of_ascii c - 48).

(** Value of a string of decimal digits, most significant first. *)
Fixpoint digits_value (acc : Z) (s : string) : Z :=
  match s with
  | EmptyString => acc
  | String c rest => digits_value (10 * acc + digit_value c) rest
  end.

(** The number written [int.frac] in decimal. *)
Definition decimal_value (int frac : string) : Q :=
  Qred (Qmake (digits_value 0 (int +:+ frac))
              (Z.to_pos (10 ^ Z.of_nat (String.length frac)))).

(** [10^e] for a possibly negative exponent. *)
Definition pow10 (e : Z) : Q := Qpower 10 e.

(** [parseInt(s)] in base ten: leading white space is skipped, then the
    longest prefix that is an integer is converted; [NaN] when there is
    none. *)
Definition parseInt (s : string) : number :=
  let s0 := trimStart s in
  let '(negative, s1) :=
    match s0 with
    | String "-" r => (true, r)
    | String "+" r => (false, r)
    | _ => (false, s0)
    end in
  match span_digits s1 with
  | (EmptyString, _) => NaN
  | (ds, _) =>
      round64 (inject_Z (if negative then - digits_value 0 ds else digits_value 0 ds))
  end.

(** A decimal literal as matched by [\d+(?:\.\d+)?]: integer and
    fraction digits. *)
Record decimal : Type := Decimal { int_digits : string; frac_digits : string }.

(** [parseFloat] of a matched decimal literal. *)
Definition parseFloat_decimal (d : decimal) : number :=
  round64 (decimal_value (int_digits d) (frac_digits d)).

(** The prefix matched by [\d+(?:\.\d+)?] at the start of [s], with the
    remainder of [s]. *)
Definition decimal_prefix (s : string) : option (decimal * string) :=
  match span_digits s with
  | (EmptyString, _) => None
  | (ds, String "."%char r) =>
      match span_digits r with
      | (EmptyString, _) => Some (Decimal ds EmptyString, String "."%char r)
      | (fs, r') => Some (Decimal ds fs, r')
      end
  | (ds, r) => Some (Decimal ds EmptyString, r)
  end.

(** [s.match(/(\d+(?:\.\d+)?)/)]: the first decimal literal in [s]. *)
Fixpoint match_decimal (s : string) : option decimal :=
  match s with
  | EmptyString => None
  | String _ rest =>
      match decimal_prefix s with
      | Some (d, _) => Some d
      | None => match_decimal rest
      end
  end.

(** The separator [(?:out of|\/)], case-insensitively, at the start of
    [s]; returns what follows it. *)
Definition separator_prefix (s : string) : option string :=
  if startsWith_ci "out of" s then Some (drop_chars 6 s)
  else if startsWith "/" s then Some (drop_chars 1 s)
  else None.

(** [s.match(/(\d+(?:\.\d+)?)\s*(?:out of|\/)\s*5/i)] *)
Fixpoint match_out_of_5 (s : string) : option decimal :=
  match s with
  | EmptyString => None
  | String _ rest =>
      let here :=
        '(d, r) ← decimal_prefix s;
        r' ← separator_prefix (skip_spaces r);
        if startsWith "5" (skip_spaces r') then Some d else None in
      match here with
      | Some d => Some d
      | None => match_out_of_5 rest
      end
  end.

(** [s.match(/(\d+(?:\.\d+)?)\s*(?:out of|\/)/i)] *)
Fixpoint match_out_of (s : string) : option decimal :=
  match s with
  | EmptyString => None
  | String _ rest =>
      let here :=
        '(d, r) ← decimal_prefix s;
        _ ← separator_prefix (skip_spaces r);
        Some d in
      match here with
      | Some d => Some d
      | None => match_out_of rest
      end
  end.

(** [s.match(/a-star-(\d)/)]: the digit captured. *)
Fixpoint match_a_star (s : string) : option string :=
  match s with
  | EmptyString => None
  | String _ rest =>
      let here :=
        if startsWith "a-star-" s then
          match drop_chars 7 s with
          | String c _ => if is_digit c then Some (String c EmptyString) else None
          | EmptyString => None
          end
        else None in
      match here with
      | Some d => Some d
      | None => match_a_star rest
      end
  end.

(** [s.match(/a-star-(\d)-(\d)/)]: the two digits captured. *)
Fixpoint match_a_star_half (s : string) : option decimal :=
  match s with
  | EmptyString => None
  | String _ rest =>
      let here :=
        if startsWith "a-star-" s then
          match drop_chars 7 s with
          | String c (String "-" (String d _)) =>
              if is_digit c && is_digit d
              then Some (Decimal (String c EmptyString) (String d EmptyString))
              else None
          | _ => None
          end
        else None in
      match here with
      | Some m => Some m
      | None => match_a_star_half rest
      end
  end.

Definition is_digit_or_comma (c : ascii) : bool := is_digit c || Ascii.eqb c ",".

(** The longest prefix of [s] made of digits and commas, commas dropped. *)
Fixpoint span_count (s : string) : string :=
  match s with
  | String c rest =>
      if is_digit c then String c (span_count rest)
      else if Ascii.eqb c "," then span_count rest
      else EmptyString
  | EmptyString => EmptyString
  end.

(** [s.match(/([\d,]+)/)] followed by [.replace(/,/g, '')] on the group:
    the digits of the first run of digits and commas. *)
Fixpoint match_count (s : string) : option string :=
  match s with
  | EmptyString => None
  | String c rest => if is_digit_or_comma c then Some (span_count s) else match_count rest
  end.

(** The exponent part [[eE][+-]?\d+] at the start of [s], or 0. *)
Definition exponent_prefix (s : string) : Z :=
  match s with
  | String c r =>
      if Ascii.eqb (to_lower c) "e" then
        let '(negative, r') :=
          match r with
          | String "-" r1 => (true, r1)
          | String "+" r1 => (false, r1)
          | _ => (false, r)
          end in
        match span_digits r' with
        | (EmptyString, _) => 0%Z
        | (ds, _) => if negative then (- digits_value 0 ds)%Z else digits_value 0 ds
        end
      else 0%Z
  | EmptyString => 0%Z
  end.

(** [parseFloat(s)]: leading white space is skipped, then the longest
    prefix that is a decimal literal is converted; [NaN] when there is
    none. *)
Definition parseFloat (s : string) : number :=
  let s0 := trimStart s in
  let '(negative, s1) :=
    match s0 with
    | String "-" r => (true, r)
    | String "+" r => (false, r)
    | _ => (false, s0)
    end in
  if startsWith "Infinity" s1 then Infinity negative
  else
    let '(ds, r) := span_digits s1 in
    let '(fs, r') :=
      match r with
      | String "." r1 => span_digits r1
      | _ => (EmptyString, r)
      end in
    match ds, fs with
    | EmptyString, EmptyString => NaN
    | _, _ =>
        let m := (decimal_value ds fs * pow10 (exponent_prefix r'))%Q in
        round64 (if negative then - m else m)
    end.

End JS.

(** ** The host document *)

Module Dom.

(** The interface an element implements beyond [Element]: an HTML
    element has an [innerText]; an SVG element has none, and its
    [className] is an [SVGAnimatedString] object, not a string. *)
Inductive Interface : Type :=
| HTMLElement (innerText : string)
| SVGElement
| OtherElement.

(** An element: its tag, its attributes, its interface, the text views
    the browser computes for it, and its child elements in document
    order. *)
#[local] Unset Elimination Schemes.
Inductive Element : Type :=
  mkElement (tagName : string) (attributes : list (string * string))
            (interface : Interface) (textContent : string)
            (innerHTML : string) (children : list Element).
#[local] Set Elimination Schemes.

Definition tagName (e : Element) : string :=
  let 'mkElement t _ _ _ _ _ := e in t.
Definition attributes (e : Element) : list (string * string) :=
  let 'mkElement _ a _ _ _ _ := e in a.
Definition interface (e : Element) : Interface :=
  let 'mkElement _ _ i _ _ _ := e in i.
(** [el.innerText]; [None] is [undefined]. *)
Definition innerText (e : Element) : option string :=
  match interface e with HTMLElement t => Some t | _ => None end.
Definition textContent (e : Element) : string :=
  let 'mkElement _ _ _ t _ _ := e in t.
Definition innerHTML (e : Element) : string :=
  let 'mkElement _ _ _ _ h _ := e in h.
Definition children (e : Element) : list Element :=
  let 'mkElement _ _ _ _ _ c := e in c.

(** [e.getAttribute(name)] *)
Definition getAttribute (name : string) (e : Element) : option string :=
  snd <$> List.find (fun kv => String.eqb (fst kv) name) (attributes e).

(** [e.href], as far as it is truthy: an HTML [a], [area], [link] or
    [base] element with an [href] attribute has the address that the
    attribute resolves to, which is never empty; without the attribute
    the property is the empty string, and another HTML element has no
    such property ([None] for both).  The address is kept as it is
    written in the attribute, not resolved against the address of the
    page; the [href] object of an SVG link is left out. *)
Definition hrefProperty (e : Element) : option string :=
  match interface e with
  | HTMLElement _ =>
      if bool_decide (tagName e ∈ ["a"; "area"; "link"; "base"])
      then getAttribute "href" e else None
  | _ => None
  end.

(** [e.className]: the [class] attribute as a string, the empty string
    when there is none; on an SVG element it is an object that has none
    of the methods of a string ([None]). *)
Definition className (e : Element) : option string :=
  match interface e with
  | SVGElement => None
  | _ => Some (default EmptyString (getAttribute "class" e))
  end.

(** ASCII white space, which separates the tokens of a [class]
    attribute: tab, line feed, form feed, carriage return, space. *)
Definition is_ascii_whitespace (c : ascii) : bool :=
  let n := nat_of_ascii c in
  (n =? 9)%nat || (n =? 10)%nat || (n =? 12)%nat || (n =? 13)%nat || (n =? 32)%nat.

(** The maximal runs of characters of [s] other than ASCII white space,
    with empty runs. *)
Fixpoint words (s : string) : list string :=
  match s with
  | EmptyString => [EmptyString]
  | String c rest =>
      if is_ascii_whitespace c then EmptyString :: words rest
      else match words rest with
           | w :: ws => String c w :: ws
           | [] => [String c EmptyString]
           end
  end.

(** [e.classList]: the tokens of the [class] attribute. *)
Definition classList (e : Element) : list string :=
  List.filter (fun w => negb (String.eqb w EmptyString))
    (words (default EmptyString (getAttribute "class" e))).

(** An element together with its ancestors, nearest first: what a
    reference to a node of the live tree gives access to. *)
Record node : Type := Node { self : Element; ancestors : list Element }.

(** [n.parentElement] *)
Definition parentElement (n : node) : option node :=
  match ancestors n with
  | p :: up => Some (Node p up)
  | [] => None
  end.

(** *** Selectors *)

Inductive simple : Type :=
| Tag (name : string)                   (* [p] *)
| Id (name : string)                    (* [#name] *)
| Class (name : string)                 (* [.name] *)
| Attr (name : string)                  (* [[name]] *)
| AttrEq (name val : string)            (* [[name="val"]] *)
| AttrContains (name val : string)      (* [[name*="val"]] *)
| NotClass (name : string).             (* [:not(.name)] *)

(** A compound selector: all of its simple selectors hold of one element. *)
Definition compound : Type := list simple.
(** A complex selector: compounds joined by the descendant combinator,
    the subject last. *)
Definition complex : Type := list compound.
(** A selector list: complex selectors joined by commas. *)
Definition selector : Type := list complex.

Definition matches_simple (s : simple) (e : Element) : bool :=
  match s with
  | Tag name => String.eqb (tagName e) name
  | Id name =>
      match getAttribute "id" e with
      | Some v => String.eqb v name
      | None => false
      end
  | Class name => existsb (String.eqb name) (classList e)
  | Attr name => bool_decide (is_Some (getAttribute name e))
  | AttrEq name val =>
      match getAttribute name e with
      | Some v => String.eqb v val
      | None => false
      end
  | AttrContains name val =>
      match getAttribute name e with
      | Some v => JS.includes val v
      | None => false
      end
  | NotClass name => negb (existsb (String.eqb name) (classList e))
  end.

Definition matches_compound (c : compound) (e : Element) : bool :=
  forallb (fun s => matches_simple s e) c.

(** The ancestors strictly above the nearest one that matches [c]. *)
Fixpoint above (c : compound) (ancs : list Element) : option (list Element) :=
  match ancs with
  | [] => None
  | a :: up => if matches_compound c a then Some up else above c up
  end.

(** Whether the compounds [outer], innermost first, are matched by a
    chain of ancestors taken from [ancs]. *)
Fixpoint matches_ancestors (outer : list compound) (ancs : list Element) : bool :=
  match outer with
  | [] => true
  | c :: more =>
      match above c ancs with
      | Some up => matches_ancestors more up
      | None => false
      end
  end.

Definition matches_complex (cx : complex) (n : node) : bool :=
  match rev cx with
  | [] => false
  | subject :: outer =>
      matches_compound subject (self n) && matches_ancestors outer (ancestors n)
  end.

(** [n.matches(sel)] *)
Definition matches (sel : selector) (n : node) : bool :=
  existsb (fun cx => matches_complex cx n) sel.

(** The descendants of [e], in document order, [e] itself excluded;
    [ancs] are the ancestors of [e]. *)
Fixpoint descendants (ancs : list Element) (e : Element) : list node :=
  let up := e :: ancs in
  (fix go (kids : list Element) : list node :=
     match kids with
     | [] => []
     | k :: ks => Node k up :: descendants up k ++ go ks
     end) (children e).

(** [n.querySelectorAll(sel)] *)
Definition querySelectorAll (sel : selector) (n : node) : list node :=
  List.filter (matches sel) (descendants (ancestors n) (self n)).

(** [n.querySelector(sel)] *)
Definition querySelector (sel : selector) (n : node) : option node :=
  head (querySelectorAll sel n).

(** The nearest among [e], [ancs] that matches [sel]. *)
Fixpoint closest_from (sel : selector) (e : Element) (ancs : list Element) : option node :=
  if matches sel (Node e ancs) then Some (Node e ancs)
  else match ancs with
       | p :: up => closest_from sel p up
       | [] => None
       end.

(** [n.closest(sel)] *)
Definition closest (sel : selector) (n : node) : option node :=
  closest_from sel (self n) (ancestors n).

(** The page: its root element, the text of the user's selection
    ([window.getSelection()?.toString()]) and its address
    ([window.location]). *)
Record Document : Type := {
  documentElement : Element;
  getSelection : option string;
  hostname : string;
  href : string
}.

(** [document.querySelectorAll(sel)] *)
Definition document_querySelectorAll (sel : selector) (d : Document) : list node :=
  let root := documentElement d in
  List.filter (matches sel) (Node root [] :: descendants [] root).

(** [document.querySelector(sel)] *)
Definition document_querySelector (sel : selector) (d : Document) : option node :=
  head (document_querySelectorAll sel d).

End Dom.

(** ** Review extraction ([content.js]; the bookmarklet has the same code) *)

Module Content.
Import JS Dom.

(** The first of the alternatives that yields a value. *)
Fixpoint first_of {A B : Type} (fs : list (A → option B)) (a : A) : option B :=
  match fs with
  | [] => None
  | f :: rest =>
      match f a with
      | Some b => Some b
      | None => first_of rest a
      end
  end.

(** The same when an alternative can throw: the alternatives are tried
    in order until one returns a value or throws. *)
Fixpoint first_returning {A B : Type} (fs : list (A → Completion (option B))) (a : A)
  : Completion (option B) :=
  match fs with
  | [] => Normal None
  | f :: rest =>
      match f a with
      | Normal (Some b) => Normal (Some b)
      | Normal None => first_returning rest a
      | Throw => Throw
      end
  end.

(** [x.match(re)] where [x] is the [className] of an element: when [x]
    is not a string it has no method [match], and the call throws. *)
Definition match_className {A : Type} (re : string → option A) (x : option string)
  : Completion (option A) :=
  match x with
  | Some s => Normal (re s)
  | None => Throw
  end.

(** A review found on the page. *)
Record ReviewCandidate : Type := { text : string; stars : number }.

(** The selectors tried by [extractReviews], in order. *)
Definition selectors : list selector := [
  (* Amazon *)
  [[[AttrEq "data-hook" "review-body"]]];
  [[[Class "review-text-content"]]];
  [[[Class "a-size-base"; Class "review-text"]]];
  (* Yelp *)
  [[[Class "comment__09f24__D0cxf"]]];
  [[[Class "raw__09f24__T4Ezm"]]];
  (* TripAdvisor *)
  [[[Class "biGQs"; Class "_P"; Class "pZUbB"; Class "KxBGd"]]];
  [[[AttrEq "data-automation" "reviewCard"]]];
  (* Google Reviews *)
  [[[Class "MyEned"]]];
  [[[Class "wiI7pd"]]];
  (* Trustpilot *)
  [[[Attr "data-service-review-text-typography"]]];
  [[[Class "typography_body-l__KUYFJ"]]];
  (* G2 *)
  [[[AttrEq "itemprop" "reviewBody"]]];
  [[[Class "pjax"]]];
  (* Generic patterns *)
  [[[AttrContains "class" "review-text"]]];
  [[[AttrContains "class" "review-body"]]];
  [[[AttrContains "class" "review-content"]]];
  [[[AttrContains "class" "comment-text"]]];
  [[[AttrContains "class" "feedback-text"]]];
  [[[Class "review"]; [Tag "p"]]];
  [[[Class "comment"]; [Tag "p"]]]
].

(** ['[data-hook="review-star-rating"], [data-hook="cmps-review-star-rating"]'] *)
Definition sel_amazon_star : selector :=
  [[[AttrEq "data-hook" "review-star-rating"]];
   [[AttrEq "data-hook" "cmps-review-star-rating"]]].

(** ['.a-icon-alt'] *)
Definition sel_icon_alt : selector := [[[Class "a-icon-alt"]]].

(** ['.a-icon-star, .a-icon-star-small, [class*="a-star-"]'] *)
Definition sel_icon_star : selector :=
  [[[Class "a-icon-star"]]; [[Class "a-icon-star-small"]];
   [[AttrContains "class" "a-star-"]]].

(** ['[data-rating]'] *)
Definition sel_data_rating : selector := [[[Attr "data-rating"]]].

(** ['[aria-label*="star"], [aria-label*="Star"], [aria-label*="rating"]'] *)
Definition sel_aria : selector :=
  [[[AttrContains "aria-label" "star"]]; [[AttrContains "aria-label" "Star"]];
   [[AttrContains "aria-label" "rating"]]].

(** ['.star-filled, .star-full, [class*="star"][class*="full"],
     [class*="star"][class*="active"]'] *)
Definition sel_filled : selector :=
  [[[Class "star-filled"]]; [[Class "star-full"]];
   [[AttrContains "class" "star"; AttrContains "class" "full"]];
   [[AttrContains "class" "star"; AttrContains "class" "active"]]].

(** [el.querySelector('.a-icon-alt')?.textContent || ''] *)
Definition altText (el : node) : string :=
  match querySelector sel_icon_alt el with
  | Some alt => textContent (self alt)
  | None => EmptyString
  end.

(** [Math.round(parseFloat(m[1]))] for a match [m] of a decimal literal *)
Definition rounded (m : decimal) : number := Math_round (parseFloat_decimal m).

(** 1. Amazon: the [data-hook] star rating element. *)
Definition starsFromAmazonHook (parent : node) : Completion (option number) :=
  match querySelector sel_amazon_star parent with
  | Some amazonStarEl =>
      classMatch ← match_className match_a_star (className (self amazonStarEl));
      Normal
        match classMatch with
        | Some digit => Some (parseInt digit)
        | None =>
            match match_decimal (altText amazonStarEl) with
            | Some altMatch => Some (rounded altMatch)
            | None =>
                rounded <$>
                  match_decimal (default EmptyString (innerText (self amazonStarEl)))
            end
        end
  | None => Normal None
  end.

(** 2. A generic star icon with a class name. *)
Definition starsFromIcon (parent : node) : Completion (option number) :=
  match querySelector sel_icon_star parent with
  | Some iconStarEl =>
      classMatch ← match_className match_a_star (className (self iconStarEl));
      Normal
        match classMatch with
        | Some digit => Some (parseInt digit)
        | None => rounded <$> match_decimal (altText iconStarEl)
        end
  | None => Normal None
  end.

(** 3. A [data-rating] attribute. *)
Definition starsFromDataRating (parent : node) : option number :=
  dataRatingEl ← querySelector sel_data_rating parent;
  let rating :=
    match getAttribute "data-rating" (self dataRatingEl) with
    | Some v => parseFloat v
    | None => NaN
    end in
  if negb (isNaN rating) then Some (Math_round rating) else None.

(** 4. An [aria-label] with star information. *)
Definition starsFromAria (parent : node) : option number :=
  ariaEl ← querySelector sel_aria parent;
  let ariaLabel := default EmptyString (getAttribute "aria-label" (self ariaEl)) in
  rounded <$> match_decimal ariaLabel.

(** 5. Text of the form "X out of 5" or "X/5" in the markup. *)
Definition starsFromText (parent : node) : option number :=
  rounded <$> match_out_of_5 (innerHTML (self parent)).

(** 6. The count of filled star icons. *)
Definition starsFromFilled (parent : node) : option number :=
  let filledStars := querySelectorAll sel_filled parent in
  if (0 <? length filledStars)%nat && (length filledStars <=? 5)%nat
  then Some (of_nat (length filledStars))
  else None.

(** [extractStarRating(parent)]; [None] is [null]. Only the first two
    steps read a [className], and so can throw. *)
Definition extractStarRating (parent : node) : Completion (option number) :=
  first_returning
    [starsFromAmazonHook; starsFromIcon;
     fun parent => Normal (first_of [starsFromDataRating; starsFromAria;
                                     starsFromText; starsFromFilled] parent)]
    parent.

(** The element searched for the rating of the review text [el]. *)
Definition reviewContainer (el : node) : option node :=
  match closest [[[AttrEq "data-hook" "review"]]] el with
  | Some c => Some c
  | None =>
      match closest [[[AttrContains "class" "review"]]] el with
      | Some c => Some c
      | None =>
          match closest [[[AttrContains "class" "Review"]]] el with
          | Some c => Some c
          | None =>
              parent ← parentElement el;
              grandparent ← parentElement parent;
              parentElement grandparent
          end
      end
  end.

(** [text && text.length > 20 && text.length < 5000] *)
Definition acceptable (text : string) : bool :=
  negb (String.eqb text EmptyString)
  && (20 <? String.length text)%nat && (String.length text <? 5000)%nat.

(** The star lookup made for the review text [el]: [extractStarRating]
    on its container, if it has one. *)
Definition lookupStars (el : node) : Completion (option number) :=
  match reviewContainer el with
  | Some container => extractStarRating container
  | None => Normal None
  end.

(** The body of the [forEach] callback: what visiting the matched
    element [el] does to the list [reviews], unless it throws. *)
Definition visit (reviews : list ReviewCandidate) (el : node)
  : Completion (list ReviewCandidate) :=
  match trim <$> innerText (self el) with
  | Some text =>
      if acceptable text then
        if negb (existsb (fun r => String.eqb (Content.text r) text) reviews) then
          extracted ← lookupStars el;
          let stars :=
            match extracted with
            | Some extractedStars => extractedStars
            | None => of_Z 3
            end in
          Normal (reviews ++
                  [{| text := text;
                      stars := Math_min (of_Z 5) (Math_max (of_Z 1) (Math_round stars)) |}])
        else Normal reviews
      else Normal reviews
  | None => Normal reviews
  end.

(** [try { elements.forEach(visit) } catch (e) {}]: the elements are
    visited in order; an exception ends the loop, the elements after it
    are not visited, and the candidates pushed before it stay. *)
Fixpoint forEach (elements : list node) (reviews : list ReviewCandidate)
  : list ReviewCandidate :=
  match elements with
  | [] => reviews
  | el :: rest =>
      match visit reviews el with
      | Normal reviews' => forEach rest reviews'
      | Throw => reviews
      end
  end.

(** The candidates collected by the loop over [selectors]. *)
Definition collect (d : Document) : list ReviewCandidate :=
  fold_left
    (fun reviews selector => forEach (document_querySelectorAll selector d) reviews)
    selectors [].

(** [extractReviews()] *)
Definition extractReviews (d : Document) : list ReviewCandidate :=
  let reviews := collect d in
  let reviews :=
    match trim <$> getSelection d with
    | Some selection =>
        if negb (String.eqb selection EmptyString) && (20 <? String.length selection)%nat
        then {| text := selection; stars := of_Z 3 |} :: reviews
        else reviews
    | None => reviews
    end in
  take 50 reviews.

(** The description of the page that [detectPageType] returns; a field
    that the returned object lacks is [None] (or [Undefined]).
    [reviewsUrl] is [None] also when the link has an empty [href]
    property: the code only tests the field for truth and navigates to
    it. *)
Record PageInfo : Type := {
  site : string;
  type : string;
  hasMorePages : option bool;
  reviewsUrl : option string;
  totalReviews : option number;
  displayedRating : value
}.

Definition plainPage (site type : string) : PageInfo := {|
  site := site; type := type; hasMorePages := None; reviewsUrl := None;
  totalReviews := None; displayedRating := Undefined
|}.

(** The selectors tried for the overall rating, in order. *)
Definition ratingSelectors : list selector := [
  [[[AttrEq "data-hook" "rating-out-of-text"]]];
  [[[Class "a-icon-star"]; [Class "a-icon-alt"]]];
  [[[Id "acrPopover"]; [Class "a-icon-alt"]]];
  [[[AttrEq "data-hook" "acr-average-stars-rating-text"]]];
  [[[Class "averageStarRating"]; [Class "a-icon-alt"]]];
  [[[Id "averageCustomerReviews"]; [Class "a-icon-alt"]]]
].

(** [el.textContent || el.getAttribute('aria-label') || ''] *)
Definition ratingText (el : node) : string :=
  if negb (String.eqb (textContent (self el)) EmptyString) then textContent (self el)
  else default EmptyString (getAttribute "aria-label" (self el)).

(** The rating read through one of the [ratingSelectors]. *)
Definition ratingFrom (sel : selector) (d : Document) : option number :=
  el ← document_querySelector sel d;
  parseFloat_decimal <$> match_out_of (ratingText el).

(** The rating encoded in the class of the star icon
    ([a-star-4-5] means 4.5). *)
Definition ratingFromStarClass (d : Document) : Completion (option number) :=
  match document_querySelector
          [[[Id "acrPopover"]; [Class "a-icon-star"]];
           [[Class "averageStarRating"]; [Class "a-icon-star"]]] d with
  | Some starEl =>
      match match_className match_a_star_half (className (self starEl)) with
      | Normal classMatch => Normal (parseFloat_decimal <$> classMatch)
      | Throw => Throw
      end
  | None => Normal None
  end.

(** The overall rating displayed on an Amazon page, [Null] if none is
    found. *)
Definition amazonDisplayedRating (d : Document) : Completion value :=
  let displayedRating :=
    match first_of (map ratingFrom ratingSelectors) d with
    | Some x => Num x
    | None => Null
    end in
  if negb (value_truthy displayedRating) then
    fromClass ← ratingFromStarClass d;
    Normal
      match fromClass with
      | Some x => Num x
      | None => displayedRating
      end
  else Normal displayedRating.

(** The link to all reviews of a product page. *)
Definition seeAllLink (d : Document) : option node :=
  match document_querySelector [[[Tag "a"; AttrEq "data-hook" "see-all-reviews-link-foot"]]] d with
  | Some a => Some a
  | None =>
      match document_querySelector [[[Tag "a"; AttrContains "href" "/product-reviews/"]]] d with
      | Some a => Some a
      | None => document_querySelector [[[AttrEq "data-hook" "see-all-reviews"]]] d
      end
  end.

(** The number of reviews announced on a product page, 0 if none is. *)
Definition totalReviewCount (d : Document) : number :=
  let totalReviewsEl :=
    match document_querySelector [[[AttrEq "data-hook" "total-review-count"]]] d with
    | Some e => Some e
    | None => document_querySelector [[[Class "averageStarRatingNumerical"]]] d
    end in
  match totalReviewsEl ≫= (fun e => match_count (textContent (self e))) with
  | Some digits => parseInt digits
  | None => of_Z 0
  end.

Definition isReviewsUrl (url : string) : bool :=
  includes "/product-reviews/" url || includes "/customer-reviews/" url.

Definition isProductUrl (url : string) : bool :=
  includes "/dp/" url || includes "/gp/product/" url.

(** What follows the Amazon case of [detectPageType]. *)
Definition otherSites (trustpilot : bool) (d : Document) : PageInfo :=
  if includes "yelp" (hostname d) then plainPage "yelp" "reviews"
  else if includes "tripadvisor" (hostname d) then plainPage "tripadvisor" "reviews"
  else if trustpilot && includes "trustpilot" (hostname d) then plainPage "trustpilot" "reviews"
  else plainPage "unknown" "unknown".

(** [detectPageType()] of the content script. *)
Definition detectPageType (d : Document) : Completion PageInfo :=
  if includes "amazon" (hostname d) then
    displayedRating ← amazonDisplayedRating d;
    Normal
      (if isReviewsUrl (href d) then
         {| site := "amazon"; type := "reviews";
            hasMorePages := Some (bool_decide (is_Some (document_querySelector
              [[[Class "a-pagination"]; [Class "a-last"; NotClass "a-disabled"]]] d)));
            reviewsUrl := None; totalReviews := None;
            displayedRating := displayedRating |}
       else if isProductUrl (href d) then
         {| site := "amazon"; type := "product"; hasMorePages := None;
            reviewsUrl := seeAllLink d ≫= (fun a => hrefProperty (self a));
            totalReviews := Some (totalReviewCount d);
            displayedRating := displayedRating |}
       else otherSites true d)
  else Normal (otherSites true d).

(** The response of the content script to a message of the popup. *)
Record Message : Type := { reviews : list ReviewCandidate; pageInfo : PageInfo }.

(** What the listener of the content script passes to [sendResponse] for
    either action, on the page [d]: [{ reviews: extractReviews(),
    pageInfo: detectPageType() }]. When [detectPageType] throws, nothing
    is passed. *)
Definition respond (d : Document) : Completion Message :=
  let reviews := extractReviews d in
  pageInfo ← detectPageType d;
  Normal {| reviews := reviews; pageInfo := pageInfo |}.

End Content.

(** ** Asynchronous functions *)

Module Async.
Import JS Dom Content.

(** The body sent to [POST /analyze]. *)
Record Request : Type := { req_text : string; req_stars : number }.

(** The fields of the response body that the clients read. *)
Record Credibility : Type := { classification : option string; score : value }.
Record Sarcasm : Type := { sarcastic : option bool }.
Record Data : Type := {
  adjusted_rating : value;
  credibility : option Credibility;
  sarcasm : option Sarcasm
}.

(** An HTTP response, as far as the clients look at it before reading
    the body: [response.ok]. *)
Record Response : Type := { ok : bool }.

(** What an [await] waits for. *)
Inductive Pending : Type :=
| Fetch (r : Request)        (* [fetch(`${API_URL}/analyze`, ...)] *)
| Json (r : Response)        (* [response.json()] *)
| Timeout (ms : nat)         (* [new Promise(resolve => setTimeout(resolve, ms))] *)
| ScrollToLoadMore           (* [scrollToLoadMore()] *)
| TabsQuery                  (* [chrome.tabs.query(...)] *)
| ExecuteScript              (* [chrome.scripting.executeScript(...)] *)
| SendMessage (action : string). (* [chrome.tabs.sendMessage(tab.id, { action })] *)

(** How the awaited promise settles. *)
Inductive Answer : Type :=
| Resolved                   (* fulfilled, no value *)
| Responded (r : Response)   (* [fetch] fulfilled *)
| Parsed (d : Data)          (* [response.json()] fulfilled *)
| Delivered (m : Message)    (* the content script responded with [m] *)
| Rejected.                  (* rejected: the [await] throws *)

(** The settlements that each kind of promise admits. *)
Definition admits (p : Pending) (a : Answer) : bool :=
  match p, a with
  | Fetch _, Responded _ | Fetch _, Rejected => true
  | Json _, Parsed _ | Json _, Rejected => true
  | Timeout _, Resolved | ScrollToLoadMore, Resolved => true
  | TabsQuery, Resolved | TabsQuery, Rejected => true
  | ExecuteScript, Resolved | ExecuteScript, Rejected => true
  | SendMessage _, Delivered _ | SendMessage _, Resolved | SendMessage _, Rejected => true
  | _, _ => false
  end.

(** An asynchronous computation over shared state [S]: it returns,
    reads or writes the state, or suspends at an [await] until the
    promise settles. Code between two [await]s runs without
    interruption. *)
Inductive Async (S A : Type) : Type :=
| Ret (a : A)
| Get (k : S → Async S A)
| Put (s : S) (k : Async S A)
| Await (p : Pending) (k : Answer → Async S A).

Arguments Ret {S A} a.
Arguments Get {S A} k.
Arguments Put {S A} s k.
Arguments Await {S A} p k.

Fixpoint bind {S A B : Type} (m : Async S A) (f : A → Async S B) : Async S B :=
  match m with
  | Ret a => f a
  | Get k => Get (fun s => bind (k s) f)
  | Put s k => Put s (bind k f)
  | Await p k => Await p (fun a => bind (k a) f)
  end.

#[export] Instance Async_ret {S} : MRet (Async S) := fun A a => Ret a.
#[export] Instance Async_bind {S} : MBind (Async S) := fun A B f m => bind m f.

Definition get {S} : Async S S := Get Ret.
Definition put {S} (s : S) : Async S unit := Put s (Ret ()).
Definition modify {S} (f : S → S) : Async S unit := Get (fun s => Put (f s) (Ret ())).
Definition await {S} (p : Pending) : Async S Answer := Await p Ret.

(** Where a computation stands once the synchronous code has run:
    finished with a value, or suspended at an [await]. *)
Inductive Stage (S A : Type) : Type :=
| Finished (a : A)
| Suspended (p : Pending) (k : Answer → Async S A).

Arguments Finished {S A} a.
Arguments Suspended {S A} p k.

(** Run [m] on the state [s] up to its next [await]. *)
Fixpoint advance {S A : Type} (m : Async S A) (s : S) : S * Stage S A :=
  match m with
  | Ret a => (s, Finished a)
  | Get k => advance (k s) s
  | Put s' k => advance k s'
  | Await p k => (s, Suspended p k)
  end.

(** The outcome of running one computation alone. *)
Record Run (S A : Type) : Type := {
  final : S;                  (* the state at the end *)
  result : option A;          (* the value returned, if the run completed *)
  awaited : list Pending      (* the promises awaited, in order *)
}.

Arguments final {S A} r.
Arguments result {S A} r.
Arguments awaited {S A} r.

(** Run [m] alone from the state [s], its [await]s settled in order by
    [answers]; the run stops short when the answers run out or when one
    is not admitted by the promise awaited. *)
Fixpoint exec {S A : Type} (m : Async S A) (answers : list Answer) (s : S) : Run S A :=
  match m with
  | Ret a => {| final := s; result := Some a; awaited := [] |}
  | Get k => exec (k s) answers s
  | Put s' k => exec k answers s'
  | Await p k =>
      match answers with
      | a :: rest =>
          if admits p a then
            let r := exec (k a) rest s in
            {| final := final r; result := result r; awaited := p :: awaited r |}
          else {| final := s; result := None; awaited := [p] |}
      | [] => {| final := s; result := None; awaited := [p] |}
      end
  end.

(** [stretches Susp Fin m s0 s]: [m] being run, in a stretch of
    synchronous code that began in the state [s0] and has reached [s],
    the stretch ends either at an [await], with [Susp s0 s'], or at the
    return of a value [a], with [Fin a s0 s']; and the same holds of
    every later stretch, in whatever state it begins. *)
Fixpoint stretches {S A : Type} (Susp : S → S → Prop) (Fin : A → S → S → Prop)
    (m : Async S A) (s0 s : S) : Prop :=
  match m with
  | Ret a => Fin a s0 s
  | Get k => stretches Susp Fin (k s) s0 s
  | Put s' k => stretches Susp Fin k s0 s'
  | Await p k => Susp s0 s ∧ ∀ a s1, stretches Susp Fin (k a) s1 s1
  end.

End Async.

(** ** Analysis and aggregation (popup script and bookmarklet) *)

Module Analysis.
Import JS Content Async.

(** A review with the scores of the service. *)
Record AnalyzedReview : Type := {
  text : string;
  stars : number;
  weighted_rating : value;
  credibility_label : string;
  credibility_score : number;
  is_sarcastic : bool
}.

(** The candidate that an analyzed review extends. *)
Definition candidate (r : AnalyzedReview) : ReviewCandidate :=
  {| Content.text := text r; Content.stars := stars r |}.

(** The object pushed for [review] when the service answered [data]. *)
Definition analyzed (review : ReviewCandidate) (data : Data) : AnalyzedReview := {|
  text := Content.text review;
  stars := Content.stars review;
  weighted_rating := adjusted_rating data;
  credibility_label :=
    match credibility data ≫= classification with
    | Some c => if String.eqb c EmptyString then "unknown" else c
    | None => "unknown"
    end;
  credibility_score :=
    match score <$> credibility data with
    | Some (Num x) => if truthy x then x else of_Z 0
    | _ => of_Z 0
    end;
  is_sarcastic := default false (sarcasm data ≫= sarcastic)
|}.

(** The body of the request for [review]. *)
Definition request (review : ReviewCandidate) : Request :=
  {| req_text := Content.text review; req_stars := Content.stars review |}.

(** The [for] loop of [analyzeReviews] over the reviews left, with the
    [results] so far. *)
Fixpoint analyzeEach {S : Type} (reviews : list ReviewCandidate)
    (results : list AnalyzedReview) : Async S (list AnalyzedReview) :=
  match reviews with
  | [] => Ret results
  | review :: rest =>
      Await (Fetch (request review)) (fun a =>
        match a with
        | Responded response =>
            if ok response then
              Await (Json response) (fun b =>
                match b with
                | Parsed data => analyzeEach rest (results ++ [analyzed review data])
                | _ => analyzeEach rest results     (* catch (e) *)
                end)
            else analyzeEach rest results
        | _ => analyzeEach rest results             (* catch (e) *)
        end)
  end.

(** [analyzeReviews(reviews)] *)
Definition analyzeReviews {S : Type} (reviews : list ReviewCandidate)
  : Async S (list AnalyzedReview) :=
  analyzeEach (take 20 reviews) [].

(** The result of [calculateTruthGap]. *)
Record TruthGap : Type := { gap : number; avgDisplayed : number; avgTrue : number }.

(** [results.reduce((sum, r) => sum + f(r), 0)] *)
Definition reduce_sum (f : AnalyzedReview → number) (results : list AnalyzedReview) : number :=
  fold_left (fun sum r => add sum (f r)) results (of_Z 0).

(** [r.weighted_rating || r.stars] *)
Definition weighted_or_stars (r : AnalyzedReview) : number :=
  match weighted_rating r with
  | Num x => if truthy x then x else stars r
  | _ => stars r
  end.

End Analysis.

(** ** The event loop *)

Module EventLoop.
Import Async.

Section Tasks.
Context {S L : Type}.

(** A call that is suspended at an [await]: where the call came from,
    the promise awaited, and what runs once it settles. *)
Record Task : Type := {
  origin : L;
  waiting : Pending;
  resume : Answer → Async S unit
}.

(** The shared state, the suspended calls, and the requests sent to the
    scoring service so far. *)
Record System : Type := {
  state : S;
  tasks : list Task;
  sent : list Request
}.

(** Suspending at a [fetch] sends its request. *)
Definition sending (p : Pending) (log : list Request) : list Request :=
  match p with
  | Fetch r => log ++ [r]
  | _ => log
  end.

(** A handler is called: its synchronous part runs at once; the rest,
    if any, waits as a new task. *)
Definition call (l : L) (m : Async S unit) (sys : System) : System :=
  match advance m (state sys) with
  | (s, Finished _) => {| state := s; tasks := tasks sys; sent := sent sys |}
  | (s, Suspended p k) =>
      {| state := s;
         tasks := tasks sys ++ [{| origin := l; waiting := p; resume := k |}];
         sent := sending p (sent sys) |}
  end.

(** The promise awaited by task [i] settles with [a]: the task runs up
    to its next [await] or to its end. *)
Definition settle (i : nat) (a : Answer) (sys : System) : option System :=
  t ← tasks sys !! i;
  if admits (waiting t) a then
    Some match advance (resume t a) (state sys) with
         | (s, Finished _) =>
             {| state := s; tasks := delete i (tasks sys); sent := sent sys |}
         | (s, Suspended p k) =>
             {| state := s;
                tasks := <[i := {| origin := origin t; waiting := p; resume := k |}]> (tasks sys);
                sent := sending p (sent sys) |}
         end
  else None.

(** *** A flag that lets one call through at a time *)

Variable flag : S → bool.
(** The origins of the calls that take the flag. *)
Variable holder : L → bool.

(** A stretch of a call that took the flag ends with the flag set if
    the call is suspended again, and with the flag clear if the call
    returns. *)
Definition holdsFlag (s0 s : S) : Prop := flag s0 = true → flag s = true.
Definition releasesFlag (_ : unit) (s0 s : S) : Prop := flag s0 = true → flag s = false.

(** A stretch of any other call leaves the flag as it is. *)
Definition keepsFlag (s0 s : S) : Prop := flag s = flag s0.

(** What the rest of a suspended call does to the flag. *)
Definition task_ok (t : Task) : Prop :=
  if holder (origin t)
  then ∀ a s, stretches holdsFlag releasesFlag (resume t a) s s
  else ∀ a s, stretches keepsFlag (fun _ => keepsFlag) (resume t a) s s.

(** The number of tasks that hold the flag. *)
Definition holders (ts : list Task) : nat :=
  length (List.filter (fun t => holder (origin t)) ts).

(** The invariant: the flag is set exactly while one call that took it
    is in flight, and there is never more than one. *)
Definition Inv (sys : System) : Prop :=
  Forall task_ok (tasks sys)
  ∧ holders (tasks sys) = (if flag (state sys) then 1 else 0)%nat.

(** A handler that the flag guards: called with the flag set it returns
    at once and changes nothing; called with the flag clear it sets the
    flag and holds it until it returns. *)
Definition guarded (m : Async S unit) : Prop :=
  ∀ st,
    match advance m st with
    | (st', Finished _) => flag st = true ∧ st' = st
    | (st', Suspended p k) =>
        flag st = false ∧ flag st' = true
        ∧ ∀ a s1, stretches holdsFlag releasesFlag (k a) s1 s1
    end.

End Tasks.

Arguments Task : clear implicits.
Arguments System : clear implicits.

End EventLoop.

(** ** The extension popup *)

Module Popup.
Import JS Dom Content Async Analysis EventLoop.

(** [calculateTruthGap(results, displayedRating = null)] *)
Definition calculateTruthGap (results : list AnalyzedReview) (displayedRating : value)
  : TruthGap :=
  if (length results =? 0)%nat
  then {| gap := of_Z 0; avgDisplayed := of_Z 0; avgTrue := of_Z 0 |}
  else
    let avgDisplayed :=
      match displayedRating with
      | Num x => if truthy x then x
                 else div (reduce_sum stars results) (of_nat (length results))
      | _ => div (reduce_sum stars results) (of_nat (length results))
      end in
    let avgTrue := div (reduce_sum weighted_or_stars results) (of_nat (length results)) in
    {| gap := sub avgDisplayed avgTrue; avgDisplayed := avgDisplayed; avgTrue := avgTrue |}.

(** The figures that [renderResults] shows. *)
Record Report : Type := {
  truthGap : TruthGap;
  human : nat;
  bot : nat;
  lowEffort : nat;
  total : nat;
  sampleReviews : list AnalyzedReview
}.

(** [results.filter(r => r.credibility_label === label).length] *)
Definition count_label (label : string) (results : list AnalyzedReview) : nat :=
  length (List.filter (fun r => String.eqb (credibility_label r) label) results).

(** [pageInfo?.displayedRating || null] *)
Definition displayedRating_or_null (pageInfo : option PageInfo) : value :=
  match pageInfo with
  | Some info => if value_truthy (displayedRating info) then displayedRating info else Null
  | None => Null
  end.

(** [renderResults(results)], with [pageInfo] the page description held
    by the popup: the figures put on display. *)
Definition renderResults (pageInfo : option PageInfo) (results : list AnalyzedReview)
  : Report := {|
  truthGap := calculateTruthGap results (displayedRating_or_null pageInfo);
  human := count_label "human" results;
  bot := count_label "bot" results;
  lowEffort := count_label "low_effort" results;
  total := length results;
  sampleReviews := take 5 results
|}.

(** What the popup shows. *)
Inductive LoadingText : Type := ExtractingReviews | AnalyzingReviews (n : nat).
Inductive Failure : Type :=
| CouldNotConnect | FailedToExtract | ApiAnalysisFailed | OtherError.
Inductive Panel : Type :=
| Initial
| Loading (text : LoadingText)
| ResultsShown (r : Report)
| Error (e : Failure)
| NoReviews (seeReviewsBtn : bool).

(** The Load More button. *)
Inductive ButtonLabel : Type :=
| LoadMoreReviews | LoadingMoreReviews | NoMoreReviewsFound | FailedToLoadMore.
Record Button : Type := { disabled : bool; hidden : bool; label : ButtonLabel }.

(** The variables of the popup and what it shows. *)
Record State : Type := {
  currentResults : list AnalyzedReview;
  pageInfo : option PageInfo;
  isLoading : bool;
  panel : Panel;
  loadMoreBtn : Button
}.

Definition set_currentResults (v : list AnalyzedReview) (st : State) : State :=
  {| currentResults := v; pageInfo := pageInfo st; isLoading := isLoading st;
     panel := panel st; loadMoreBtn := loadMoreBtn st |}.
Definition set_pageInfo (v : option PageInfo) (st : State) : State :=
  {| currentResults := currentResults st; pageInfo := v; isLoading := isLoading st;
     panel := panel st; loadMoreBtn := loadMoreBtn st |}.
Definition set_isLoading (v : bool) (st : State) : State :=
  {| currentResults := currentResults st; pageInfo := pageInfo st; isLoading := v;
     panel := panel st; loadMoreBtn := loadMoreBtn st |}.
Definition set_panel (v : Panel) (st : State) : State :=
  {| currentResults := currentResults st; pageInfo := pageInfo st;
     isLoading := isLoading st; panel := v; loadMoreBtn := loadMoreBtn st |}.
Definition set_loadMoreBtn (v : Button) (st : State) : State :=
  {| currentResults := currentResults st; pageInfo := pageInfo st;
     isLoading := isLoading st; panel := panel st; loadMoreBtn := v |}.

(** [btn.disabled = v] *)
Definition set_disabled (v : bool) (st : State) : State :=
  set_loadMoreBtn {| disabled := v; hidden := hidden (loadMoreBtn st);
                     label := label (loadMoreBtn st) |} st.
(** [btn.innerHTML = ...] *)
Definition set_label (v : ButtonLabel) (st : State) : State :=
  set_loadMoreBtn {| disabled := disabled (loadMoreBtn st);
                     hidden := hidden (loadMoreBtn st); label := v |} st.
(** [btn.classList.add('hidden')] *)
Definition hide_button (st : State) : State :=
  set_loadMoreBtn {| disabled := disabled (loadMoreBtn st); hidden := true;
                     label := label (loadMoreBtn st) |} st.

(** [renderResults(results)] on the popup: the figures are put on
    display and the Load More button is hidden. *)
Definition showResults (results : list AnalyzedReview) : Async State unit :=
  st ← get;
  put (hide_button (set_panel (ResultsShown (renderResults (pageInfo st) results)) st)).

(** [handleNoReviews()] *)
Definition handleNoReviews : Async State unit :=
  st ← get;
  let toReviews :=
    match pageInfo st with
    | Some info =>
        String.eqb (type info) "product" && bool_decide (is_Some (reviewsUrl info))
    | None => false
    end in
  modify (set_panel (NoReviews toReviews)) ;;
  modify (set_isLoading false).

(** The [catch] clause of [handleAnalyze]. *)
Definition showError (e : Failure) : Async State unit := modify (set_panel (Error e)).

(** [handleAnalyze()]; the last line is the [finally] clause. The
    response of the content script is [Content.respond] of the page as
    it is when the message arrives. *)
Definition handleAnalyze : Async State unit :=
  st ← get;
  if isLoading st then mret ()
  else
    modify (set_isLoading true) ;;
    modify (set_panel (Loading ExtractingReviews)) ;;
    (tab ← await TabsQuery;
     match tab with
     | Rejected => showError OtherError
     | _ =>
         _ ← await ExecuteScript;       (* a failure is caught and logged *)
         _ ← await (Timeout 100);
         response ← await (SendMessage "extractReviews");
         match response with
         | Rejected => showError CouldNotConnect
         | Delivered response =>
             let reviews := Content.reviews response in
             modify (set_pageInfo (Some (Content.pageInfo response))) ;;
             if (length reviews =? 0)%nat then handleNoReviews
             else
               modify (set_panel (Loading (AnalyzingReviews (length reviews)))) ;;
               results ← analyzeReviews reviews;
               modify (set_currentResults results) ;;
               if (length results =? 0)%nat then showError ApiAnalysisFailed
               else showResults results
         | _ => showError FailedToExtract
         end
     end) ;;
    modify (set_isLoading false).

(** The texts of the reviews analyzed so far:
    [new Set(currentResults.map(r => r.text))]. *)
Definition existingTexts (st : State) : gset string :=
  list_to_set (text <$> currentResults st).

(** [response.reviews.filter(r => !existingTexts.has(r.text))] *)
Definition newReviews (st : State) (reviews : list ReviewCandidate)
  : list ReviewCandidate :=
  List.filter (fun r => bool_decide (Content.text r ∉ existingTexts st)) reviews.

(** [handleLoadMore()]; the last two lines are the [finally] clause.
    The response of the content script is [Content.respond] of the page
    as it is when the message arrives. *)
Definition handleLoadMore : Async State unit :=
  st ← get;
  if isLoading st then mret ()
  else
    modify (set_isLoading true) ;;
    modify (set_disabled true) ;;
    modify (set_label LoadingMoreReviews) ;;
    (tab ← await TabsQuery;
     match tab with
     | Rejected => modify (set_label FailedToLoadMore)
     | _ =>
         response ← await (SendMessage "loadMoreReviews");
         match response with
         | Rejected => modify (set_label FailedToLoadMore)
         | Delivered response =>
             let reviews := Content.reviews response in
             if (0 <? length reviews)%nat then
               st ← get;
               let new := newReviews st reviews in
               if (0 <? length new)%nat then
                 newResults ← analyzeReviews new;
                 modify (fun st => set_currentResults (currentResults st ++ newResults) st) ;;
                 modify (set_pageInfo (Some (Content.pageInfo response))) ;;
                 st ← get;
                 showResults (currentResults st)
               else modify (set_label NoMoreReviewsFound)
             else modify (set_label NoMoreReviewsFound)
         | _ => modify (set_label NoMoreReviewsFound)
         end
     end) ;;
    modify (set_isLoading false) ;;
    modify (set_disabled false).

(** Where a task came from. *)
Inductive Origin : Type := Analyze | LoadMore.

(** What can happen while the popup is open. *)
Inductive Event : Type :=
| ClickAnalyze                    (* the Analyze or the Retry handler is called *)
| ClickLoadMore                   (* the Load More handler is called *)
| Settle (i : nat) (a : Answer).  (* the promise awaited by task [i] settles *)

(** The popup when it opens. *)
Definition start : System State Origin :=
  {| state := {| currentResults := []; pageInfo := None; isLoading := false;
                 panel := Initial;
                 loadMoreBtn := {| disabled := false; hidden := false;
                                   label := LoadMoreReviews |} |};
     tasks := []; sent := [] |}.

Definition step (sys : System State Origin) (e : Event) : option (System State Origin) :=
  match e with
  | ClickAnalyze => Some (call Analyze handleAnalyze sys)
  | ClickLoadMore => Some (call LoadMore handleLoadMore sys)
  | Settle i a => settle i a sys
  end.

(** The system after the events [es], if each of them can happen. *)
Fixpoint steps (sys : System State Origin) (es : list Event) : option (System State Origin) :=
  match es with
  | [] => Some sys
  | e :: rest => sys' ← step sys e; steps sys' rest
  end.

(** Both handlers take the flag [isLoading]. *)
Definition takesFlag (l : Origin) : bool := true.

(** The calls in flight, and the load-more calls among them. *)
Definition inFlight (sys : System State Origin) : nat := holders takesFlag (tasks sys).
Definition loadsInFlight (sys : System State Origin) : nat :=
  length (List.filter (fun t => match origin t with LoadMore => true | Analyze => false end)
            (tasks sys)).

End Popup.


(** ** The bookmarklet *)

Module Bookmarklet.
Import JS Dom Content Async Analysis EventLoop.

(** [calculateTruthGap(results)] *)
Definition calculateTruthGap (results : list AnalyzedReview) : TruthGap :=
  if (length results =? 0)%nat
  then {| gap := of_Z 0; avgDisplayed := of_Z 0; avgTrue := of_Z 0 |}
  else
    let avgDisplayed := div (reduce_sum stars results) (of_nat (length results)) in
    let avgTrue := div (reduce_sum weighted_or_stars results) (of_nat (length results)) in
    {| gap := sub avgDisplayed avgTrue; avgDisplayed := avgDisplayed; avgTrue := avgTrue |}.

(** [detectPageType()] of the bookmarklet. *)
Definition detectPageType (d : Document) : PageInfo :=
  if includes "amazon" (hostname d) then
    if isReviewsUrl (href d) then
      {| site := "amazon"; type := "reviews";
         hasMorePages := Some (bool_decide (is_Some (document_querySelector
           [[[Class "a-pagination"]]] d)));
         reviewsUrl := None; totalReviews := None; displayedRating := Undefined |}
    else if isProductUrl (href d) then
      {| site := "amazon"; type := "product"; hasMorePages := None;
         reviewsUrl := seeAllLink d ≫= (fun a => hrefProperty (self a));
         totalReviews := Some (totalReviewCount d);
         displayedRating := Undefined |}
    else otherSites false d
  else otherSites false d.

(** The Load More button. *)
Inductive ButtonLabel : Type :=
| LoadMoreReviews | LoadingMoreReviews | NoMoreReviewsFound | FailedToLoadMore.

Record Button : Type := { disabled : bool; label : ButtonLabel }.

(** The results on display. *)
Record Results : Type := {
  truthGap : TruthGap;
  human : nat;
  bot : nat;
  lowEffort : nat;
  analyzedCount : nat;
  sampleReviews : list AnalyzedReview;
  loadMoreBtn : option Button
}.

(** What the overlay shows. *)
Inductive Overlay : Type :=
| Extracting
| Analyzing (n : nat)
| NoReviewsFound
| ProductPageDetected
| ResultsShown (r : Results).

(** The variables of the bookmarklet, what its overlay shows, and the
    page it runs on. [document] is the whole page as an extraction finds
    it, the elements of the overlay included; every change of it, also
    the one that rendering the overlay makes, is an event of its own
    ([PageChange] below). *)
Record State : Type := {
  currentResults : list AnalyzedReview;
  allExtractedReviews : list ReviewCandidate;
  isLoadingMore : bool;
  overlay : Overlay;
  document : Document
}.

Definition set_currentResults (v : list AnalyzedReview) (st : State) : State :=
  {| currentResults := v; allExtractedReviews := allExtractedReviews st;
     isLoadingMore := isLoadingMore st; overlay := overlay st; document := document st |}.
Definition set_allExtractedReviews (v : list ReviewCandidate) (st : State) : State :=
  {| currentResults := currentResults st; allExtractedReviews := v;
     isLoadingMore := isLoadingMore st; overlay := overlay st; document := document st |}.
Definition set_isLoadingMore (v : bool) (st : State) : State :=
  {| currentResults := currentResults st; allExtractedReviews := allExtractedReviews st;
     isLoadingMore := v; overlay := overlay st; document := document st |}.
Definition set_overlay (v : Overlay) (st : State) : State :=
  {| currentResults := currentResults st; allExtractedReviews := allExtractedReviews st;
     isLoadingMore := isLoadingMore st; overlay := v; document := document st |}.
Definition set_document (v : Document) (st : State) : State :=
  {| currentResults := currentResults st; allExtractedReviews := allExtractedReviews st;
     isLoadingMore := isLoadingMore st; overlay := overlay st; document := v |}.

(** [if (btn) { ... }] with [btn] the Load More button, if the overlay
    has one. *)
Definition set_button (b : Button) (st : State) : State :=
  match overlay st with
  | ResultsShown r =>
      match loadMoreBtn r with
      | Some _ =>
          set_overlay (ResultsShown
            {| truthGap := truthGap r; human := human r; bot := bot r;
               lowEffort := lowEffort r; analyzedCount := analyzedCount r;
               sampleReviews := sampleReviews r; loadMoreBtn := Some b |}) st
      | None => st
      end
  | _ => st
  end.

Definition count_label (label : string) (results : list AnalyzedReview) : nat :=
  length (List.filter (fun r => String.eqb (credibility_label r) label) results).

(** [renderResults(results, pageInfo)] *)
Definition renderResults (results : list AnalyzedReview) (pageInfo : PageInfo)
  : Async State unit :=
  modify (set_currentResults results) ;;
  if (length results =? 0)%nat then modify (set_overlay NoReviewsFound)
  else
    st ← get;
    let showLoadMore :=
      String.eqb (type pageInfo) "reviews"
      || (length (allExtractedReviews st) <? 50)%nat in
    put (set_overlay (ResultsShown
      {| truthGap := calculateTruthGap results;
         human := count_label "human" results;
         bot := count_label "bot" results;
         lowEffort := count_label "low_effort" results;
         analyzedCount := length results;
         sampleReviews := take 5 results;
         loadMoreBtn :=
           if showLoadMore
           then Some {| disabled := false; label := LoadMoreReviews |}
           else None |}) st).

(** The texts of the reviews analyzed so far:
    [new Set(currentResults.map(r => r.text))]. *)
Definition existingTexts (st : State) : gset string :=
  list_to_set (text <$> currentResults st).

(** [newReviews.filter(r => !existingTexts.has(r.text))] *)
Definition additionalReviews (st : State) (newReviews : list ReviewCandidate)
  : list ReviewCandidate :=
  List.filter (fun r => bool_decide (Content.text r ∉ existingTexts st)) newReviews.

(** [handleLoadMore()]. Nothing in the [try] block throws
    ([analyzeReviews] handles its own failures), so the [catch] clause
    does not appear; the last line is the [finally] clause. *)
Definition handleLoadMore : Async State unit :=
  st ← get;
  if isLoadingMore st then mret ()
  else
    modify (set_isLoadingMore true) ;;
    modify (set_button {| disabled := true; label := LoadingMoreReviews |}) ;;
    _ ← await ScrollToLoadMore;
    _ ← await (Timeout 1500);
    st ← get;
    let newReviews := extractReviews (document st) in
    let additional := additionalReviews st newReviews in
    (if (0 <? length additional)%nat then
       newResults ← analyzeReviews additional;
       modify (fun st => set_currentResults (currentResults st ++ newResults) st) ;;
       modify (fun st => set_allExtractedReviews (allExtractedReviews st ++ additional) st) ;;
       st ← get;
       renderResults (currentResults st) (detectPageType (document st))
     else
       modify (set_button {| disabled := true; label := NoMoreReviewsFound |})) ;;
    modify (set_isLoadingMore false).

(** [run()] *)
Definition run : Async State unit :=
  st ← get;
  let pageInfo := detectPageType (document st) in
  modify (set_overlay Extracting) ;;
  let reviews := extractReviews (document st) in
  modify (set_allExtractedReviews reviews) ;;
  if (length reviews =? 0)%nat then
    if String.eqb (type pageInfo) "product" && bool_decide (is_Some (reviewsUrl pageInfo))
    then modify (set_overlay ProductPageDetected)
    else renderResults [] pageInfo
  else
    modify (set_overlay (Analyzing (length reviews))) ;;
    results ← analyzeReviews reviews;
    renderResults results pageInfo.

(** Where a task came from. *)
Inductive Origin : Type := Main | LoadMore.

(** What can happen while the overlay is open. *)
Inductive Event : Type :=
| Click                           (* the Load More handler is called *)
| Settle (i : nat) (a : Answer)   (* the promise awaited by task [i] settles *)
| PageChange (d : Document).      (* the host page changes *)

(** The bookmarklet is started on the page [d]. *)
Definition start (d : Document) : System State Origin :=
  call Main run
    {| state := {| currentResults := []; allExtractedReviews := [];
                   isLoadingMore := false; overlay := Extracting; document := d |};
       tasks := []; sent := [] |}.

Definition step (sys : System State Origin) (e : Event) : option (System State Origin) :=
  match e with
  | Click => Some (call LoadMore handleLoadMore sys)
  | Settle i a => settle i a sys
  | PageChange d =>
      Some {| state := set_document d (state sys); tasks := tasks sys; sent := sent sys |}
  end.

(** The system after the events [es], if each of them can happen. *)
Fixpoint steps (sys : System State Origin) (es : list Event) : option (System State Origin) :=
  match es with
  | [] => Some sys
  | e :: rest => sys' ← step sys e; steps sys' rest
  end.

(** The calls that take the flag [isLoadingMore]: the load-more calls. *)
Definition isLoad (l : Origin) : bool :=
  match l with LoadMore => true | Main => false end.

(** The load-more calls in flight. *)
Definition loadsInFlight (sys : System State Origin) : nat := holders isLoad (tasks sys).

End Bookmarklet.

(** ** Reference notions used in the statements *)

Module Reference.
Import JS Dom Content Async Analysis.

(** The arithmetic mean of a list of numbers as binary64 arithmetic
    gives it: the numbers are added to 0 from the first to the last, each
    sum rounded, and the total is divided by their count. *)
Definition sum64 (xs : list number) : number := fold_left add xs (of_Z 0).
Definition mean64 (xs : list number) : number := div (sum64 xs) (of_nat (length xs)).

(** The sum and the arithmetic mean of a list of integers, exactly. *)
Definition Zsum (ks : list Z) : Z := foldr Z.add 0%Z ks.
Definition Zmean (ks : list Z) : Q :=
  (inject_Z (Zsum ks) / inject_Z (Z.of_nat (length ks)))%Q.

(** An integer from 1 to 5. *)
Definition star_value (x : number) : Prop := ∃ k : Z, x = of_Z k ∧ (1 <= k <= 5)%Z.

(** An integer, or an infinity: what [Math.round] returns on a number
    other than [NaN]. *)
Definition rounded_value (x : number) : Prop :=
  (∃ k : Z, x = of_Z k) ∨ (∃ s : bool, x = Infinity s).

(** How the call for one candidate ends: the transport fails, or the
    service replies, with a body that parses or not. *)
Inductive Outcome : Type :=
| TransportFailure
| Reply (ok : bool) (body : option Data).

(** The call yields an analysis. *)
Definition success (o : Outcome) : option Data :=
  match o with
  | Reply true (Some data) => Some data
  | _ => None
  end.

Definition succeeded (o : Outcome) : bool := bool_decide (is_Some (success o)).

(** The settlements of the promises of one call. *)
Definition answers (o : Outcome) : list Answer :=
  match o with
  | TransportFailure => [Rejected]
  | Reply false _ => [Responded {| ok := false |}]
  | Reply true (Some data) => [Responded {| ok := true |}; Parsed data]
  | Reply true None => [Responded {| ok := true |}; Rejected]
  end.

(** The promises awaited by the call for [review]. *)
Definition awaits (review : ReviewCandidate) (o : Outcome) : list Pending :=
  match o with
  | Reply true _ => [Fetch (request review); Json {| ok := true |}]
  | _ => [Fetch (request review)]
  end.

(** The requests among the promises awaited. *)
Definition fetched (ps : list Pending) : list Request :=
  omap (fun p => match p with Fetch r => Some r | _ => None end) ps.

(** The analyses that a batch yields under the given outcomes. *)
Definition successes (batch : list ReviewCandidate) (outcomes : list Outcome)
  : list AnalyzedReview :=
  omap (fun '(review, o) => analyzed review <$> success o) (zip batch outcomes).

(** The matched element [el] has the text [t], trimmed, and [t] has
    more than 20 and fewer than 5000 characters. *)
Definition accepted (el : node) (t : string) : Prop :=
  ∃ raw, innerText (self el) = Some raw ∧ t = trim raw
         ∧ (20 < String.length t < 5000)%nat.

(** The elements matched by the selectors of [extractReviews], in the
    order in which the loop visits them. *)
Definition matched (d : Document) : list node :=
  concat ((fun sel => document_querySelectorAll sel d) <$> selectors).

(** The run [r], with the promises [ps] awaited before it. *)
Definition after {S A : Type} (ps : list Pending) (r : Run S A) : Run S A :=
  {| final := final r; result := result r; awaited := ps ++ awaited r |}.

(** What a review contributes to the true rating: its adjusted rating
    when it has one other than zero (and [NaN]), its stars otherwise. *)
Definition contributes (r : AnalyzedReview) (x : number) : Prop :=
  (weighted_rating r = Num x ∧ truthy x = true)
  ∨ (value_truthy (weighted_rating r) = false ∧ stars r = x).

(** The star lookup of the matched element [el] completes. *)
Definition calm (el : node) : Prop := lookupStars el ≠ Throw.

(** Neither [e] nor any element below it is an SVG element. *)
Fixpoint svgFree (e : Element) : bool :=
  let 'mkElement _ _ i _ _ kids := e in
  match i with SVGElement => false | _ => true end
  && (fix all (kids : list Element) : bool :=
        match kids with
        | [] => true
        | k :: ks => svgFree k && all ks
        end) kids.

End Reference.

(** ** Sample data *)

Module Examples.
Import JS Dom Content Async Analysis EventLoop Reference.

Definition mkReview (s : Z) (w : value) : AnalyzedReview :=
  {| text := "A review of more than twenty characters"; stars := of_Z s;
     weighted_rating := w; credibility_label := "human";
     credibility_score := lit 0.9; is_sarcastic := false |}.

(** Stars 5, 5, 3, 1 with adjusted ratings 0.22, 4.84, 3.64, 1.32. *)
Definition fourReviews : list AnalyzedReview :=
  [mkReview 5 (Num (lit 0.22)); mkReview 5 (Num (lit 4.84));
   mkReview 3 (Num (lit 3.64)); mkReview 1 (Num (lit 1.32))].

(** One review of 5 stars with adjusted rating 4.2. *)
Definition oneReview : list AnalyzedReview := [mkReview 5 (Num (lit 4.2))].

(** An Amazon reviews page whose rating text reads "0 out of 5". *)
Definition zeroRatedPage : Document := {|
  documentElement :=
    mkElement "html" [] (HTMLElement "") "" ""
      [mkElement "body" [] (HTMLElement "") "" ""
         [mkElement "span" [("data-hook", "rating-out-of-text")]
            (HTMLElement "0 out of 5") "0 out of 5" "0 out of 5" []]];
  getSelection := None;
  hostname := "www.amazon.com";
  href := "https://www.amazon.com/product-reviews/B000000000"
|}.

(** A review of 5 stars for which the service reports the rating 0. *)
Definition zeroAdjusted : list AnalyzedReview := [mkReview 5 (Num (of_Z 0))].

(** A review of 5 stars analyzed from a reply without [adjusted_rating]. *)
Definition noAdjusted : list AnalyzedReview :=
  [analyzed {| Content.text := "A review of more than twenty characters";
               Content.stars := of_Z 5 |}
            {| adjusted_rating := Undefined; credibility := None; sarcasm := None |}].

(** A page on the site [host] with the given elements in its body and
    the given selection. *)
Definition page (host : string) (body : list Element) (selection : option string)
  : Document := {|
  documentElement :=
    mkElement "html" [] (HTMLElement "") "" ""
      [mkElement "body" [] (HTMLElement "") "" "" body];
  getSelection := selection;
  hostname := host;
  href := "https://" +:+ host +:+ "/item"
|}.

(** A review: a container with a rating attribute and the review text. *)
Definition reviewElement (rating body : string) : Element :=
  mkElement "div" [("data-hook", "review")] (HTMLElement body) body ""
    [mkElement "i" [("data-rating", rating)] (HTMLElement "") "" "" [];
     mkElement "span" [("data-hook", "review-body")] (HTMLElement body) body body []].






(** A page with one review whose whole text the user has selected. *)
Definition selectedReviewPage : Document :=
  page "shop.example"
    [reviewElement "4" "Terrible, it broke after two days of use"]
    (Some "Terrible, it broke after two days of use").

(** Ten candidates, and outcomes of their calls of which three fail:
    the transport for the second, a reply that is not a success for the
    fifth, a body that does not parse for the ninth. *)
Definition numbered (n : nat) : ReviewCandidate :=
  {| Content.text := "Review number " +:+ String (ascii_of_nat (48 + n)) EmptyString
                     +:+ " of this product";
     Content.stars := of_Z 4 |}.

Definition tenCandidates : list ReviewCandidate := numbered <$> seq 0 10.

Definition goodReply : Outcome :=
  Reply true (Some {| adjusted_rating := Num (lit 4.2);
                      credibility := Some {| classification := Some "human";
                                             score := Num (lit 0.9) |};
                      sarcasm := Some {| sarcastic := Some false |} |}).

Definition tenOutcomes : list Outcome :=
  [goodReply; TransportFailure; goodReply; goodReply; Reply false None;
   goodReply; goodReply; goodReply; Reply true None; goodReply].

(** A page with two reviews, A and B. *)
Definition reviewA : string := "Absolutely wonderful product, would buy again".
Definition reviewB : string := "Terrible, it broke after two days of use".
Definition twoReviewsPage : Document :=
  page "shop.example" [reviewElement "5" reviewA; reviewElement "1" reviewB] None.

Definition goodData : Data :=
  {| adjusted_rating := Num (lit 4.2);
     credibility := Some {| classification := Some "human"; score := Num (lit 0.9) |};
     sarcasm := Some {| sarcastic := Some false |} |}.

(** The overlay of the bookmarklet while it shows the analysis of one
    review: it is part of the page, and its sample card carries the text
    of the review. *)
Definition overlayShowing (text : string) : Element :=
  mkElement "div" [("id", "truth-gap-overlay")] (HTMLElement text) text ""
    [mkElement "div" [("class", "tg-content")] (HTMLElement text) text ""
       [mkElement "div" [("class", "tg-reviews")] (HTMLElement text) text ""
          [mkElement "div" [("class", "tg-review genuine")] (HTMLElement text) text ""
             [mkElement "div" [("class", "tg-review-text")]
                (HTMLElement text) text text []]]]].

(** The page with A and B once the overlay shows the analysis of B. *)
Definition twoReviewsShown : Document :=
  page "shop.example"
    [reviewElement "5" reviewA; reviewElement "1" reviewB; overlayShowing reviewB] None.

(** The first analysis: the call for A fails, B is analyzed. *)
Definition firstAnalysis : list Bookmarklet.Event :=
  [Bookmarklet.Settle 0 Rejected;
   Bookmarklet.Settle 0 (Responded {| ok := true |});
   Bookmarklet.Settle 0 (Parsed goodData)].



(** The response of the content script on the page with A and B. *)
Definition twoReviewsMessage : Message := {|
  reviews :=
    [{| Content.text := reviewA; Content.stars := of_Z 5 |};
     {| Content.text := reviewB; Content.stars := of_Z 1 |}];
  pageInfo := plainPage "unknown" "unknown"
|}.


End Examples.



(** ** Further notions used in the statements *)

Module Laws.
Import JS Dom Content Async Analysis.

(** The text for which visiting the matched element [el] considers a
    candidate: its inner text, trimmed, when that has more than 20 and
    fewer than 5000 characters. *)
Definition acceptedText (el : node) : option string :=
  t ← trim <$> innerText (self el);
  if acceptable t then Some t else None.

(** The first occurrence of each text of [l], in the order of [l]. *)
Fixpoint firsts (l : list string) : list string :=
  match l with
  | [] => []
  | t :: rest => t :: filter (fun u => u ≠ t) (firsts rest)
  end.

(** The candidate that the selection contributes, if any. *)
Definition selected (d : Document) : list string :=
  match trim <$> getSelection d with
  | Some selection => if (20 <? String.length selection)%nat then [selection] else []
  | None => []
  end.

(** A string that does not begin with white space. *)
Definition headOk (v : string) : Prop :=
  match v with String c _ => is_space c = false | EmptyString => True end.

(** The service reported no usable adjusted rating for [r]: none, null,
    zero or [NaN]. *)
Definition unrated (r : AnalyzedReview) : Prop :=
  value_truthy (weighted_rating r) = false.

(** A number that is neither [NaN] nor negative. *)
Definition nonnegative (x : number) : Prop :=
  x = Infinity false ∨ ∃ q, x = Fin q ∧ (0 <= q)%Q.

(** The star icon that the page description consults when it finds no
    rating text. *)
Definition starIcon (d : Document) : option node :=
  document_querySelector
    [[[Id "acrPopover"]; [Class "a-icon-star"]];
     [[Class "averageStarRating"]; [Class "a-icon-star"]]] d.

(** The rating that the page description reads from the rating texts. *)
Definition ratingFromTexts (d : Document) : option number :=
  first_of (map ratingFrom ratingSelectors) d.

End Laws.

(** ** Properties of a whole session *)

Module Session.
Import JS Dom Content Async Analysis EventLoop.

(** A candidate as the extraction produces them: a trimmed text of more
    than 20 characters and from 1 to 5 stars. *)
Definition wellFormed (text : string) (stars : number) : Prop :=
  trim text = text ∧ (20 < String.length text)%nat ∧ Reference.star_value stars.

Definition candidateOk (c : ReviewCandidate) : Prop :=
  wellFormed (Content.text c) (Content.stars c).

Definition requestOk (r : Request) : Prop := wellFormed (req_text r) (req_stars r).

(** An analyzed review has a label that is not empty and a score that
    is a number. *)
Definition labelled (r : AnalyzedReview) : Prop :=
  credibility_label r ≠ EmptyString ∧ isNaN (credibility_score r) = false.

(** An analyzed review: a well-formed candidate, labelled. *)
Definition analyzedOk (r : AnalyzedReview) : Prop :=
  wellFormed (text r) (stars r) ∧ labelled r.

(** A response of the content script is the response that it gives on
    some page. *)
Definition genuine (a : Answer) : Prop :=
  match a with
  | Delivered message => ∃ d, respond d = Normal message
  | _ => True
  end.

(** Every request that [m] sends, however it runs with promises that
    settle within [G], satisfies [R]. *)
Fixpoint fetches {S A : Type} (G : Answer → Prop) (R : Request → Prop) (m : Async S A)
  : Prop :=
  match m with
  | Ret _ => True
  | Get k => ∀ s, fetches G R (k s)
  | Put _ k => fetches G R k
  | Await p k =>
      match p with Fetch r => R r | _ => True end ∧ ∀ a, G a → fetches G R (k a)
  end.

(** No condition on how the promises settle. *)
Definition anyAnswer (a : Answer) : Prop := True.

Section Invariants.
Context {S L : Type}.

(** The requests sent so far satisfy [R], and so will those that the
    calls in flight send. *)
Definition Sends (G : Answer → Prop) (R : Request → Prop) (sys : System S L) : Prop :=
  Forall R (sent sys)
  ∧ Forall (fun t => ∀ a, G a → fetches G R (resume t a)) (tasks sys).

(** A stretch of code keeps [I] when [I] holds at its end if it held at
    its start. *)
Definition keeps (I : S → Prop) (s0 s : S) : Prop := I s0 → I s.

(** Every stretch of [m] keeps [I]. *)
Definition preserves (I : S → Prop) (m : Async S unit) : Prop :=
  ∀ s, stretches (keeps I) (fun _ => keeps I) m s s.

(** [I] holds of the state, and every stretch of the calls in flight
    keeps it. *)
Definition Holds (I : S → Prop) (sys : System S L) : Prop :=
  I (state sys) ∧ Forall (fun t => ∀ a, preserves I (resume t a)) (tasks sys).

End Invariants.

(** In the session of the popup with the events [es], every response of
    the content script is genuine. *)
Definition genuineEvent (e : Popup.Event) : Prop :=
  match e with
  | Popup.Settle _ a => genuine a
  | _ => True
  end.

(** What the overlay of the bookmarklet shows agrees with the analyzed
    reviews held: the figures on display are those of [currentResults],
    and "no reviews" is shown only when there are none. *)
Definition overlayAgrees (st : Bookmarklet.State) : Prop :=
  match Bookmarklet.overlay st with
  | Bookmarklet.ResultsShown r =>
      Bookmarklet.currentResults st ≠ []
      ∧ Bookmarklet.truthGap r
        = Bookmarklet.calculateTruthGap (Bookmarklet.currentResults st)
      ∧ Bookmarklet.human r
        = Bookmarklet.count_label "human" (Bookmarklet.currentResults st)
      ∧ Bookmarklet.bot r
        = Bookmarklet.count_label "bot" (Bookmarklet.currentResults st)
      ∧ Bookmarklet.lowEffort r
        = Bookmarklet.count_label "low_effort" (Bookmarklet.currentResults st)
      ∧ Bookmarklet.analyzedCount r = length (Bookmarklet.currentResults st)
      ∧ Bookmarklet.sampleReviews r = take 5 (Bookmarklet.currentResults st)
  | Bookmarklet.NoReviewsFound => Bookmarklet.currentResults st = []
  | _ => True
  end.

Definition bookmarkletOk (st : Bookmarklet.State) : Prop :=
  Forall analyzedOk (Bookmarklet.currentResults st)
  ∧ Forall candidateOk (Bookmarklet.allExtractedReviews st)
  ∧ overlayAgrees st.

(** What the popup shows agrees with its variables: the report on
    display is that of [currentResults] and [pageInfo], and the Load More
    button is hidden whenever a report is shown. *)
Definition panelAgrees (st : Popup.State) : Prop :=
  ∀ r, Popup.panel st = Popup.ResultsShown r →
    r = Popup.renderResults (Popup.pageInfo st) (Popup.currentResults st)
    ∧ Popup.hidden (Popup.loadMoreBtn st) = true.

Definition popupOk (st : Popup.State) : Prop :=
  Forall labelled (Popup.currentResults st) ∧ panelAgrees st.

End Session.

(** ** Further sample data *)

Module Samples.
Import JS Dom Content Async Analysis EventLoop Reference Examples.

(** An Amazon product page that shows no review but links to the
    reviews page and announces 1,234 ratings. *)
Definition productPage : Document := {|
  documentElement :=
    mkElement "html" [] (HTMLElement "") "" ""
      [mkElement "body" [] (HTMLElement "") "" ""
         [mkElement "a" [("data-hook", "see-all-reviews-link-foot");
                         ("href", "https://www.amazon.com/product-reviews/B000000000")]
            (HTMLElement "See all reviews") "See all reviews" "See all reviews" [];
          mkElement "span" [("data-hook", "total-review-count")]
            (HTMLElement "1,234 global ratings") "1,234 global ratings"
            "1,234 global ratings" []]];
  getSelection := None;
  hostname := "www.amazon.com";
  href := "https://www.amazon.com/dp/B000000000"
|}.

(** The response of the content script on that page. *)
Definition productMessage : Message := {|
  reviews := [];
  pageInfo := {| site := "amazon"; type := "product"; hasMorePages := None;
                 reviewsUrl := Some "https://www.amazon.com/product-reviews/B000000000";
                 totalReviews := Some (of_Z 1234); displayedRating := Null |}
|}.

(** An Amazon reviews page without a rating text, whose star icon is an
    SVG element. *)
Definition svgRatedPage : Document := {|
  documentElement :=
    mkElement "html" [] (HTMLElement "") "" ""
      [mkElement "body" [] (HTMLElement "") "" ""
         [mkElement "div" [("id", "acrPopover")] (HTMLElement "") "" ""
            [mkElement "svg" [("class", "a-icon-star a-star-4-5")] SVGElement "" "" []]]];
  getSelection := None;
  hostname := "www.amazon.com";
  href := "https://www.amazon.com/product-reviews/B000000000"
|}.

(** The bookmarklet before [run], on the page [d]. *)
Definition fresh (d : Document) : Bookmarklet.State := {|
  Bookmarklet.currentResults := [];
  Bookmarklet.allExtractedReviews := [];
  Bookmarklet.isLoadingMore := false;
  Bookmarklet.overlay := Bookmarklet.Extracting;
  Bookmarklet.document := d
|}.

(** The popup when it opens. *)
Definition popupFresh : Popup.State := state Popup.start.

(** Outcomes of two calls: the first fails, the second succeeds; and
    two calls that both fail. *)
Definition secondSucceeds : list Outcome := [TransportFailure; Reply true (Some goodData)].
Definition bothFail : list Outcome := [TransportFailure; Reply false None].

(** A click on Analyze on the page with the reviews A and B, the call
    for A failing and that for B succeeding. *)
Definition popupAnalysis : list Popup.Event :=
  [Popup.ClickAnalyze;
   Popup.Settle 0 Resolved; Popup.Settle 0 Rejected; Popup.Settle 0 Resolved;
   Popup.Settle 0 (Delivered twoReviewsMessage);
   Popup.Settle 0 Rejected;
   Popup.Settle 0 (Responded {| ok := true |}); Popup.Settle 0 (Parsed goodData)].

(** The bookmarklet and the popup once A and B are both analyzed. *)
Definition bothAnalyzed : list AnalyzedReview :=
  [analyzed {| Content.text := reviewA; Content.stars := of_Z 5 |} goodData;
   analyzed {| Content.text := reviewB; Content.stars := of_Z 1 |} goodData].

Definition doneState : Bookmarklet.State := {|
  Bookmarklet.currentResults := bothAnalyzed;
  Bookmarklet.allExtractedReviews :=
    [{| Content.text := reviewA; Content.stars := of_Z 5 |};
     {| Content.text := reviewB; Content.stars := of_Z 1 |}];
  Bookmarklet.isLoadingMore := false;
  Bookmarklet.overlay :=
    Bookmarklet.ResultsShown
      {| Bookmarklet.truthGap := Bookmarklet.calculateTruthGap bothAnalyzed;
         Bookmarklet.human := 2; Bookmarklet.bot := 0; Bookmarklet.lowEffort := 0;
         Bookmarklet.analyzedCount := 2;
         Bookmarklet.sampleReviews := bothAnalyzed;
         Bookmarklet.loadMoreBtn :=
           Some {| Bookmarklet.disabled := false;
                   Bookmarklet.label := Bookmarklet.LoadMoreReviews |} |};
  Bookmarklet.document := twoReviewsPage
|}.

Definition popupDone : Popup.State := {|
  Popup.currentResults := bothAnalyzed;
  Popup.pageInfo := Some (plainPage "unknown" "unknown");
  Popup.isLoading := false;
  Popup.panel := Popup.Initial;
  Popup.loadMoreBtn := {| Popup.disabled := false; Popup.hidden := true;
                          Popup.label := Popup.LoadMoreReviews |}
|}.

End Samples.

(** * Properties *)

Import JS Dom Content Async Analysis EventLoop Reference Examples.

(** ** Numbers *)

Lemma round64_not_NaN (q : Q) : isNaN (round64 q) = false.
Proof.
  unfold round64. destruct (Qnum q); [done| |]; by destruct (round64_pos _ _).
Qed.

(** [round64] agrees with the binary64 division of the Standard
    Library's [SpecFloat] on a sample of quotients: decimal fractions,
    halfway cases, the largest finite number and the overflow threshold,
    subnormal numbers and underflow to zero. *)
Lemma round64_agrees_with_SpecFloat :
  let quotients :=
    [(1, 10); (22, 100); (995, 1000); (2505, 1000); (-47, 10); (1, 3); (2, 3);
     (-1, 3); (10, 1); (9007199254740993, 1); (9007199254740995, 1);
     (9007199254740992, 1); (-9007199254740993, 1); (4503599627370497, 2);
     (4503599627370499, 2); (1, 9007199254740993); (7, 9007199254740995);
     (2 ^ 1024 - 2 ^ 971, 1); (2 ^ 1024 - 2 ^ 970, 1); (2 ^ 1024 - 2 ^ 970 - 1, 1);
     (2 ^ 1024, 1); (- 2 ^ 1024, 1); (10 ^ 400, 1); (1, 2 ^ 1074);
     (1, 2 ^ 1075); (3, 2 ^ 1075); (5, 2 ^ 1076); (1, 2 ^ 1076); (-3, 2 ^ 1076);
     (1, 10 ^ 400); (1, 2 ^ 1022); (2 ^ 53 - 1, 2 ^ 1075);
     (2 ^ 54 - 1, 2 ^ 1076); (123456789, 10 ^ 310)]%Z in
  (fun '(n, d) => round64 (n # Z.to_pos d)) <$> quotients
  = (fun '(n, d) => spec_quotient n (Z.to_pos d)) <$> quotients.
Proof. vm_compute. reflexivity. Qed.

Lemma Qred_inject_Z (z : Z) : Qred (inject_Z z) = inject_Z z.
Proof.
  unfold Qred, inject_Z.
  pose proof (Z.ggcd_gcd z 1) as Hg. pose proof (Z.ggcd_correct_divisors z 1) as Hd.
  destruct (Z.ggcd z 1) as (g, (aa, bb)). simpl in *.
  rewrite Z.gcd_1_r in Hg. subst g. destruct Hd as [Ha Hb].
  rewrite Z.mul_1_l in Ha, Hb. by subst.
Qed.

Lemma pow2_nonneg (k : Z) : (0 <= k)%Z → (pow2 k == inject_Z (2 ^ k))%Q.
Proof. intros Hk. unfold pow2. by rewrite Zpower_Qpower. Qed.

(** The integer nearest to [x] is within one half of [x]. *)
Lemma rne_nearest (x : Q) :
  (x - (1 # 2) <= inject_Z (rne x) <= x + (1 # 2))%Q.
Proof.
  unfold rne. pose proof (Qfloor_le x) as Hlo. pose proof (Qlt_floor x) as Hhi.
  rewrite inject_Z_plus in Hhi. change (inject_Z 1) with 1%Q in Hhi.
  destruct (x - inject_Z (Qfloor x) ?= 1 # 2)%Q eqn:E.
  - apply Qeq_alt in E. destruct (Z.even _); rewrite ?inject_Z_plus;
      change (inject_Z 1) with 1%Q; split; lra.
  - apply Qlt_alt in E. split; lra.
  - apply Qgt_alt in E. rewrite inject_Z_plus. change (inject_Z 1) with 1%Q. split; lra.
Qed.

(** [log2floor n d] is the binary exponent of [n/d]. *)
Lemma log2floor_spec (n d : positive) :
  (pow2 (log2floor n d) <= Zpos n # d < pow2 (log2floor n d + 1))%Q.
Proof.
  unfold log2floor.
  pose proof (Z.log2_spec (Zpos n) eq_refl) as [Hn1 Hn2].
  pose proof (Z.log2_spec (Zpos d) eq_refl) as [Hd1 Hd2].
  pose proof (Z.log2_nonneg (Zpos n)) as Hi. pose proof (Z.log2_nonneg (Zpos d)) as Hj.
  set (i := Z.log2 (Zpos n)) in *. set (j := Z.log2 (Zpos d)) in *.
  assert (0 < 2 ^ i)%Z as Hpi by (apply Z.pow_pos_nonneg; lia).
  assert (0 < 2 ^ j)%Z as Hpj by (apply Z.pow_pos_nonneg; lia).
  assert (∀ a b : Z, (0 <= a)%Z → (0 <= b)%Z →
            pow2 (a - b) == inject_Z (2 ^ a) / inject_Z (2 ^ b))%Q as Hdiv.
  { intros a b Ha Hb. unfold pow2. rewrite Qpower_minus by done.
    by rewrite <- !(Zpower_Qpower 2). }
  assert (∀ a b : Z, (0 < b)%Z → (inject_Z a / inject_Z b == a # Z.to_pos b)%Q) as Hfrac.
  { intros a b Hb. destruct b as [|b|b]; try lia.
    unfold Qdiv, Qinv, Qmult, Qeq. simpl. lia. }
  destruct (Qle_bool (pow2 (i - j)) (Zpos n # d)) eqn:E.
  - apply Qle_bool_iff in E. split; [exact E|].
    replace (i - j + 1)%Z with ((i + 1) - j)%Z by lia.
    rewrite Hdiv, Hfrac by lia. unfold Qlt. simpl.
    rewrite Z2Pos.id by lia. replace (Z.succ i) with (i + 1)%Z in Hn2 by lia. nia.
  - assert (¬ (pow2 (i - j) <= Zpos n # d)%Q) as Hnot.
    { intros H. apply Qle_bool_iff in H. congruence. }
    apply Qnot_le_lt in Hnot.
    replace (i - j - 1 + 1)%Z with (i - j)%Z by lia. split; [|exact Hnot].
    replace (i - j - 1)%Z with (i - (j + 1))%Z by lia.
    assert (0 < 2 ^ (j + 1))%Z as Hpj1 by (apply Z.pow_pos_nonneg; lia).
    rewrite Hdiv, Hfrac by lia. unfold Qle. simpl.
    rewrite Z2Pos.id by lia. replace (Z.succ j) with (j + 1)%Z in Hd2 by lia. nia.
Qed.

Lemma rne_inject_Z (x : Q) (w : Z) : (x == inject_Z w)%Q → rne x = w.
Proof.
  intros Hx. unfold rne. rewrite (Qfloor_comp _ _ Hx), Qfloor_Z.
  assert ((x - inject_Z w ?= 1 # 2)%Q = Lt) as ->; [|done].
  rewrite <- Qlt_alt, Hx. unfold Qminus. rewrite Qplus_opp_r. reflexivity.
Qed.

Lemma round64_pos_integer (n : positive) :
  (Zpos n < 2 ^ 53)%Z → round64_pos n 1 = Some (inject_Z (Zpos n)).
Proof.
  intros Hn. unfold round64_pos, log2floor.
  pose proof (Z.log2_spec (Zpos n) eq_refl) as [Hlo Hhi].
  pose proof (Z.log2_nonneg (Zpos n)) as Hk0.
  set (k := Z.log2 (Zpos n)) in *.
  assert (k <= 52)%Z as Hk.
  { apply Z.lt_succ_r. apply (Z.pow_lt_mono_r_iff 2); lia. }
  change (Z.log2 1) with 0%Z. rewrite Z.sub_0_r.
  assert (Qle_bool (pow2 k) (Zpos n # 1) = true) as ->.
  { apply Qle_bool_iff. rewrite pow2_nonneg by done.
    change (Zpos n # 1) with (inject_Z (Zpos n)). by rewrite <- Zle_Qle. }
  rewrite Z.max_l by lia.
  assert (pow2 (k - 52) == / inject_Z (2 ^ (52 - k)))%Q as Hulp.
  { replace (k - 52)%Z with (- (52 - k))%Z by lia.
    unfold pow2. rewrite Qpower_opp. apply Qinv_comp.
    symmetry. apply (Zpower_Qpower 2). lia. }
  assert (0 < 2 ^ (52 - k))%Z as Hpos by (apply Z.pow_pos_nonneg; lia).
  assert (¬ inject_Z (2 ^ (52 - k)) == 0)%Q as Hnz.
  { intros H. unfold Qeq in H. simpl in H. lia. }
  assert (rne ((Zpos n # 1) / pow2 (k - 52)) = (Zpos n * 2 ^ (52 - k))%Z) as ->.
  { apply rne_inject_Z. rewrite Hulp, inject_Z_mult.
    change (Zpos n # 1) with (inject_Z (Zpos n)). by field. }
  assert (inject_Z (Zpos n * 2 ^ (52 - k)) * pow2 (k - 52) == inject_Z (Zpos n))%Q as Hv.
  { rewrite Hulp, inject_Z_mult. by field. }
  assert (Qle_bool (pow2 1024) (inject_Z (Zpos n * 2 ^ (52 - k)) * pow2 (k - 52)) = false)
    as ->.
  { destruct (Qle_bool _ _) eqn:E; [|done].
    apply Qle_bool_iff in E. rewrite Hv, pow2_nonneg in E by done.
    rewrite <- Zle_Qle in E.
    assert (2 ^ 53 < 2 ^ 1024)%Z by (apply Z.pow_lt_mono_r; lia). lia. }
  f_equal. rewrite (Qred_complete _ _ Hv). apply Qred_inject_Z.
Qed.

(** An integer of magnitude below [2^53] is a binary64 number. *)
Lemma round64_integer (z : Z) :
  (Z.abs z < 2 ^ 53)%Z → round64 (inject_Z z) = of_Z z.
Proof.
  intros Hz. unfold round64, of_Z. destruct z as [|n|n]; simpl; [done| |].
  - by rewrite round64_pos_integer by lia.
  - rewrite round64_pos_integer by lia. f_equal.
    change (- inject_Z (Zpos n))%Q with (inject_Z (Zneg n)). apply Qred_inject_Z.
Qed.

(** Integers add exactly as long as the sum stays below [2^53]. *)
Lemma add_of_Z (a b : Z) :
  (Z.abs (a + b) < 2 ^ 53)%Z → add (of_Z a) (of_Z b) = of_Z (a + b).
Proof.
  intros H. unfold add, of_Z.
  change (inject_Z a + inject_Z b)%Q with ((a * 1 + b * 1)%Z # 1).
  rewrite !Z.mul_1_r. by apply round64_integer.
Qed.

Lemma Qeq_bool_of_nat_pos (n : nat) :
  (0 < n)%nat → Qeq_bool (inject_Z (Z.of_nat n)) 0 = false.
Proof.
  intros Hn. destruct (Qeq_bool _ _) eqn:E; [|done].
  apply Qeq_bool_eq in E. unfold Qeq in E. simpl in E. lia.
Qed.

(** [reduce] adds the numbers from the first to the last. *)
Lemma reduce_sum_sum64 (f : AnalyzedReview → number) (results : list AnalyzedReview) :
  reduce_sum f results = sum64 (f <$> results).
Proof.
  unfold reduce_sum, sum64. generalize (of_Z 0).
  induction results as [|r rs IH]; intros a; simpl; [done | apply IH].
Qed.

(** The mean computed by [reduce] and a division by the length. *)
Lemma mean_of_results (f : AnalyzedReview → number) (results : list AnalyzedReview) :
  div (reduce_sum f results) (of_nat (length results)) = mean64 (f <$> results).
Proof. unfold mean64. by rewrite reduce_sum_sum64, length_fmap. Qed.

Lemma sum64_integers_from (ks : list Z) (a : Z) :
  (0 <= a)%Z → Forall (Z.le 0) ks → (a + Zsum ks < 2 ^ 53)%Z →
  fold_left add (of_Z <$> ks) (of_Z a) = of_Z (a + Zsum ks).
Proof.
  revert a. induction ks as [|k ks IH]; intros a Ha Hks Hsum.
  { simpl. by rewrite Z.add_0_r. }
  apply Forall_cons in Hks as [Hk Hks].
  assert (0 <= Zsum ks)%Z as Hnn.
  { clear -Hks. induction Hks; simpl; lia. }
  change (Zsum (k :: ks)) with (k + Zsum ks)%Z in *.
  rewrite fmap_cons. cbn [fold_left].
  rewrite add_of_Z by lia. rewrite IH by (done || lia). f_equal. lia.
Qed.

(** The binary64 mean of non-negative integers whose sum is below
    [2^53] is their exact mean, rounded once. *)
Lemma mean64_integers (ks : list Z) :
  ks ≠ [] → Forall (Z.le 0) ks → (Zsum ks < 2 ^ 53)%Z →
  mean64 (of_Z <$> ks) = round64 (Zmean ks).
Proof.
  intros Hne Hks Hsum. unfold mean64, sum64.
  rewrite sum64_integers_from by (done || lia). rewrite Z.add_0_l, length_fmap.
  unfold div, of_nat, of_Z.
  rewrite Qeq_bool_of_nat_pos by (destruct ks; [done | simpl; lia]). done.
Qed.

Lemma length_zero_false {A} (l : list A) : l ≠ [] → (length l =? 0)%nat = false.
Proof. destruct l; [done|]. intros _. reflexivity. Qed.

(** ** Rounding and clamping *)

Lemma Math_round_of_Z (k : Z) : Math_round (of_Z k) = of_Z k.
Proof.
  unfold Math_round, of_Z. f_equal. f_equal.
  unfold Qfloor, Qplus, inject_Z. simpl.
  symmetry. apply (Z.div_unique_pos _ _ _ 1); lia.
Qed.

Lemma Math_round_rounded (x : number) : isNaN x = false → rounded_value (Math_round x).
Proof.
  destruct x as [|s|q]; [done| |]; intros _.
  - right. by exists s.
  - left. by eexists.
Qed.

Lemma lt_of_Z (a b : Z) : lt (of_Z a) (of_Z b) = bool_decide (a < b)%Z.
Proof.
  unfold lt, of_Z, Qcompare, inject_Z. simpl. rewrite !Z.mul_1_r.
  case_bool_decide as H.
  - unfold Z.lt in H. by rewrite H.
  - by destruct (a ?= b)%Z eqn:E.
Qed.

(** [Math.min(5, Math.max(1, Math.round(x)))] of a rounded value is an
    integer from 1 to 5. *)
Lemma clamp_star_value (x : number) :
  rounded_value x →
  star_value (Math_min (of_Z 5) (Math_max (of_Z 1) (Math_round x))).
Proof.
  intros [[k ->] | [s ->]].
  - rewrite Math_round_of_Z.
    change (Math_max (of_Z 1) (of_Z k)) with (if lt (of_Z 1) (of_Z k) then of_Z k else of_Z 1).
    rewrite lt_of_Z. case_bool_decide.
    + change (Math_min (of_Z 5) (of_Z k)) with (if lt (of_Z k) (of_Z 5) then of_Z k else of_Z 5).
      rewrite lt_of_Z. case_bool_decide; eexists; (split; [reflexivity | lia]).
    + exists 1%Z. split; [reflexivity | lia].
  - destruct s.
    + exists 1%Z. split; [reflexivity | lia].
    + exists 5%Z. split; [reflexivity | lia].
Qed.

Lemma match_a_star_digit (s d : string) :
  match_a_star s = Some d → ∃ c, d = String c EmptyString ∧ is_digit c = true.
Proof.
  induction s as [|a s IH]; [done|].
  cbn [match_a_star]. 
  destruct (startsWith "a-star-" (String a s)); [|exact IH].
  destruct (drop_chars 7 (String a s)) as [|c r]; [exact IH|].
  destruct (is_digit c) eqn:Hc; [|exact IH].
  intros [= <-]. eauto.
Qed.

Lemma parseInt_digit (c : ascii) :
  is_digit c = true → parseInt (String c EmptyString) = of_Z (digit_value c).
Proof.
  destruct c as [[] [] [] [] [] [] [] []]; intros H; try discriminate H;
    vm_compute; reflexivity.
Qed.

(** ** The star rating resolver *)

Lemma first_of_Some {A B : Type} (fs : list (A → option B)) (a : A) (b : B) :
  first_of fs a = Some b → ∃ f, f ∈ fs ∧ f a = Some b.
Proof.
  induction fs as [|f fs IH]; [done|]. simpl.
  destruct (f a) eqn:E.
  - intros [= <-]. exists f. split; [left | done].
  - intros H. destruct (IH H) as (g & Hg & Hgb). exists g. split; [by right | done].
Qed.

Lemma first_returning_Some {A B : Type} (fs : list (A → Completion (option B)))
    (a : A) (b : B) :
  first_returning fs a = Normal (Some b) → ∃ f, f ∈ fs ∧ f a = Normal (Some b).
Proof.
  induction fs as [|f fs IH]; [done|]. simpl.
  destruct (f a) as [[b'|]|] eqn:E; [| |done].
  - intros [= <-]. exists f. split; [left | done].
  - intros H. destruct (IH H) as (g & Hg & Hgb). exists g. split; [by right | done].
Qed.

Lemma rounded_is_rounded (m : decimal) : rounded_value (rounded m).
Proof. apply Math_round_rounded, round64_not_NaN. Qed.

Lemma class_digit_rounded (cls d : string) :
  match_a_star cls = Some d → rounded_value (parseInt d).
Proof.
  intros H. destruct (match_a_star_digit _ _ H) as (c & -> & Hc).
  rewrite (parseInt_digit c Hc). left. by eexists.
Qed.

Lemma starsFromAmazonHook_rounded (parent : node) (x : number) :
  starsFromAmazonHook parent = Normal (Some x) → rounded_value x.
Proof.
  unfold starsFromAmazonHook.
  destruct (querySelector sel_amazon_star parent) as [el|]; [|done].
  destruct (className (self el)) as [cls|]; simpl; [|done].
  destruct (match_a_star cls) as [d|] eqn:Hd.
  { intros [= <-]. by eapply class_digit_rounded. }
  destruct (match_decimal (altText el)) as [m|].
  { intros [= <-]. apply rounded_is_rounded. }
  destruct (match_decimal _) as [m|]; simpl; [|done].
  intros [= <-]. apply rounded_is_rounded.
Qed.

Lemma starsFromIcon_rounded (parent : node) (x : number) :
  starsFromIcon parent = Normal (Some x) → rounded_value x.
Proof.
  unfold starsFromIcon.
  destruct (querySelector sel_icon_star parent) as [el|]; [|done].
  destruct (className (self el)) as [cls|]; simpl; [|done].
  destruct (match_a_star cls) as [d|] eqn:Hd.
  { intros [= <-]. by eapply class_digit_rounded. }
  destruct (match_decimal _) as [m|]; simpl; [|done].
  intros [= <-]. apply rounded_is_rounded.
Qed.

Lemma starsFromDataRating_rounded (parent : node) (x : number) :
  starsFromDataRating parent = Some x → rounded_value x.
Proof.
  unfold starsFromDataRating.
  destruct (querySelector sel_data_rating parent) as [el|]; simpl; [|done].
  destruct (isNaN _) eqn:E; simpl; [done|].
  intros [= <-]. by apply Math_round_rounded.
Qed.

Lemma starsFromAria_rounded (parent : node) (x : number) :
  starsFromAria parent = Some x → rounded_value x.
Proof.
  unfold starsFromAria.
  destruct (querySelector sel_aria parent) as [el|]; simpl; [|done].
  destruct (match_decimal _) as [m|]; simpl; [|done].
  intros [= <-]. apply rounded_is_rounded.
Qed.

Lemma starsFromText_rounded (parent : node) (x : number) :
  starsFromText parent = Some x → rounded_value x.
Proof.
  unfold starsFromText.
  destruct (match_out_of_5 _) as [m|]; simpl; [|done].
  intros [= <-]. apply rounded_is_rounded.
Qed.

Lemma starsFromFilled_bounds (parent : node) (x : number) :
  starsFromFilled parent = Some x → ∃ n : nat, x = of_nat n ∧ (1 <= n <= 5)%nat.
Proof.
  unfold starsFromFilled.
  destruct (_ && _) eqn:E; [|done].
  intros [= <-]. eexists. split; [done|].
  apply andb_prop in E as [H1 H2].
  apply Nat.ltb_lt in H1. apply Nat.leb_le in H2. lia.
Qed.

(** Whatever step produced it, the result of the resolver is rounded. *)
Lemma extractStarRating_rounded (parent : node) (x : number) :
  extractStarRating parent = Normal (Some x) → rounded_value x.
Proof.
  intros H. apply first_returning_Some in H as (f & Hf & Hfx).
  repeat (apply elem_of_cons in Hf as [-> | Hf]);
    eauto using starsFromAmazonHook_rounded, starsFromIcon_rounded.
  - assert (first_of [starsFromDataRating; starsFromAria; starsFromText;
                      starsFromFilled] parent = Some x) as Hx by congruence.
    apply first_of_Some in Hx as (g & Hg & Hgx).
    repeat (apply elem_of_cons in Hg as [-> | Hg]);
      eauto using starsFromDataRating_rounded, starsFromAria_rounded,
        starsFromText_rounded.
    + apply starsFromFilled_bounds in Hgx as (n & -> & _). left. by eexists.
    + by apply elem_of_nil in Hg.
  - by apply elem_of_nil in Hf.
Qed.




(** ** Extraction *)

Lemma acceptable_iff (t : string) :
  acceptable t = true ↔ (20 < String.length t < 5000)%nat.
Proof.
  unfold acceptable. rewrite !andb_true_iff, !Nat.ltb_lt, negb_true_iff.
  split; [by intros [[_ ?] ?]|]. intros [H1 H2]. repeat split; try done.
  destruct t; [simpl in H1; lia | done].
Qed.

Lemma existsb_text (reviews : list ReviewCandidate) (t : string) :
  existsb (fun r => String.eqb (Content.text r) t) reviews = true
  ↔ t ∈ (Content.text <$> reviews).
Proof.
  rewrite existsb_exists, list_elem_of_fmap. split.
  - intros (r & Hr & Heq). apply String.eqb_eq in Heq.
    exists r. split; [done|]. by apply list_elem_of_In.
  - intros (r & -> & Hr). exists r. split; [by apply list_elem_of_In|].
    apply String.eqb_refl.
Qed.

Lemma accepted_unique (el : node) (t t' : string) :
  accepted el t → accepted el t' → t = t'.
Proof. intros (raw & Hraw & -> & _) (raw' & Hraw' & -> & _). congruence. Qed.

Lemma lookupStars_rounded (el : node) (x : number) :
  lookupStars el = Normal (Some x) → rounded_value x.
Proof.
  unfold lookupStars. destruct (reviewContainer el) as [c|]; [|done].
  apply extractStarRating_rounded.
Qed.

(** What visiting one matched element does: nothing, when the element
    has no acceptable text or its text is there already; otherwise the
    star lookup is made, and the visit throws if the lookup does, and
    pushes a candidate if it does not. *)
Lemma visit_spec (reviews : list ReviewCandidate) (el : node) :
  (visit reviews el = Normal reviews
   ∧ ∀ t, accepted el t → t ∈ (Content.text <$> reviews))
  ∨ (∃ t, accepted el t ∧ (t ∉ (Content.text <$> reviews))
          ∧ ((lookupStars el = Throw ∧ visit reviews el = Throw)
             ∨ (calm el
                ∧ ∃ s, star_value s
                       ∧ visit reviews el
                         = Normal (reviews ++ [{| Content.text := t;
                                                  Content.stars := s |}])))).
Proof.
  unfold visit, accepted, calm.
  destruct (innerText (self el)) as [raw|] eqn:Hraw; simpl.
  2: { left. split; [done|]. by intros t (? & ? & _). }
  destruct (acceptable (trim raw)) eqn:Hacc.
  2: { left. split; [done|]. intros t (? & [= <-] & -> & Hlen).
       apply acceptable_iff in Hlen. congruence. }
  apply acceptable_iff in Hacc.
  destruct (existsb _ reviews) eqn:Hdup; simpl.
  { left. split; [done|]. intros t (? & [= <-] & -> & _).
    by apply existsb_text. }
  right. exists (trim raw). split; [eauto|]. split.
  { rewrite <- existsb_text. congruence. }
  destruct (lookupStars el) as [[x|]|] eqn:Hx; simpl.
  - right. split; [done|]. eexists. split; [|reflexivity].
    by apply clamp_star_value, (lookupStars_rounded el).
  - right. split; [done|]. eexists. split; [|reflexivity].
    exists 3%Z. split; [reflexivity | lia].
  - by left.
Qed.

(** *** Pages without SVG elements *)

Lemma Element_children_ind (P : Element → Prop) :
  (∀ e, Forall P (children e) → P e) → ∀ e, P e.
Proof.
  intros H. fix IH 1. intros [t a i tc ih kids]. apply H. simpl.
  induction kids as [|k kids IHk]; constructor; [apply IH | exact IHk].
Qed.

Lemma descendants_children (ancs : list Element) (e : Element) :
  descendants ancs e
  = concat ((fun k => Node k (e :: ancs) :: descendants (e :: ancs) k) <$> children e).
Proof.
  destruct e as [t a i tc ih kids]. simpl.
  generalize (mkElement t a i tc ih kids :: ancs). intros up.
  induction kids as [|k kids IH]; [done|]. simpl. by rewrite IH.
Qed.

Lemma svgFree_unfold (e : Element) :
  svgFree e = true
  ↔ interface e ≠ SVGElement ∧ Forall (fun k => svgFree k = true) (children e).
Proof.
  destruct e as [t a i tc ih kids]. simpl. rewrite andb_true_iff.
  assert ((fix all (kids : list Element) : bool :=
             match kids with
             | [] => true
             | k :: ks => svgFree k && all ks
             end) kids = true
          ↔ Forall (fun k => svgFree k = true) kids) as ->.
  { induction kids as [|k kids IH]; [by split|].
    rewrite andb_true_iff, IH, Forall_cons. done. }
  destruct i; simpl; intuition (discriminate || congruence).
Qed.

(** Below an element without SVG elements, every node and every
    ancestor that it has inside the element is free of them. *)
Lemma svgFree_descendants (e : Element) :
  svgFree e = true →
  ∀ ancs n, n ∈ descendants ancs e →
    Forall (fun a => svgFree a = true) ancs →
    Forall (fun a => svgFree a = true) (self n :: ancestors n).
Proof.
  induction e as [e IH] using Element_children_ind. intros He ancs n.
  rewrite descendants_children.
  intros Hn Hancs. apply list_elem_of_In, in_concat in Hn as (l & Hl & Hn).
  apply list_elem_of_In, list_elem_of_fmap in Hl as (k & -> & Hk).
  apply list_elem_of_In in Hn.
  pose proof (proj1 (svgFree_unfold e) He) as [_ Hkids].
  rewrite Forall_forall in Hkids, IH.
  apply elem_of_cons in Hn as [-> | Hn].
  - simpl. apply List.Forall_cons; [by apply Hkids|]. by apply List.Forall_cons.
  - apply (IH k Hk (Hkids k Hk) (e :: ancs) n Hn). by apply List.Forall_cons.
Qed.

Lemma closest_from_self (sel : selector) (e : Element) (ancs : list Element) (c : node) :
  closest_from sel e ancs = Some c → self c ∈ e :: ancs.
Proof.
  revert e. induction ancs as [|p up IH]; intros e; simpl.
  - destruct (matches sel _); [|done]. intros [= <-]. by left.
  - destruct (matches sel _).
    + intros [= <-]. by left.
    + intros H. right. by apply IH.
Qed.

Lemma parentElement_self (n p : node) :
  parentElement n = Some p →
  self p ∈ ancestors n ∧ ∀ a, a ∈ ancestors p → a ∈ ancestors n.
Proof.
  unfold parentElement. destruct n as [e [|a up]]; [done|]. simpl.
  intros [= <-]. split; [by left|]. intros b Hb. by right.
Qed.

(** The container of an element is the element or one of its ancestors. *)
Lemma reviewContainer_self (el c : node) :
  reviewContainer el = Some c → self c ∈ self el :: ancestors el.
Proof.
  unfold reviewContainer, closest.
  destruct (closest_from [[[AttrEq "data-hook" "review"]]] _ _) as [c1|] eqn:H1.
  { intros [= <-]. by eapply closest_from_self. }
  destruct (closest_from [[[AttrContains "class" "review"]]] _ _) as [c2|] eqn:H2.
  { intros [= <-]. by eapply closest_from_self. }
  destruct (closest_from [[[AttrContains "class" "Review"]]] _ _) as [c3|] eqn:H3.
  { intros [= <-]. by eapply closest_from_self. }
  intros H. apply bind_Some in H as (p & Hp & H).
  apply bind_Some in H as (g & Hg & H).
  apply parentElement_self in Hp as [Hp Hpa], Hg as [Hg Hga], H as [H _].
  right. auto.
Qed.

(** Every node below an element without SVG elements is free of them. *)
Lemma svgFree_below (e : Element) :
  svgFree e = true → ∀ ancs n, n ∈ descendants ancs e → svgFree (self n) = true.
Proof.
  induction e as [e IH] using Element_children_ind. intros He ancs n.
  rewrite descendants_children. intros Hn.
  apply list_elem_of_In, in_concat in Hn as (l & Hl & Hn).
  apply list_elem_of_In, list_elem_of_fmap in Hl as (k & -> & Hk).
  apply list_elem_of_In in Hn.
  pose proof (proj1 (svgFree_unfold e) He) as [_ Hkids].
  rewrite Forall_forall in Hkids, IH.
  apply elem_of_cons in Hn as [-> | Hn]; [by apply Hkids|].
  by apply (IH k Hk (Hkids k Hk) (e :: ancs)).
Qed.

(** An element found below a node without SVG elements has a class name
    that is a string. *)
Lemma querySelector_className (sel : selector) (c found : node) :
  svgFree (self c) = true → querySelector sel c = Some found →
  ∃ cls, className (self found) = Some cls.
Proof.
  intros Hc Hq. unfold querySelector, querySelectorAll in Hq.
  apply head_Some_elem_of, list_elem_of_In, filter_In in Hq as [Hq _].
  apply list_elem_of_In, (svgFree_below _ Hc), svgFree_unfold in Hq as [Hi _].
  unfold className. destruct (interface (self found)); by eauto.
Qed.

Lemma extractStarRating_completes (c : node) :
  svgFree (self c) = true → extractStarRating c ≠ Throw.
Proof.
  intros Hc. unfold extractStarRating. cbn [first_returning].
  assert (starsFromAmazonHook c ≠ Throw) as H1.
  { unfold starsFromAmazonHook.
    destruct (querySelector sel_amazon_star c) as [el|] eqn:Hq; [|done].
    by destruct (querySelector_className _ _ _ Hc Hq) as (cls & ->). }
  assert (starsFromIcon c ≠ Throw) as H2.
  { unfold starsFromIcon.
    destruct (querySelector sel_icon_star c) as [el|] eqn:Hq; [|done].
    by destruct (querySelector_className _ _ _ Hc Hq) as (cls & ->). }
  destruct (starsFromAmazonHook c) as [[x|]|]; [done| |done].
  destruct (starsFromIcon c) as [[x|]|]; [done| |done].
  by destruct (first_of _ c).
Qed.

(** On a page without SVG elements no star lookup throws. *)
Lemma svgFree_calm (d : Document) :
  svgFree (documentElement d) = true → Forall calm (matched d).
Proof.
  intros Hd. apply Forall_forall. intros el Hel.
  apply list_elem_of_In, in_concat in Hel as (l & Hl & Hel).
  apply list_elem_of_In, list_elem_of_fmap in Hl as (sel & -> & _).
  unfold document_querySelectorAll in Hel. apply filter_In in Hel as [Hel _].
  apply list_elem_of_In in Hel.
  assert (Forall (fun a => svgFree a = true) (self el :: ancestors el)) as Hfree.
  { apply elem_of_cons in Hel as [-> | Hel].
    - simpl. by apply Forall_singleton.
    - by apply (svgFree_descendants _ Hd [] el Hel). }
  unfold calm, lookupStars.
  destruct (reviewContainer el) as [c|] eqn:Hc; [|done].
  apply extractStarRating_completes.
  rewrite Forall_forall in Hfree. by apply Hfree, reviewContainer_self.
Qed.

(** The candidates after the loop over the elements of one selector. *)
Lemma forEach_spec (els : list node) (reviews : list ReviewCandidate) :
  let reviews' := forEach els reviews in
  (Forall (fun r => star_value (Content.stars r)) reviews →
   Forall (fun r => star_value (Content.stars r)) reviews')
  ∧ (NoDup (Content.text <$> reviews) → NoDup (Content.text <$> reviews'))
  ∧ (∀ t, t ∈ (Content.text <$> reviews) → t ∈ (Content.text <$> reviews'))
  ∧ (∀ t, t ∈ (Content.text <$> reviews') →
          t ∈ (Content.text <$> reviews) ∨ ∃ el, el ∈ els ∧ accepted el t ∧ calm el)
  ∧ (∀ before el after t,
       els = before ++ el :: after → Forall calm before → calm el → accepted el t →
       t ∈ (Content.text <$> reviews')).
Proof.
  revert reviews. induction els as [|e els IH]; intros reviews; cbn zeta.
  { split; [done|]. split; [done|]. split; [done|]. split; [by left|].
    intros [|??] ???; discriminate. }
  cbn [forEach].
  destruct (visit_spec reviews e)
    as [[Heq Hin] | (t0 & Hacc & Hnew & [[Hthrow Heq] | (Hcalm & s & Hs & Heq)])];
    rewrite Heq.
  - (* nothing is pushed *)
    destruct (IH reviews) as (IHs & IHd & IHm & IHc & IHe).
    split; [done|]. split; [done|]. split; [done|]. split.
    { intros t Ht. destruct (IHc t Ht) as [?|(el & Hel & ?)]; [by left|].
      right. exists el. split; [by right | done]. }
    intros [|b before] el after t Hels Hbefore Hel Ht; simplify_eq/=.
    + by apply IHm, Hin.
    + apply Forall_cons in Hbefore as [_ Hbefore]. by eapply IHe.
  - (* the star lookup throws *)
    split; [done|]. split; [done|]. split; [done|]. split; [by left|].
    intros [|b before] el after t Hels Hbefore Hel Ht; simplify_eq/=.
    + by destruct Hel.
    + apply Forall_cons in Hbefore as [Hb _]. by destruct Hb.
  - (* a candidate is pushed *)
    destruct (IH (reviews ++ [{| Content.text := t0; Content.stars := s |}]))
      as (IHs & IHd & IHm & IHc & IHe).
    split.
    { intros H. apply IHs, Forall_app. split; [done|]. by apply Forall_singleton. }
    split.
    { intros H. apply IHd. rewrite fmap_app. apply NoDup_app.
      split; [done|]. split; [|apply NoDup_singleton].
      intros t Ht Ht'. apply list_elem_of_singleton in Ht'. simpl in Ht'. by subst. }
    split.
    { intros t Ht. apply IHm. rewrite fmap_app, elem_of_app. by left. }
    split.
    { intros t Ht. destruct (IHc t Ht) as [Hold | (el & Hel & ?)].
      - rewrite fmap_app, elem_of_app in Hold. destruct Hold as [? | Hold]; [by left|].
        apply list_elem_of_singleton in Hold. simpl in Hold. subst t.
        right. exists e. split; [by left | done].
      - right. exists el. split; [by right | done]. }
    intros [|b before] el after t Hels Hbefore Hel Ht; simplify_eq/=.
    + rewrite (accepted_unique _ _ _ Ht Hacc).
      apply IHm. rewrite fmap_app, elem_of_app. right. by left.
    + apply Forall_cons in Hbefore as [_ Hbefore]. by eapply IHe.
Qed.

(** The candidates after the loops of the selectors [sels] on [d]. *)
Lemma selectors_spec (d : Document) (sels : list selector)
    (reviews : list ReviewCandidate) :
  let reviews' :=
    fold_left (fun reviews selector => forEach (document_querySelectorAll selector d) reviews)
      sels reviews in
  (Forall (fun r => star_value (Content.stars r)) reviews →
   Forall (fun r => star_value (Content.stars r)) reviews')
  ∧ (NoDup (Content.text <$> reviews) → NoDup (Content.text <$> reviews'))
  ∧ (∀ t, t ∈ (Content.text <$> reviews) → t ∈ (Content.text <$> reviews'))
  ∧ (∀ t, t ∈ (Content.text <$> reviews') →
          t ∈ (Content.text <$> reviews)
          ∨ ∃ sel el, sel ∈ sels ∧ el ∈ document_querySelectorAll sel d
                      ∧ accepted el t ∧ calm el)
  ∧ (∀ sel before el after t,
       sel ∈ sels → document_querySelectorAll sel d = before ++ el :: after →
       Forall calm before → calm el → accepted el t →
       t ∈ (Content.text <$> reviews')).
Proof.
  revert reviews. induction sels as [|sel0 sels IH]; intros reviews; cbn zeta.
  { split; [done|]. split; [done|]. split; [done|]. split; [by left|].
    intros ????? Hsel. by apply elem_of_nil in Hsel. }
  cbn [fold_left].
  destruct (forEach_spec (document_querySelectorAll sel0 d) reviews)
    as (Hs & Hd & Hm & Hc & He).
  destruct (IH (forEach (document_querySelectorAll sel0 d) reviews))
    as (IHs & IHd & IHm & IHc & IHe).
  split; [by auto|]. split; [by auto|]. split; [by auto|]. split.
  - intros t Ht. destruct (IHc t Ht) as [Hold | (sel & el & Hsel & ?)].
    + destruct (Hc t Hold) as [? | (el & ? & ?)]; [by left|].
      right. exists sel0, el. split; [by left | done].
    + right. exists sel, el. split; [by right | done].
  - intros sel before el after t Hsel Hq Hbefore Hel Ht.
    apply elem_of_cons in Hsel as [-> | Hsel].
    + apply IHm. by eapply He.
    + by eapply IHe.
Qed.




(** The candidates collected from the matched elements have pairwise
    different texts. *)
Lemma collect_NoDup (d : Document) : NoDup (Content.text <$> collect d).
Proof.
  destruct (selectors_spec d selectors []) as (_ & H & _). apply H. constructor.
Qed.

(** C7, on the page where the user has selected the whole text of the
    one review: the list returned holds that text twice, once for the
    selection and once for the review. *)
Theorem selection_duplicates_a_review :
  extractReviews selectedReviewPage
  = [ {| Content.text := "Terrible, it broke after two days of use"; Content.stars := of_Z 3 |};
      {| Content.text := "Terrible, it broke after two days of use"; Content.stars := of_Z 4 |} ].
Proof. vm_compute. reflexivity. Qed.

(** C10: every candidate returned by the extraction has for stars an
    integer from 1 to 5, whatever the resolver produced. *)
Theorem extracted_stars_within_1_and_5 (d : Document) :
  Forall (fun c => star_value (Content.stars c)) (extractReviews d).
Proof.
  assert (Forall (fun c => star_value (Content.stars c)) (collect d)) as Hc.
  { destruct (selectors_spec d selectors []) as (H & _). apply H. constructor. }
  unfold extractReviews. apply Forall_take.
  destruct (trim <$> getSelection d) as [selection|]; [|done].
  destruct (_ && _); [|done].
  constructor; [|done]. exists 3%Z. split; [reflexivity | lia].
Qed.

(** A rating of 10 read by the resolver reaches the candidate as 5. *)
Lemma out_of_range_rating_is_clamped :
  extractReviews (page "shop.example" [reviewElement "10" reviewB] None)
  = [{| Content.text := reviewB; Content.stars := of_Z 5 |}].
Proof. vm_compute. reflexivity. Qed.

(** ** Analysis of a batch *)

Lemma successes_cons (review : ReviewCandidate) (batch : list ReviewCandidate)
    (o : Outcome) (outcomes : list Outcome) :
  successes (review :: batch) (o :: outcomes)
  = match success o with
    | Some data => analyzed review data :: successes batch outcomes
    | None => successes batch outcomes
    end.
Proof. unfold successes. simpl. by destruct (success o). Qed.

Lemma exec_analyzeEach {S B : Type} (f : list AnalyzedReview → Async S B)
    (batch : list ReviewCandidate) (outcomes : list Outcome)
    (results : list AnalyzedReview) (more : list Answer) (s : S) :
  length outcomes = length batch →
  exec (bind (analyzeEach batch results) f) (concat (answers <$> outcomes) ++ more) s
  = after (concat (zip_with awaits batch outcomes))
      (exec (f (results ++ successes batch outcomes)) more s).
Proof.
  revert outcomes results.
  induction batch as [|review batch IH]; intros [|o outcomes] results Hlen;
    try discriminate Hlen.
  - simpl. rewrite app_nil_r. by destruct (exec _ _ _).
  - injection Hlen as Hlen.
    rewrite successes_cons.
    destruct o as [|[] [data|]]; simpl; rewrite IH by done; unfold after; simpl;
      rewrite ?app_nil_r, <- ?app_assoc; reflexivity.
Qed.

Lemma exec_bind_ret {S A : Type} (m : Async S A) (answers : list Answer) (s : S) :
  exec (bind m Ret) answers s = exec m answers s.
Proof.
  revert answers s. induction m as [a|k IH|s' k IH|p k IH]; intros answers s; simpl;
    try done.
  destruct answers as [|a rest]; [done|]. destruct (admits p a); [|done].
  by rewrite IH.
Qed.

Lemma fetched_awaits (batch : list ReviewCandidate) (outcomes : list Outcome) :
  length outcomes = length batch →
  fetched (concat (zip_with awaits batch outcomes)) = request <$> batch.
Proof.
  revert outcomes. induction batch as [|review batch IH]; intros [|o outcomes] Hlen;
    try discriminate Hlen; [done|].
  injection Hlen as Hlen. simpl. unfold fetched in *.
  rewrite omap_app, IH by done. by destruct o as [|[] ?].
Qed.

Lemma successes_subsequence (batch : list ReviewCandidate) (outcomes : list Outcome) :
  candidate <$> successes batch outcomes
  = (List.filter (fun p => succeeded p.2) (zip batch outcomes)).*1.
Proof.
  revert outcomes. induction batch as [|[t s] batch IH]; intros [|o outcomes]; try done.
  rewrite successes_cons.
  destruct o as [|[] [data|]]; simpl; rewrite <- ?IH; try done.
Qed.

Lemma successes_count (batch : list ReviewCandidate) (outcomes : list Outcome) :
  length outcomes = length batch →
  (length (successes batch outcomes)
   + length (List.filter (fun o => negb (succeeded o)) outcomes) = length batch)%nat.
Proof.
  revert outcomes. induction batch as [|review batch IH]; intros [|o outcomes] Hlen;
    try discriminate Hlen; [done|].
  injection Hlen as Hlen. specialize (IH outcomes Hlen).
  rewrite successes_cons.
  destruct o as [|[] [data|]]; simpl; lia.
Qed.

(** C1: the analysis of a list of candidates, the calls of the first 20
    ending as [outcomes] say, returns the analyses of exactly those
    among the first min(20, length) candidates whose call succeeded, in
    their original order; each of these candidates is submitted once,
    in order, whatever the outcome of the calls before it, and
    the failed ones are the only ones missing. *)
Theorem analysis_keeps_the_successes_in_order {S : Type} (s : S)
    (reviews : list ReviewCandidate) (outcomes : list Outcome) :
  length outcomes = length (take 20 reviews) →
  let batch := take 20 reviews in
  let r := exec (analyzeReviews reviews) (concat (answers <$> outcomes)) s in
  result r = Some (successes batch outcomes)
  ∧ candidate <$> successes batch outcomes
    = (List.filter (fun p => succeeded p.2) (zip batch outcomes)).*1
  ∧ fetched (awaited r) = request <$> batch
  ∧ length batch = Nat.min 20 (length reviews)
  ∧ (length (successes batch outcomes)
     + length (List.filter (fun o => negb (succeeded o)) outcomes) = length batch)%nat
  ∧ final r = s.
Proof.
  intros Hlen batch r.
  assert (r = after (concat (zip_with awaits batch outcomes))
                {| final := s; result := Some (successes batch outcomes);
                   awaited := [] |}) as ->.
  { subst r. unfold analyzeReviews. fold batch.
    rewrite <- exec_bind_ret, <- (app_nil_r (concat _)).
    by rewrite (exec_analyzeEach Ret batch outcomes [] [] s Hlen). }
  split; [done|]. split; [apply successes_subsequence|].
  split; [cbn [after awaited]; rewrite app_nil_r; by apply fetched_awaits|].
  split; [apply length_take|]. split; [by apply successes_count | done].
Qed.

(** Ten candidates of which three calls fail: seven analyses, those of
    the other candidates in their order. *)
Lemma analysis_keeps_the_successes_in_order_witness :
  let r := exec (analyzeReviews tenCandidates) (concat (answers <$> tenOutcomes)) () in
  ∃ results,
    result r = Some results
    ∧ length results = 7%nat
    ∧ candidate <$> results = numbered <$> [0; 2; 3; 5; 6; 7; 9]%nat
    ∧ fetched (awaited r) = request <$> tenCandidates.
Proof.
  assert (length tenOutcomes = length (take 20 tenCandidates)) as Hlen by reflexivity.
  destruct (analysis_keeps_the_successes_in_order () tenCandidates tenOutcomes Hlen)
    as (Hr & Hsub & Hf & _).
  eexists. split; [exact Hr|]. split; [reflexivity|]. split; [|exact Hf].
  rewrite Hsub. reflexivity.
Defined.


(** ** The aggregate report *)

(** C3, as amended: for a non-empty list of analyzed reviews, the
    displayed rating of the popup's report is the displayed rating of
    the page when the page has one that is neither null nor zero (nor
    [NaN]); in every other case (no page description, field absent, null,
    or zero) it is the unweighted arithmetic mean of the stars, as
    binary64 arithmetic gives it; for stars that are non-negative
    integers, as those of every extracted candidate are, that is their
    exact mean rounded once. The page description of the bookmarklet
    never has a displayed rating, and its report always shows the mean of
    the stars. *)
Theorem displayed_rating_override (pageInfo : option PageInfo) (d : Document)
    (results : list AnalyzedReview) :
  results ≠ [] →
  let shown := avgDisplayed (Popup.truthGap (Popup.renderResults pageInfo results)) in
  let mean := mean64 (stars <$> results) in
  match displayedRating <$> pageInfo with
  | Some (Num x) => if truthy x then shown = x else shown = mean
  | _ => shown = mean
  end
  ∧ displayedRating (Bookmarklet.detectPageType d) = Undefined
  ∧ avgDisplayed (Bookmarklet.calculateTruthGap results) = mean
  ∧ ∀ ks : list Z,
      stars <$> results = of_Z <$> ks → Forall (Z.le 0) ks → (Zsum ks < 2 ^ 53)%Z →
      mean = round64 (Zmean ks).
Proof.
  intros Hne shown mean. subst shown mean.
  pose proof (mean_of_results stars results) as Hmean.
  split; [|split; [|split]].
  - unfold Popup.renderResults, Popup.calculateTruthGap. simpl.
    rewrite (length_zero_false _ Hne).
    destruct pageInfo as [info|]; simpl; [|done].
    unfold Popup.displayedRating_or_null.
    destruct (displayedRating info) as [| |x]; simpl; try done.
    destruct (truthy x) eqn:Hx; simpl; [by rewrite Hx | done].
  - unfold Bookmarklet.detectPageType, otherSites.
    by repeat (match goal with |- context [if ?c then _ else _] => destruct c end).
  - unfold Bookmarklet.calculateTruthGap. by rewrite (length_zero_false _ Hne).
  - intros ks Hstars Hks Hsum. rewrite Hstars. apply mean64_integers; [|done..].
    intros ->. by destruct results.
Qed.

(** C3's theorem at a concrete input: a page rated 4.7 and the four
    sample reviews; and no page description, where the report shows the
    mean 3.5 of the stars 5, 5, 3, 1. *)
Lemma displayed_rating_override_witness :
  avgDisplayed (Popup.truthGap
    (Popup.renderResults
       (Some {| site := "amazon"; type := "reviews"; hasMorePages := Some false;
                reviewsUrl := None; totalReviews := None;
                displayedRating := Num (lit 4.7) |})
       fourReviews)) = lit 4.7
  ∧ mean64 (stars <$> fourReviews) = round64 (Zmean [5; 5; 3; 1]%Z).
Proof.
  assert (fourReviews ≠ []) as Hne by done.
  pose proof (displayed_rating_override
                (Some {| site := "amazon"; type := "reviews"; hasMorePages := Some false;
                         reviewsUrl := None; totalReviews := None;
                         displayedRating := Num (lit 4.7) |})
                twoReviewsPage fourReviews Hne) as (Hshown & _ & _ & Hmean).
  split; [exact Hshown|].
  apply Hmean; [reflexivity | | reflexivity].
  repeat (apply List.Forall_cons; [lia|]). apply List.Forall_nil.
Defined.

(** C3 fails as stated: a page whose rating text reads "0 out of 5" has
    the displayed rating 0, present and not null, and yet the report of
    one 5-star review shows the mean of the stars, 5, and not 0. *)
Lemma zero_displayed_rating_is_not_used :
  ∃ info,
    detectPageType zeroRatedPage = Normal info
    ∧ displayedRating info = Num (of_Z 0)
    ∧ avgDisplayed (Popup.truthGap (Popup.renderResults (Some info) oneReview)) = of_Z 5.
Proof. eexists. repeat split; vm_compute; reflexivity. Qed.

Lemma contributes_weighted_or_stars (r : AnalyzedReview) (x : number) :
  contributes r x → weighted_or_stars r = x.
Proof.
  unfold contributes, weighted_or_stars.
  intros [[-> Hx] | [Hf ->]].
  - by rewrite Hx.
  - destruct (weighted_rating r) as [| |y]; try done.
    simpl in Hf. by rewrite Hf.
Qed.

Lemma contributions (results : list AnalyzedReview) (xs : list number) :
  Forall2 contributes results xs → weighted_or_stars <$> results = xs.
Proof.
  induction 1 as [|r x rs xs Hr _ IH]; [done|].
  by rewrite fmap_cons, (contributes_weighted_or_stars r x Hr), IH.
Qed.

Lemma gap_is_difference_popup results dr :
  let g := Popup.calculateTruthGap results dr in gap g = sub (avgDisplayed g) (avgTrue g).
Proof. unfold Popup.calculateTruthGap. by destruct (length results =? 0)%nat. Qed.

Lemma gap_is_difference_bookmarklet results :
  let g := Bookmarklet.calculateTruthGap results in gap g = sub (avgDisplayed g) (avgTrue g).
Proof. unfold Bookmarklet.calculateTruthGap. by destruct (length results =? 0)%nat. Qed.

(** C4, as amended: the truth gap is the displayed rating minus the
    true rating, and the true rating is the simple mean, over the
    analyzed reviews, of the adjusted rating, a review whose adjusted
    rating is missing or zero counting with its stars instead. For stars
    5, 5, 3, 1 with adjusted ratings 0.22, 4.84, 3.64, 1.32 and no
    displayed rating of the page, the report has displayed rating 3.5,
    true rating 2.505 and truth gap 0.9950000000000001, the binary64
    difference of the two. *)
Theorem truth_gap_is_displayed_minus_true (pageInfo : option PageInfo)
    (results : list AnalyzedReview) (xs : list number) :
  results ≠ [] →
  Forall2 contributes results xs →
  let p := Popup.truthGap (Popup.renderResults pageInfo results) in
  let b := Bookmarklet.calculateTruthGap results in
  gap p = sub (avgDisplayed p) (avgTrue p)
  ∧ gap b = sub (avgDisplayed b) (avgTrue b)
  ∧ avgTrue p = mean64 xs
  ∧ avgTrue b = mean64 xs
  ∧ Popup.truthGap (Popup.renderResults None fourReviews)
      = {| gap := lit 0.9950000000000001; avgDisplayed := lit 3.5; avgTrue := lit 2.505 |}
  ∧ Bookmarklet.calculateTruthGap fourReviews
      = {| gap := lit 0.9950000000000001; avgDisplayed := lit 3.5; avgTrue := lit 2.505 |}.
Proof.
  intros Hne Hxs p b. subst p b.
  split; [apply gap_is_difference_popup|].
  split; [apply gap_is_difference_bookmarklet|].
  pose proof (mean_of_results weighted_or_stars results) as Hmean.
  rewrite (contributions _ _ Hxs) in Hmean.
  split; [|split; [|split; vm_compute; reflexivity]].
  - unfold Popup.renderResults, Popup.calculateTruthGap. simpl.
    rewrite (length_zero_false _ Hne).
    by destruct (Popup.displayedRating_or_null pageInfo) as [| |[]]; simpl;
      try destruct (negb _).
  - unfold Bookmarklet.calculateTruthGap. by rewrite (length_zero_false _ Hne).
Qed.

(** The example of C4 is an instance of the theorem: its true rating is
    the binary64 mean of the four adjusted ratings. *)
Lemma truth_gap_is_displayed_minus_true_witness :
  let p := Popup.truthGap (Popup.renderResults None fourReviews) in
  avgTrue p = mean64 [lit 0.22; lit 4.84; lit 3.64; lit 1.32]
  ∧ gap p = sub (avgDisplayed p) (avgTrue p).
Proof.
  assert (fourReviews ≠ []) as Hne by done.
  assert (Forall2 contributes fourReviews [lit 0.22; lit 4.84; lit 3.64; lit 1.32]) as Hxs.
  { repeat (apply List.Forall2_cons; [left; split; vm_compute; reflexivity|]).
    apply List.Forall2_nil. }
  destruct (truth_gap_is_displayed_minus_true None _ _ Hne Hxs)
    as (Hgap & _ & Hm & _).
  split; assumption.
Defined.

(** C4 fails as stated: for one 5-star review whose adjusted rating is
    0, the mean of the adjusted ratings is 0, and yet the true rating of
    the report is 5; the same holds when the reply of the service has no
    adjusted rating at all. And the truth gap of the example is not
    0.995: it is the binary64 number next above it,
    0.9950000000000001. *)
Lemma zero_adjusted_rating_counts_as_stars :
  weighted_rating <$> zeroAdjusted = [Num (of_Z 0)]
  ∧ avgTrue (Popup.truthGap (Popup.renderResults None zeroAdjusted)) = of_Z 5
  ∧ avgTrue (Bookmarklet.calculateTruthGap zeroAdjusted) = of_Z 5
  ∧ weighted_rating <$> noAdjusted = [Undefined]
  ∧ avgTrue (Popup.truthGap (Popup.renderResults None noAdjusted)) = of_Z 5
  ∧ gap (Popup.truthGap (Popup.renderResults None fourReviews)) = lit 0.9950000000000001
  ∧ gap (Bookmarklet.calculateTruthGap fourReviews) = lit 0.9950000000000001
  ∧ lt (lit 0.995) (lit 0.9950000000000001) = true.
Proof. repeat split; vm_compute; reflexivity. Qed.

(** C8: on an empty list of analyzed reviews, whatever the page, the
    aggregation returns the zero state: true rating, displayed rating
    and truth gap 0, and the counts of human, bot, low-effort and all
    reviews 0. *)
Theorem empty_results_zero_state (pageInfo : option PageInfo) (displayedRating : value) :
  Popup.calculateTruthGap [] displayedRating
    = {| gap := of_Z 0; avgDisplayed := of_Z 0; avgTrue := of_Z 0 |}
  ∧ Bookmarklet.calculateTruthGap []
    = {| gap := of_Z 0; avgDisplayed := of_Z 0; avgTrue := of_Z 0 |}
  ∧ Popup.renderResults pageInfo []
    = {| Popup.truthGap := {| gap := of_Z 0; avgDisplayed := of_Z 0; avgTrue := of_Z 0 |};
         Popup.human := 0; Popup.bot := 0; Popup.lowEffort := 0; Popup.total := 0;
         Popup.sampleReviews := [] |}.
Proof. repeat split. Qed.

(** ** Load-more passes *)

Import Bookmarklet.

#[local] Opaque extractReviews Bookmarklet.detectPageType Bookmarklet.calculateTruthGap
  Content.detectPageType Popup.renderResults.


Lemma exec_bind_assoc {S A B C : Type} (m : Async S A) (f : A → Async S B)
    (g : B → Async S C) (answers : list Answer) (s : S) :
  exec (bind (bind m f) g) answers s = exec (bind m (fun a => bind (f a) g)) answers s.
Proof.
  revert answers s. induction m as [a|k IH|s' k IH|p k IH]; intros answers s; simpl;
    try done.
  destruct answers as [|a rest]; [done|]. destruct (admits p a); [|done].
  by rewrite IH.
Qed.


Lemma set_button_fields (b : Button) (st : State) :
  currentResults (set_button b st) = currentResults st
  ∧ allExtractedReviews (set_button b st) = allExtractedReviews st
  ∧ isLoadingMore (set_button b st) = isLoadingMore st
  ∧ document (set_button b st) = document st.
Proof.
  unfold set_button. destruct (overlay st) as [| | | |r]; try done.
  by destruct (loadMoreBtn r).
Qed.

Lemma additionalReviews_ext (st st' : State) (l : list ReviewCandidate) :
  currentResults st = currentResults st' → additionalReviews st l = additionalReviews st' l.
Proof. unfold additionalReviews, existingTexts. by intros ->. Qed.







(** The response of the content script carries what [extractReviews]
    returns on the page. *)
Lemma respond_reviews (page : Document) (message : Message) :
  respond page = Normal message → reviews message = extractReviews page.
Proof.
  unfold respond. destruct (Content.detectPageType page); [|done].
  by intros [= <-].
Qed.




(** ** One call at a time *)

Lemma stretches_advance {S A : Type} (Susp : S → S → Prop) (Fin : A → S → S → Prop)
    (m : Async S A) (s0 s : S) :
  stretches Susp Fin m s0 s →
  match advance m s with
  | (s', Finished a) => Fin a s0 s'
  | (s', Suspended p k) => Susp s0 s' ∧ ∀ a s1, stretches Susp Fin (k a) s1 s1
  end.
Proof.
  revert s. induction m as [a|k IH|s' k IH|p k IH]; intros s H; simpl in *.
  - exact H.
  - by apply IH.
  - by apply IH.
  - exact H.
Qed.

Lemma stretches_bind {S A B : Type} (Susp : S → S → Prop) (Fin : B → S → S → Prop)
    (m : Async S A) (f : A → Async S B) (s0 s : S) :
  stretches Susp (fun a s0' s' => stretches Susp Fin (f a) s0' s') m s0 s →
  stretches Susp Fin (bind m f) s0 s.
Proof.
  revert s0 s. induction m as [a|k IH|s' k IH|p k IH]; intros s0 s H; simpl in *.
  - exact H.
  - by apply IH.
  - by apply IH.
  - destruct H as [H1 H2]. split; [done|]. intros a s1. apply IH, H2.
Qed.

(** The analysis loop does not touch the state: it passes on, stretch
    by stretch, what holds when it starts. *)
Lemma stretches_analyzeEach {S : Type} (Susp : S → S → Prop)
    (Fin : list AnalyzedReview → S → S → Prop)
    (batch : list ReviewCandidate) (results : list AnalyzedReview) (s0 s : S) :
  (∀ s1, Susp s1 s1) →
  (∀ res s0' s', Susp s0' s' → Fin res s0' s') →
  Susp s0 s →
  stretches Susp Fin (analyzeEach batch results) s0 s.
Proof.
  intros Hrefl Hfin. revert results s0 s.
  induction batch as [|review batch IH]; intros results s0 s H; simpl; [by apply Hfin|].
  split; [done|]. intros a s1.
  destruct a as [|[[]]| | |]; simpl; auto.
  split; [done|]. intros b s2. destruct b; simpl; auto.
Qed.

Section OneAtATime.
Context {S L : Type} (flag : S → bool) (holder : L → bool).

Lemma holdsFlag_refl (s : S) : holdsFlag flag s s.
Proof. by intros ?. Qed.

Lemma keepsFlag_refl (s : S) : keepsFlag flag s s.
Proof. done. Qed.

Lemma holders_app (ts us : list (Task S L)) :
  holders holder (ts ++ us) = (holders holder ts + holders holder us)%nat.
Proof. unfold holders. by rewrite List.filter_app, length_app. Qed.

Lemma holders_cons (t : Task S L) (ts : list (Task S L)) :
  holders holder (t :: ts)
  = ((if holder (origin t) then 1 else 0) + holders holder ts)%nat.
Proof. unfold holders. simpl. by destruct (holder (origin t)). Qed.

(** A guarded handler is called. *)
Lemma call_guarded_inv (l : L) (m : Async S unit) (sys : System S L) :
  holder l = true → guarded flag m →
  Inv flag holder sys → Inv flag holder (call l m sys).
Proof.
  intros Hl Hm [Hts Hn]. unfold call. specialize (Hm (state sys)).
  destruct (advance m (state sys)) as [s [a|p k]].
  - destruct Hm as [_ ->]. by split.
  - destruct Hm as (Hoff & Hon & Hk). split; cbn [tasks state].
    + apply Forall_app. split; [done|]. repeat constructor.
      unfold task_ok. cbn [origin resume]. by rewrite Hl.
    + rewrite holders_app, holders_cons, Hn, Hoff, Hon. cbn [origin]. by rewrite Hl.
Qed.

(** A handler that leaves the flag alone is called. *)
Lemma call_keeper_inv (l : L) (m : Async S unit) (sys : System S L) :
  holder l = false →
  (∀ s, stretches (keepsFlag flag) (fun _ => keepsFlag flag) m s s) →
  Inv flag holder sys → Inv flag holder (call l m sys).
Proof.
  intros Hl Hm [Hts Hn]. unfold call.
  pose proof (stretches_advance _ _ _ _ _ (Hm (state sys))) as H.
  destruct (advance m (state sys)) as [s [a|p k]]; unfold Inv; cbn [tasks state].
  - unfold keepsFlag in H. split; [done|]. by rewrite H.
  - destruct H as [H Hk]. unfold keepsFlag in H. split.
    + apply Forall_app. split; [done|]. repeat constructor.
      unfold task_ok. cbn [origin resume]. by rewrite Hl.
    + rewrite holders_app, holders_cons, Hn, H. cbn [origin]. rewrite Hl.
      unfold holders. simpl. destruct (flag (state sys)); reflexivity.
Qed.

(** The tasks other than task [i], and what replaces it. *)
Lemma settled_tasks (i : nat) (t : Task S L) (ts : list (Task S L)) :
  ts !! i = Some t →
  Forall (task_ok flag holder) ts →
  task_ok flag holder t
  ∧ holders holder ts
    = ((if holder (origin t) then 1 else 0) + holders holder (delete i ts))%nat
  ∧ Forall (task_ok flag holder) (delete i ts)
  ∧ ∀ t', task_ok flag holder t' →
      Forall (task_ok flag holder) (<[i:=t']> ts)
      ∧ holders holder (<[i:=t']> ts)
        = ((if holder (origin t') then 1 else 0) + holders holder (delete i ts))%nat.
Proof.
  intros Hi Hts.
  pose proof (take_drop_middle _ _ _ Hi) as Hsplit.
  pose proof (lookup_lt_Some _ _ _ Hi) as Hlt.
  rewrite delete_take_drop.
  rewrite <- Hsplit in Hts. apply Forall_app in Hts as [Hta Hts].
  apply Forall_cons in Hts as [Ht Hdr].
  split; [done|]. split.
  { rewrite <- Hsplit at 1. rewrite !holders_app, holders_cons. lia. }
  split; [by apply Forall_app|].
  intros t' Ht'. rewrite insert_take_drop by done. split.
  - apply Forall_app. split; [done|]. by constructor.
  - rewrite !holders_app, holders_cons. lia.
Qed.

(** The promise of a task settles. *)
Lemma settle_inv (i : nat) (a : Answer) (sys sys' : System S L) :
  Inv flag holder sys → settle i a sys = Some sys' → Inv flag holder sys'.
Proof.
  intros [Hts Hn]. unfold settle.
  destruct (tasks sys !! i) as [t|] eqn:Hi; simpl; [|done].
  destruct (admits (waiting t) a); [|done].
  intros [= <-].
  destruct (settled_tasks i t (tasks sys) Hi Hts) as (Ht & Hcount & Hdel & Hins).
  rewrite Hcount in Hn. unfold Inv, task_ok in *.
  destruct (holder (origin t)) eqn:Ho.
  - assert (flag (state sys) = true) as Hon.
    { destruct (flag (state sys)); [done | lia]. }
    rewrite Hon in Hn.
    pose proof (stretches_advance _ _ _ _ _ (Ht a (state sys))) as H.
    destruct (advance (resume t a) (state sys)) as [s [[]|p k]]; cbn [tasks state].
    + unfold releasesFlag in H. rewrite (H Hon). split; [exact Hdel | lia].
    + destruct H as [H Hk]. unfold holdsFlag in H.
      destruct (Hins {| origin := origin t; waiting := p; resume := k |}) as [Hf Hl].
      { cbn [origin resume]. by rewrite Ho. }
      split; [exact Hf|]. rewrite Hl, (H Hon). cbn [origin]. by rewrite Ho.
  - pose proof (stretches_advance _ _ _ _ _ (Ht a (state sys))) as H.
    destruct (advance (resume t a) (state sys)) as [s [[]|p k]]; cbn [tasks state].
    + unfold keepsFlag in H. rewrite H. split; [exact Hdel | exact Hn].
    + destruct H as [H Hk]. unfold keepsFlag in H.
      destruct (Hins {| origin := origin t; waiting := p; resume := k |}) as [Hf Hl].
      { cbn [origin resume]. by rewrite Ho. }
      split; [exact Hf|]. rewrite Hl, H. cbn [origin]. by rewrite Ho.
Qed.

(** Under the invariant at most one call holds the flag, and one does
    exactly when the flag is set. *)
Lemma inv_one_holder (sys : System S L) :
  Inv flag holder sys →
  (holders holder (tasks sys) <= 1)%nat
  ∧ (flag (state sys) = true ↔ holders holder (tasks sys) = 1%nat).
Proof.
  intros [_ Hn]. rewrite Hn. destruct (flag (state sys)); split; (lia || done).
Qed.

(** A guarded handler called under the invariant: with the flag set the
    call changes nothing; with the flag clear it becomes the one call in
    flight. *)
Lemma guarded_call (l : L) (m : Async S unit) (sys : System S L) :
  holder l = true → guarded flag m → Inv flag holder sys →
  (flag (state sys) = true → call l m sys = sys)
  ∧ (flag (state sys) = false →
     holders holder (tasks (call l m sys)) = 1%nat
     ∧ flag (state (call l m sys)) = true).
Proof.
  intros Hl Hm HI.
  pose proof (call_guarded_inv l m sys Hl Hm HI) as [_ Hn'].
  specialize (Hm (state sys)). unfold call in *.
  destruct (advance m (state sys)) as [s [[]|p k]].
  - destruct Hm as [Hon ->]. split; [by destruct sys | congruence].
  - destruct Hm as (Hoff & Hon & _). split; [congruence|].
    intros _. cbn [state] in *. by rewrite Hn', Hon.
Qed.

End OneAtATime.

(** *** The bookmarklet *)

(** [handleLoadMore] is guarded by [isLoadingMore]. *)
Lemma handleLoadMore_guarded : guarded isLoadingMore handleLoadMore.
Proof.
  intros st. unfold handleLoadMore. cbn.
  destruct (isLoadingMore st) eqn:Hflag; cbn; [done|].
  split; [done|]. split; [apply set_button_fields|].
  intros _ s1. cbn. split; [apply holdsFlag_refl|]. intros _ s2. cbn.
  destruct (match length _ with 0%nat => false | _ => true end).
  - unfold mbind, Async_bind, analyzeReviews.
    apply stretches_bind, stretches_bind, stretches_analyzeEach;
      [apply holdsFlag_refl | | apply holdsFlag_refl].
    intros res s0' s' Hheld. cbn.
    destruct (length _ =? 0)%nat; cbn; by intros _.
  - cbn. by intros _.
Qed.

Lemma renderResults_keeps_flag (results : list AnalyzedReview) (pageInfo : PageInfo)
    (s0 s : State) :
  keepsFlag isLoadingMore s0 s →
  stretches (keepsFlag isLoadingMore) (fun _ => keepsFlag isLoadingMore)
    (renderResults results pageInfo) s0 s.
Proof.
  intros H. unfold renderResults. cbn. by destruct (length results =? 0)%nat.
Qed.

(** [run] leaves [isLoadingMore] alone. *)
Lemma run_keeps_flag (s : State) :
  stretches (keepsFlag isLoadingMore) (fun _ => keepsFlag isLoadingMore) run s s.
Proof.
  unfold run. cbn.
  destruct (length _ =? 0)%nat.
  - by destruct (_ && _); cbn.
  - unfold mbind, Async_bind, analyzeReviews.
    apply stretches_bind, stretches_analyzeEach; [apply keepsFlag_refl | | done].
    intros res s0' s' H. by apply renderResults_keeps_flag.
Qed.

Lemma start_inv (d : Document) : Inv isLoadingMore isLoad (start d).
Proof.
  apply call_keeper_inv; [done | apply run_keeps_flag|]. by split.
Qed.

Lemma step_inv (e : Event) (sys sys' : System State Origin) :
  Inv isLoadingMore isLoad sys → step sys e = Some sys' → Inv isLoadingMore isLoad sys'.
Proof.
  intros HI. destruct e as [|i a|d]; simpl.
  - intros [= <-]. by apply call_guarded_inv; [|apply handleLoadMore_guarded|].
  - by apply settle_inv.
  - intros [= <-]. exact HI.
Qed.

Lemma steps_inv (es : list Event) (sys sys' : System State Origin) :
  Inv isLoadingMore isLoad sys → steps sys es = Some sys' → Inv isLoadingMore isLoad sys'.
Proof.
  revert sys. induction es as [|e es IH]; intros sys HI; simpl.
  - by intros [= <-].
  - destruct (step sys e) as [sys1|] eqn:He; simpl; [|done].
    apply IH. by eapply step_inv.
Qed.

(** *** The popup *)

(** [handleAnalyze] is guarded by [isLoading]. *)
Lemma popup_handleAnalyze_guarded : guarded Popup.isLoading Popup.handleAnalyze.
Proof.
  intros st. unfold Popup.handleAnalyze. cbn.
  destruct (Popup.isLoading st) eqn:Hflag; cbn; [done|].
  split; [done|]. split; [done|].
  intros tab s1.
  assert (∀ s, holdsFlag Popup.isLoading s s) as Hrefl by apply holdsFlag_refl.
  destruct tab; cbn; try by intros _.
  all: split; [apply Hrefl|]; intros _ s2; cbn; split; [apply Hrefl|]; intros _ s3; cbn.
  all: split; [apply Hrefl|]; intros response s4.
  all: destruct response as [| | |message|]; cbn; try by intros _.
  all: destruct (length (reviews message) =? 0)%nat; cbn; try by intros _.
  all: unfold mbind, Async_bind, analyzeReviews.
  all: apply stretches_bind, stretches_bind, stretches_analyzeEach;
    [apply Hrefl | | by intros ?].
  all: intros res s0' s' _; cbn; destruct (length res =? 0)%nat; cbn; by intros _.
Qed.

(** [handleLoadMore] of the popup is guarded by [isLoading]. *)
Lemma popup_handleLoadMore_guarded : guarded Popup.isLoading Popup.handleLoadMore.
Proof.
  intros st. unfold Popup.handleLoadMore. cbn.
  destruct (Popup.isLoading st) eqn:Hflag; cbn; [done|].
  split; [done|]. split; [done|].
  intros tab s1.
  assert (∀ s, holdsFlag Popup.isLoading s s) as Hrefl by apply holdsFlag_refl.
  destruct tab; cbn; try by intros _.
  all: split; [apply Hrefl|]; intros response s2.
  all: destruct response as [| | |message|]; cbn; try by intros _.
  all: destruct (match length (reviews message) with 0%nat => false | _ => true end);
    cbn; try by intros _.
  all: destruct (match length (Popup.newReviews s2 (reviews message)) with
                 | 0%nat => false | _ => true end); cbn; try by intros _.
  all: unfold mbind, Async_bind, analyzeReviews.
  all: apply stretches_bind, stretches_bind, stretches_analyzeEach;
    [apply Hrefl | | by intros ?].
  all: intros res s0' s' _; cbn; by intros _.
Qed.

Lemma popup_start_inv : Inv Popup.isLoading Popup.takesFlag Popup.start.
Proof. by split. Qed.

Lemma popup_step_inv (e : Popup.Event) (sys sys' : System Popup.State Popup.Origin) :
  Inv Popup.isLoading Popup.takesFlag sys → Popup.step sys e = Some sys' →
  Inv Popup.isLoading Popup.takesFlag sys'.
Proof.
  intros HI. destruct e as [| |i a]; simpl.
  - intros [= <-]. by apply call_guarded_inv; [|apply popup_handleAnalyze_guarded|].
  - intros [= <-]. by apply call_guarded_inv; [|apply popup_handleLoadMore_guarded|].
  - by apply settle_inv.
Qed.

Lemma popup_steps_inv (es : list Popup.Event) (sys sys' : System Popup.State Popup.Origin) :
  Inv Popup.isLoading Popup.takesFlag sys → Popup.steps sys es = Some sys' →
  Inv Popup.isLoading Popup.takesFlag sys'.
Proof.
  revert sys. induction es as [|e es IH]; intros sys HI; simpl.
  - by intros [= <-].
  - destruct (Popup.step sys e) as [sys1|] eqn:He; simpl; [|done].
    apply IH. by eapply popup_step_inv.
Qed.

Lemma popup_loads_le (sys : System Popup.State Popup.Origin) :
  (Popup.loadsInFlight sys <= Popup.inFlight sys)%nat.
Proof.
  unfold Popup.loadsInFlight, Popup.inFlight, holders.
  induction (tasks sys) as [|t ts IH]; simpl; [done|].
  destruct (origin t); simpl; lia.
Qed.

(** C9: at no point of a session that the bookmarklet or the popup can
    reach are two load-more calls in flight: there is at most one (in the
    popup, at most one call of either handler), there is one exactly
    while the flag ([isLoadingMore], [isLoading]) is set, and a call of
    the handler that arrives then returns at once, leaving the variables,
    what is shown, the tasks and the requests sent as they are; when the
    flag is clear, the call starts a pass. *)
Theorem at_most_one_load_more_in_flight
    (d : Document) (es : list Event) (sys : System State Origin)
    (pes : list Popup.Event) (psys : System Popup.State Popup.Origin) :
  steps (start d) es = Some sys →
  Popup.steps Popup.start pes = Some psys →
  ((loadsInFlight sys <= 1)%nat
   ∧ (isLoadingMore (state sys) = true ↔ loadsInFlight sys = 1%nat)
   ∧ (isLoadingMore (state sys) = true → step sys Click = Some sys)
   ∧ (isLoadingMore (state sys) = false →
      ∃ sys', step sys Click = Some sys' ∧ loadsInFlight sys' = 1%nat
              ∧ isLoadingMore (state sys') = true))
  ∧ ((Popup.loadsInFlight psys <= Popup.inFlight psys)%nat
     ∧ (Popup.inFlight psys <= 1)%nat
     ∧ (Popup.isLoading (state psys) = true ↔ Popup.inFlight psys = 1%nat)
     ∧ (Popup.isLoading (state psys) = true →
        Popup.step psys Popup.ClickLoadMore = Some psys
        ∧ Popup.step psys Popup.ClickAnalyze = Some psys)
     ∧ (Popup.isLoading (state psys) = false →
        ∃ psys', Popup.step psys Popup.ClickLoadMore = Some psys'
                 ∧ Popup.inFlight psys' = 1%nat
                 ∧ Popup.isLoading (state psys') = true)).
Proof.
  intros Hsteps Hpsteps. split.
  - pose proof (steps_inv es _ _ (start_inv d) Hsteps) as HI.
    destruct (inv_one_holder _ _ _ HI) as [Hle Hiff].
    destruct (guarded_call isLoadingMore isLoad LoadMore handleLoadMore sys eq_refl
                handleLoadMore_guarded HI) as [Hon Hoff].
    split; [exact Hle|]. split; [exact Hiff|]. split.
    + intros H. simpl. by rewrite (Hon H).
    + intros H. eexists. split; [reflexivity|]. by apply Hoff.
  - pose proof (popup_steps_inv pes _ _ popup_start_inv Hpsteps) as HI.
    destruct (inv_one_holder _ _ _ HI) as [Hle Hiff].
    destruct (guarded_call Popup.isLoading Popup.takesFlag Popup.LoadMore
                Popup.handleLoadMore psys eq_refl popup_handleLoadMore_guarded HI)
      as [Hon Hoff].
    destruct (guarded_call Popup.isLoading Popup.takesFlag Popup.Analyze
                Popup.handleAnalyze psys eq_refl popup_handleAnalyze_guarded HI)
      as [Hon' _].
    split; [apply popup_loads_le|]. split; [exact Hle|]. split; [exact Hiff|]. split.
    + intros H. simpl. by rewrite (Hon H), (Hon' H).
    + intros H. eexists. split; [reflexivity|]. by apply Hoff.
Qed.

(** The bookmarklet on the sample page after the first analysis and
    one click on Load More, and the popup after a click on Analyze. *)
Lemma at_most_one_load_more_in_flight_witness :
  ∃ sys psys,
    steps (start twoReviewsPage) (firstAnalysis ++ [Click]) = Some sys
    ∧ Popup.steps Popup.start [Popup.ClickAnalyze] = Some psys
    ∧ isLoadingMore (state sys) = true
    ∧ loadsInFlight sys = 1%nat
    ∧ step sys Click = Some sys
    ∧ Popup.inFlight psys = 1%nat
    ∧ Popup.step psys Popup.ClickLoadMore = Some psys.
Proof.
  assert ((isLoadingMore ∘ state) <$> steps (start twoReviewsPage) (firstAnalysis ++ [Click])
          = Some true) as Hflag by (vm_compute; reflexivity).
  assert ((Popup.isLoading ∘ state) <$> Popup.steps Popup.start [Popup.ClickAnalyze]
          = Some true) as Hpflag by (vm_compute; reflexivity).
  destruct (steps (start twoReviewsPage) (firstAnalysis ++ [Click])) as [sys|] eqn:Hs;
    [|discriminate Hflag].
  destruct (Popup.steps Popup.start [Popup.ClickAnalyze]) as [psys|] eqn:Hps;
    [|discriminate Hpflag].
  injection Hflag as Hon. injection Hpflag as Hpon.
  exists sys, psys.
  destruct (at_most_one_load_more_in_flight _ _ _ _ _ Hs Hps)
    as ((_ & Hone & Hclick & _) & (_ & _ & Hpone & Hpclick & _)).
  split; [reflexivity|]. split; [reflexivity|]. split; [exact Hon|].
  split; [by apply Hone|]. split; [by apply Hclick|].
  split; [by apply Hpone | by apply Hpclick].
Defined.

(** * Further properties of the code *)

Import Laws Samples.
#[local] Transparent extractReviews Bookmarklet.detectPageType Bookmarklet.calculateTruthGap
  Content.detectPageType Popup.renderResults.

(** ** Trimmed texts *)

Lemma trimStart_headOk (s : string) : headOk (trimStart s).
Proof. induction s as [|c s IH]; simpl; [done|]. by destruct (is_space c) eqn:E. Qed.

Lemma trimEnd_headOk (v : string) : headOk v → headOk (trimEnd v).
Proof.
  destruct v as [|c v]; simpl; [done|]. intros Hc.
  destruct (trimEnd v); simpl; [by rewrite Hc | done].
Qed.

Lemma trimStart_id (v : string) : headOk v → trimStart v = v.
Proof. destruct v as [|c v]; simpl; [done|]. by intros ->. Qed.

Lemma trimEnd_idemp (v : string) : trimEnd (trimEnd v) = trimEnd v.
Proof.
  induction v as [|c v IH]; simpl; [done|].
  destruct (trimEnd v) as [|c' r] eqn:E.
  - destruct (is_space c) eqn:Hc; simpl; [done | by rewrite Hc].
  - change (trimEnd (String c (String c' r))) with
      (match trimEnd (String c' r) with
       | EmptyString => if is_space c then EmptyString else String c EmptyString
       | rest' => String c rest'
       end).
    by rewrite IH.
Qed.

(** [trim] is idempotent. *)
Lemma trim_trim (s : string) : trim (trim s) = trim s.
Proof.
  unfold trim.
  rewrite (trimStart_id (trimEnd (trimStart s))).
  - apply trimEnd_idemp.
  - apply trimEnd_headOk, trimStart_headOk.
Qed.

(** ** What the extraction returns *)

Lemma collect_texts (d : Document) :
  Forall (fun c => trim (Content.text c) = Content.text c
                   ∧ (20 < String.length (Content.text c) < 5000)%nat) (collect d).
Proof.
  apply Forall_forall. intros c Hc.
  assert (Content.text c ∈ (Content.text <$> collect d)) as Ht
    by (apply list_elem_of_fmap; eauto).
  destruct (selectors_spec d selectors []) as (_ & _ & _ & H & _).
  apply H in Ht as [Ht | (sel & el & _ & _ & (raw & _ & Heq & Hlen) & _)];
    [by apply elem_of_nil in Ht|].
  split; [|done]. rewrite Heq. apply trim_trim.
Qed.

Lemma selection_cases (d : Document) :
  extractReviews d
  = take 50 (((fun t => {| Content.text := t; Content.stars := of_Z 3 |}) <$> selected d)
             ++ collect d).
Proof.
  unfold extractReviews, selected.
  destruct (trim <$> getSelection d) as [s|]; [|done].
  destruct (20 <? String.length s)%nat eqn:E; [|by rewrite andb_false_r].
  rewrite andb_true_r.
  destruct s; [done|]. done.
Qed.

Lemma selected_texts (d : Document) :
  Forall (fun t => trim t = t ∧ (20 < String.length t)%nat
                   ∧ Some t = trim <$> getSelection d) (selected d).
Proof.
  unfold selected. destruct (getSelection d) as [s|]; simpl; [|done].
  destruct (20 <? _)%nat eqn:E; [|done].
  apply Nat.ltb_lt in E. repeat constructor; [apply trim_trim | done].
Qed.

(** What [extractReviews] returns is bounded: at most 50 candidates; the
    text of each is trimmed and has more than 20 characters; and a
    candidate of 5000 characters or more can only be the first one, the
    text that the user has selected. *)
Theorem extracted_candidates_are_bounded (d : Document) :
  (length (extractReviews d) <= 50)%nat
  ∧ Forall (fun c => trim (Content.text c) = Content.text c
                     ∧ (20 < String.length (Content.text c))%nat) (extractReviews d)
  ∧ ∀ i c, extractReviews d !! i = Some c →
      (5000 <= String.length (Content.text c))%nat →
      i = 0%nat ∧ Some (Content.text c) = trim <$> getSelection d.
Proof.
  rewrite selection_cases.
  pose proof (collect_texts d) as Hc. pose proof (selected_texts d) as Hs.
  split; [rewrite length_take; lia|]. split.
  - apply Forall_take, Forall_app. split.
    + apply Forall_fmap. eapply Forall_impl; [exact Hs|]. by intros t (? & ? & _).
    + eapply Forall_impl; [exact Hc|]. intros c [? ?]. split; [done | lia].
  - intros i c Hi Hlen. apply lookup_take_Some in Hi as [Hi _].
    unfold selected in *. destruct (trim <$> getSelection d) as [s|].
    2: { simpl in Hi. eapply Forall_lookup_1 in Hc; [|exact Hi]. simpl in Hc. lia. }
    destruct (20 <? String.length s)%nat.
    2: { simpl in Hi. eapply Forall_lookup_1 in Hc; [|exact Hi]. simpl in Hc. lia. }
    destruct i as [|i]; [by injection Hi as <-|].
    simpl in Hi. eapply Forall_lookup_1 in Hc; [|exact Hi]. simpl in Hc. lia.
Qed.

(** The candidates collected from the matched elements have pairwise
    different texts, whatever the star lookups do. *)
Theorem collected_texts_are_distinct (d : Document) :
  NoDup (Content.text <$> collect d)
  ∧ ∀ i j c c', extractReviews d !! i = Some c → extractReviews d !! j = Some c' →
      Content.text c = Content.text c' → i ≠ j →
      (i = 0%nat ∨ j = 0%nat) ∧ Some (Content.text c) = trim <$> getSelection d.
Proof.
  pose proof (collect_NoDup d) as Hnd. split; [exact Hnd|].
  rewrite selection_cases. intros i j c c' Hi Hj Heq Hij.
  apply lookup_take_Some in Hi as [Hi _]. apply lookup_take_Some in Hj as [Hj _].
  pose proof (selected_texts d) as Hs.
  unfold selected in *. destruct (trim <$> getSelection d) as [s|].
  2: { simpl in Hi, Hj. destruct Hij.
       apply (NoDup_lookup _ i j (Content.text c) Hnd);
         rewrite list_lookup_fmap; [by rewrite Hi | by rewrite Hj, Heq]. }
  destruct (20 <? String.length s)%nat.
  2: { simpl in Hi, Hj. destruct Hij.
       apply (NoDup_lookup _ i j (Content.text c) Hnd);
         rewrite list_lookup_fmap; [by rewrite Hi | by rewrite Hj, Heq]. }
  destruct i as [|i], j as [|j]; simpl in Hi, Hj.
  - done.
  - injection Hi as <-. split; [by left | done].
  - injection Hj as <-. split; [by right | by rewrite Heq].
  - destruct Hij. f_equal.
    apply (NoDup_lookup _ i j (Content.text c) Hnd);
      rewrite list_lookup_fmap; [by rewrite Hi | by rewrite Hj, Heq].
Qed.

(** The visit of an element whose star lookup completes, in terms of
    the text it considers. *)
Lemma visit_texts (reviews : list ReviewCandidate) (el : node) :
  calm el →
  ∃ reviews', visit reviews el = Normal reviews'
    ∧ Content.text <$> reviews'
      = match acceptedText el with
        | Some t =>
            if decide (t ∈ Content.text <$> reviews) then Content.text <$> reviews
            else (Content.text <$> reviews) ++ [t]
        | None => Content.text <$> reviews
        end.
Proof.
  unfold calm, visit, acceptedText. intros Hcalm.
  destruct (innerText (self el)) as [raw|]; simpl; [|by eexists].
  destruct (acceptable (trim raw)); [|by eexists].
  destruct (existsb _ reviews) eqn:E; simpl.
  - apply existsb_text in E. rewrite decide_True by done. by eexists.
  - rewrite decide_False by (rewrite <- existsb_text; congruence).
    destruct (lookupStars el) as [x|]; [|done]. simpl.
    eexists. split; [reflexivity|]. by rewrite fmap_app.
Qed.

Lemma filter_all {A : Type} (P : A → Prop) `{!∀ x, Decision (P x)} (l : list A) :
  (∀ x, P x) → filter P l = l.
Proof.
  intros HP. induction l as [|x l IH]; [done|].
  by rewrite filter_cons_True, IH.
Qed.

Lemma filter_firsts_app (seen : list string) (t : string) (l : list string) :
  filter (fun u => u ∉ seen ++ [t]) l = filter (fun u => u ∉ seen) (filter (fun u => u ≠ t) l).
Proof.
  rewrite list_filter_filter. apply list_filter_iff. intros u.
  rewrite elem_of_app, list_elem_of_singleton. tauto.
Qed.

Lemma forEach_texts (els : list node) (reviews : list ReviewCandidate) :
  Forall calm els →
  Content.text <$> forEach els reviews
  = (Content.text <$> reviews)
    ++ filter (fun u => u ∉ Content.text <$> reviews) (firsts (omap acceptedText els)).
Proof.
  intros Hcalm. revert reviews.
  induction Hcalm as [|el els Hel _ IH]; intros reviews; simpl.
  { by rewrite app_nil_r. }
  destruct (visit_texts reviews el Hel) as (reviews' & -> & Htexts).
  rewrite IH, Htexts.
  destruct (acceptedText el) as [t|]; simpl; [|done].
  destruct (decide (t ∈ Content.text <$> reviews)) as [Hin | Hnew].
  - rewrite filter_cons_False by (by intros H; apply H). f_equal.
    rewrite list_filter_filter. apply list_filter_iff. intros u. split; [|tauto].
    intros Hu. split; [done|]. by intros ->.
  - rewrite filter_cons_True by done.
    rewrite <- app_assoc. simpl. do 2 f_equal. apply filter_firsts_app.
Qed.

Lemma firsts_app (l1 l2 : list string) :
  firsts (l1 ++ l2) = firsts l1 ++ filter (fun u => u ∉ firsts l1) (firsts l2).
Proof.
  induction l1 as [|t l1 IH]; simpl.
  { symmetry. apply filter_all. intros u. apply not_elem_of_nil. }
  f_equal. rewrite IH, filter_app. f_equal.
  rewrite !list_filter_filter. apply list_filter_iff. intros u.
  rewrite elem_of_cons, list_elem_of_filter. split.
  - intros [Hne Hu]. intros [-> | [_ Hin]]; done.
  - intros Hu. split; [by intros ->; apply Hu; left|].
    intros Hin. apply Hu. destruct (decide (u = t)) as [-> | Hne]; [by left|].
    right. by split.
Qed.

Lemma selectors_texts (d : Document) (sels : list selector)
    (reviews : list ReviewCandidate) :
  Forall calm (concat ((fun sel => document_querySelectorAll sel d) <$> sels)) →
  Content.text <$>
    fold_left (fun reviews selector => forEach (document_querySelectorAll selector d) reviews)
      sels reviews
  = (Content.text <$> reviews)
    ++ filter (fun u => u ∉ Content.text <$> reviews)
         (firsts (omap acceptedText
                    (concat ((fun sel => document_querySelectorAll sel d) <$> sels)))).
Proof.
  revert reviews. induction sels as [|sel sels IH]; intros reviews Hcalm; simpl.
  { by rewrite app_nil_r. }
  simpl in Hcalm. apply Forall_app in Hcalm as [Hsel Hrest].
  rewrite IH by done. rewrite (forEach_texts _ _ Hsel).
  rewrite omap_app, firsts_app, filter_app, <- app_assoc. f_equal. f_equal.
  set (seen := Content.text <$> reviews).
  set (here := firsts (omap acceptedText (document_querySelectorAll sel d))).
  rewrite !list_filter_filter. apply list_filter_iff. intros u.
  rewrite elem_of_app, list_elem_of_filter. tauto.
Qed.

(** On a page where no star lookup throws, the candidates are collected
    in the order in which the selectors and the document present their
    texts, each text once, at its first occurrence; the list returned is
    the selection, if it counts, followed by them, cut at 50. *)
Theorem candidates_in_order_of_first_occurrence (d : Document) :
  Forall calm (matched d) →
  Content.text <$> collect d = firsts (omap acceptedText (matched d))
  ∧ Content.text <$> extractReviews d
    = take 50 (selected d ++ firsts (omap acceptedText (matched d))).
Proof.
  intros Hcalm.
  assert (Content.text <$> collect d = firsts (omap acceptedText (matched d))) as H.
  { unfold collect. rewrite (selectors_texts d selectors [] Hcalm). simpl.
    apply filter_all. intros u. apply not_elem_of_nil. }
  split; [done|].
  rewrite selection_cases, fmap_take, fmap_app, H, <- list_fmap_compose.
  f_equal. f_equal. apply list_fmap_id.
Qed.

(** The page with the reviews A and B, where B is found a second time
    in the card of the overlay. *)
Lemma candidates_in_order_of_first_occurrence_witness :
  omap acceptedText (matched twoReviewsShown) = [reviewA; reviewB; reviewB]
  ∧ Content.text <$> extractReviews twoReviewsShown = [reviewA; reviewB].
Proof.
  assert (Forall calm (matched twoReviewsShown)) as Hcalm.
  { apply svgFree_calm. vm_compute. reflexivity. }
  destruct (candidates_in_order_of_first_occurrence twoReviewsShown Hcalm) as [_ H].
  split; [vm_compute; reflexivity|]. rewrite H. vm_compute. reflexivity.
Defined.

(** ** The page description *)

Lemma rne_nonneg (x : Q) : (0 <= x)%Q → (0 <= rne x)%Z.
Proof.
  intros Hx. unfold rne.
  pose proof (Qfloor_resp_le _ _ Hx) as Hf. change (Qfloor 0) with 0%Z in Hf.
  destruct (_ ?= _)%Q; [destruct (Z.even _)| |]; lia.
Qed.

Lemma pow2_pos (k : Z) : (0 < pow2 k)%Q.
Proof. by apply Qpower_0_lt. Qed.

(** Rounding a number that is not negative gives one. *)
Lemma round64_nonneg (q : Q) : (0 <= q)%Q → nonnegative (round64 q).
Proof.
  intros Hq. unfold round64, nonnegative. destruct q as [[|n|n] d]; simpl.
  - right. by exists 0%Q.
  - unfold round64_pos.
    set (ulp := pow2 _). set (m := rne _).
    destruct (Qle_bool _ _); [by left|]. right. eexists. split; [reflexivity|].
    rewrite Qred_correct.
    assert (0 <= m)%Z as Hm.
    { apply rne_nonneg. apply Qle_shift_div_l; [apply pow2_pos|].
      rewrite Qmult_0_l. done. }
    apply Qmult_le_0_compat; [|apply Qlt_le_weak, pow2_pos].
    by rewrite <- (Zle_Qle 0).
  - unfold Qle in Hq. simpl in Hq. lia.
Qed.

Lemma nonnegative_not_NaN (x : number) : nonnegative x → isNaN x = false.
Proof. by intros [-> | (q & -> & _)]. Qed.



Lemma ratingFromStarClass_throws (d : Document) :
  ratingFromStarClass d = Throw
  ↔ ∃ starEl, starIcon d = Some starEl ∧ interface (self starEl) = SVGElement.
Proof.
  unfold ratingFromStarClass, starIcon, className.
  destruct (document_querySelector _ d) as [starEl|].
  2: { split; [done | by intros (? & ? & _)]. }
  destruct (interface (self starEl)) eqn:Hi; cbn.
  all: split; [try done | intros (el & [= <-] & Hsvg); congruence].
  intros _. by exists starEl.
Qed.

Lemma amazonDisplayedRating_throws (d : Document) :
  amazonDisplayedRating d = Throw
  ↔ match ratingFromTexts d with Some x => truthy x = false | None => True end
    ∧ ratingFromStarClass d = Throw.
Proof.
  unfold amazonDisplayedRating, ratingFromTexts.
  destruct (first_of (map ratingFrom ratingSelectors) d) as [x|]; cbn [value_truthy].
  - destruct (truthy x); cbn [negb].
    + split; [done | by intros [? _]].
    + destruct (ratingFromStarClass d) as [[y|]|]; cbn; split; try done; by intros [_ ?].
  - cbn [negb].
    destruct (ratingFromStarClass d) as [[y|]|]; cbn; split; try done; by intros [_ ?].
Qed.

(** [detectPageType] of the content script throws in one case only: on
    a host of Amazon, when no rating text gives a rating other than 0
    and the star icon of the page is an SVG element, whose class name is
    not a string. *)
Theorem page_description_throws_on_an_SVG_star_icon (d : Document) :
  Content.detectPageType d = Throw
  ↔ includes "amazon" (hostname d) = true
    ∧ match ratingFromTexts d with Some x => truthy x = false | None => True end
    ∧ ∃ starEl, starIcon d = Some starEl ∧ interface (self starEl) = SVGElement.
Proof.
  rewrite <- ratingFromStarClass_throws, <- amazonDisplayedRating_throws.
  unfold Content.detectPageType.
  destruct (includes "amazon" (hostname d)).
  - destruct (amazonDisplayedRating d) as [rating|]; cbn; split; try done; by intros [_ ?].
  - split; [done | by intros [? _]].
Qed.

(** The Amazon page whose star icon is an SVG element: the content
    script gives no response there, while the bookmarklet describes the
    page. *)
Lemma page_description_throws_on_an_SVG_star_icon_witness :
  Content.detectPageType svgRatedPage = Throw
  ∧ respond svgRatedPage = Throw
  ∧ type (Bookmarklet.detectPageType svgRatedPage) = "reviews".
Proof.
  assert (Content.detectPageType svgRatedPage = Throw) as H.
  { apply page_description_throws_on_an_SVG_star_icon.
    split; [reflexivity|]. split; [exact I|].
    eexists. split; vm_compute; reflexivity. }
  split; [exact H|]. split; [|reflexivity].
  unfold respond. by rewrite H.
Defined.

Lemma digits_value_nonneg (s : string) (acc : Z) :
  (0 <= acc)%Z → (0 <= digits_value acc s)%Z.
Proof.
  revert acc. induction s as [|c s IH]; intros acc Hacc; simpl; [done|].
  apply IH. unfold digit_value. lia.
Qed.

Lemma decimal_value_nonneg (int frac : string) : (0 <= decimal_value int frac)%Q.
Proof.
  unfold decimal_value. rewrite Qred_correct. unfold Qle. simpl.
  pose proof (digits_value_nonneg (int +:+ frac) 0). lia.
Qed.

Lemma parseFloat_decimal_nonneg (m : decimal) : nonnegative (parseFloat_decimal m).
Proof. apply round64_nonneg, decimal_value_nonneg. Qed.

Lemma ratingFrom_nonneg (sel : selector) (d : Document) (x : number) :
  ratingFrom sel d = Some x → nonnegative x.
Proof.
  unfold ratingFrom. destruct (document_querySelector sel d) as [el|]; simpl; [|done].
  destruct (match_out_of _) as [m|]; simpl; [|done].
  intros [= <-]. apply parseFloat_decimal_nonneg.
Qed.

Lemma ratingFromStarClass_nonneg (d : Document) (x : number) :
  ratingFromStarClass d = Normal (Some x) → nonnegative x.
Proof.
  unfold ratingFromStarClass. destruct (document_querySelector _ d) as [el|]; [|done].
  destruct (match_className _ _) as [[m|]|]; simpl; [|done..].
  intros [= <-]. apply parseFloat_decimal_nonneg.
Qed.

Lemma amazonDisplayedRating_range (d : Document) (v : value) :
  amazonDisplayedRating d = Normal v →
  v = Null ∨ ∃ x, v = Num x ∧ nonnegative x.
Proof.
  unfold amazonDisplayedRating.
  destruct (first_of _ d) as [x|] eqn:Hx.
  - apply first_of_Some in Hx as (f & Hf & Hfx).
    apply list_elem_of_In, in_map_iff in Hf as (sel & <- & _).
    apply ratingFrom_nonneg in Hfx.
    destruct (negb _); [|intros [= <-]; right; eauto].
    destruct (ratingFromStarClass d) as [[y|]|] eqn:Hy; simpl; [| |done].
    + apply ratingFromStarClass_nonneg in Hy. intros [= <-]. right. eauto.
    + intros [= <-]. right. eauto.
  - simpl. destruct (ratingFromStarClass d) as [[y|]|] eqn:Hy; simpl; [| |done].
    + apply ratingFromStarClass_nonneg in Hy. intros [= <-]. right. eauto.
    + intros [= <-]. by left.
Qed.

(** The displayed rating that [detectPageType] reports is absent (off
    Amazon), null (none found), or a number that is neither [NaN] nor
    negative. *)
Theorem displayed_rating_is_absent_null_or_nonnegative (d : Document) (info : PageInfo) :
  Content.detectPageType d = Normal info →
  (site info ≠ "amazon" → displayedRating info = Undefined)
  ∧ (site info = "amazon" →
       displayedRating info = Null
       ∨ ∃ x, displayedRating info = Num x ∧ nonnegative x ∧ isNaN x = false).
Proof.
  pose proof (amazonDisplayedRating_range d) as H.
  unfold Content.detectPageType, otherSites, plainPage.
  destruct (amazonDisplayedRating d) as [rating|];
  destruct (includes "amazon" (hostname d)), (isReviewsUrl (href d)),
    (isProductUrl (href d)), (includes "yelp" (hostname d)),
    (includes "tripadvisor" (hostname d)), (includes "trustpilot" (hostname d));
    cbn [andb mbind Completion_bind]; intros [= <-];
    cbn [site type displayedRating];
    (split; [intuition (discriminate || congruence)|]);
    intros Hsite; try discriminate Hsite.
  all: destruct (H rating eq_refl) as [-> | (x & -> & Hx)]; [by left|].
  all: right; exists x; split; [done|]; split; [done | by apply nonnegative_not_NaN].
Qed.

(** The Amazon reviews page whose rating text reads "0 out of 5". *)
Lemma displayed_rating_is_absent_null_or_nonnegative_witness :
  ∃ info, Content.detectPageType zeroRatedPage = Normal info
          ∧ displayedRating info = Num (of_Z 0)
          ∧ nonnegative (of_Z 0).
Proof.
  assert (Content.detectPageType zeroRatedPage
          = Normal {| site := "amazon"; type := "reviews"; hasMorePages := Some false;
                      reviewsUrl := None; totalReviews := None;
                      displayedRating := Num (of_Z 0) |}) as H
    by (vm_compute; reflexivity).
  eexists. split; [exact H|]. split; [reflexivity|].
  destruct (displayed_rating_is_absent_null_or_nonnegative _ _ H) as [_ Hr].
  destruct (Hr eq_refl) as [Hnull | (x & Hx & Hnn & _)]; [discriminate Hnull|].
  simpl in Hx. injection Hx as <-. exact Hnn.
Defined.






(** *** The nodes of a document *)

(** Each node below [e] has a chain of ancestors that leads up to [e],
    and every element of the chain is itself a node below [e]. *)
Lemma descendants_closed (e : Element) :
  ∀ ancs n, n ∈ descendants ancs e →
    ∃ path, ancestors n = path ++ e :: ancs
            ∧ ∀ pre a post, path = pre ++ a :: post →
                Node a (post ++ e :: ancs) ∈ descendants ancs e.
Proof.
  induction e as [e IH] using Element_children_ind. intros ancs n.
  rewrite descendants_children.
  intros Hn. apply list_elem_of_In, in_concat in Hn as (l & Hl & Hn).
  apply list_elem_of_In, list_elem_of_fmap in Hl as (k & -> & Hk).
  apply list_elem_of_In in Hn.
  assert (∀ m, m ∈ Node k (e :: ancs) :: descendants (e :: ancs) k →
               m ∈ concat ((fun k => Node k (e :: ancs) :: descendants (e :: ancs) k)
                             <$> children e)) as Hsub.
  { intros m Hm. apply list_elem_of_In, in_concat. eexists. split.
    - apply list_elem_of_In, list_elem_of_fmap. by exists k.
    - by apply list_elem_of_In. }
  apply elem_of_cons in Hn as [-> | Hn].
  - exists []. split; [done|]. intros pre a post Hsplit. by destruct pre.
  - rewrite Forall_forall in IH.
    destruct (IH k Hk (e :: ancs) n Hn) as (path & Hpath & Hclosed).
    exists (path ++ [k]). split; [by rewrite <- app_assoc|].
    intros pre a post Hsplit. apply Hsub.
    destruct (decide (length post = 0)%nat) as [Hz | Hnz].
    + apply nil_length_inv in Hz as ->.
      apply app_inj_tail in Hsplit as [_ <-]. by left.
    + destruct (exists_last (l:=post)) as (post' & z & ->); [by intros ->|].
      change (pre ++ a :: post' ++ [z]) with (pre ++ (a :: post') ++ [z]) in Hsplit.
      rewrite app_assoc in Hsplit. apply app_inj_tail in Hsplit as [-> ->].
      right. rewrite <- app_assoc. simpl. by apply (Hclosed pre a post').
Qed.

Lemma above_Some (c : compound) (ancs up : list Element) :
  above c ancs = Some up →
  ∃ pre a, ancs = pre ++ a :: up ∧ matches_compound c a = true.
Proof.
  induction ancs as [|a ancs IH]; simpl; [done|].
  destruct (matches_compound c a) eqn:E.
  - intros [= <-]. by exists [], a.
  - intros H. destruct (IH H) as (pre & b & -> & Hb). by exists (a :: pre), b.
Qed.

(** If the document has an element matching [L] below one matching
    [P], it has an element matching [P]. *)
Lemma descendant_selector_ancestor (P L : compound) (d : Document) :
  is_Some (document_querySelector [[P; L]] d) →
  is_Some (document_querySelector [[P]] d).
Proof.
  unfold document_querySelector, document_querySelectorAll.
  set (root := documentElement d). intros [n Hn].
  apply head_Some_elem_of in Hn.
  apply list_elem_of_In, filter_In in Hn as [Hn Hm]. apply list_elem_of_In in Hn.
  unfold matches in Hm. simpl in Hm. rewrite orb_false_r in Hm.
  unfold matches_complex in Hm. simpl in Hm.
  apply andb_prop in Hm as [_ Hm].
  destruct (above P (ancestors n)) as [up|] eqn:Hup; [|done].
  apply above_Some in Hup as (pre & a & Hanc & Ha).
  assert (Node a up ∈ Node root [] :: descendants [] root) as Hin.
  { apply elem_of_cons in Hn as [-> | Hn]; [by destruct pre|].
    destruct (descendants_closed root [] n Hn) as (path & Hpath & Hclosed).
    rewrite Hanc in Hpath.
    destruct (decide (length up = 0)%nat) as [Hz | Hnz].
    - apply nil_length_inv in Hz as ->.
      apply app_inj_tail in Hpath as [_ ->]. by left.
    - destruct (exists_last (l:=up)) as (up' & z & ->); [by intros ->|].
      change (pre ++ a :: up' ++ [z]) with (pre ++ (a :: up') ++ [z]) in Hpath.
      rewrite app_assoc in Hpath. apply app_inj_tail in Hpath as [<- ->].
      right. by apply (Hclosed pre a up'). }
  assert (matches [[P]] (Node a up) = true) as Hmatch.
  { unfold matches, matches_complex. simpl. by rewrite Ha. }
  destruct (List.filter (matches [[P]]) (Node root [] :: descendants [] root)) as [|m ms] eqn:E.
  - assert (In (Node a up) []) as [].
    rewrite <- E. apply filter_In. split; [by apply list_elem_of_In | done].
  - by eexists.
Qed.

(** Where the content script describes the page, the description of the
    bookmarklet agrees with it on the site and the type of the page,
    except that it does not know Trustpilot, and on the link to the
    reviews and the review count; it reports further pages whenever the
    content script does; and it never has a displayed rating. *)
Theorem bookmarklet_page_description_agrees (d : Document) (c : PageInfo) :
  Content.detectPageType d = Normal c →
  let b := Bookmarklet.detectPageType d in
  (site c ≠ "trustpilot" → site b = site c ∧ type b = type c)
  ∧ (site c = "trustpilot" → site b = "unknown" ∧ type b = "unknown")
  ∧ reviewsUrl b = reviewsUrl c
  ∧ totalReviews b = totalReviews c
  ∧ (is_Some (hasMorePages b) ↔ is_Some (hasMorePages c))
  ∧ (hasMorePages c = Some true → hasMorePages b = Some true)
  ∧ displayedRating b = Undefined.
Proof.
  pose proof (descendant_selector_ancestor [Class "a-pagination"]
                [Class "a-last"; NotClass "a-disabled"] d) as Hmore.
  unfold Content.detectPageType, Bookmarklet.detectPageType, otherSites, plainPage.
  destruct (amazonDisplayedRating d) as [rating|];
  destruct (includes "amazon" (hostname d)), (isReviewsUrl (href d)),
    (isProductUrl (href d)), (includes "yelp" (hostname d)),
    (includes "tripadvisor" (hostname d)), (includes "trustpilot" (hostname d));
    cbn [andb mbind Completion_bind]; intros [= <-]; cbv zeta;
    cbn [site type reviewsUrl totalReviews hasMorePages displayedRating];
    repeat split; try done; try (by intros [? [=]]); try discriminate.
  all: intros [= H]; f_equal; apply bool_decide_eq_true in H;
    apply bool_decide_eq_true; by apply Hmore.
Qed.

(** The product page that links to its reviews. *)
Lemma bookmarklet_page_description_agrees_witness :
  site (Bookmarklet.detectPageType productPage) = "amazon"
  ∧ type (Bookmarklet.detectPageType productPage) = "product"
  ∧ reviewsUrl (Bookmarklet.detectPageType productPage)
    = Some "https://www.amazon.com/product-reviews/B000000000".
Proof.
  assert (Content.detectPageType productPage = Normal (pageInfo productMessage)) as H
    by (vm_compute; reflexivity).
  destruct (bookmarklet_page_description_agrees productPage _ H)
    as (Hsite & _ & Hurl & _).
  destruct Hsite as [Hs Ht]; [discriminate|].
  split; [exact Hs|]. split; [exact Ht | exact Hurl].
Defined.

(** ** The figures of the report *)

Lemma count_labels (results : list AnalyzedReview) :
  (Popup.count_label "human" results + Popup.count_label "bot" results
   + Popup.count_label "low_effort" results
   + length (filter (fun r => credibility_label r ∉ ["human"; "bot"; "low_effort"]) results)
   = length results)%nat.
Proof.
  unfold Popup.count_label.
  induction results as [|r rs IH]; [done|]. cbn [List.filter].
  destruct (decide (credibility_label r ∉ ["human"; "bot"; "low_effort"])) as [Hn | Hy].
  - rewrite filter_cons_True by done.
    rewrite !elem_of_cons in Hn.
    destruct (String.eqb_spec (credibility_label r) "human"),
      (String.eqb_spec (credibility_label r) "bot"),
      (String.eqb_spec (credibility_label r) "low_effort"); try tauto.
    simpl. lia.
  - rewrite filter_cons_False by done.
    apply dec_stable in Hy. rewrite !elem_of_cons in Hy.
    destruct Hy as [-> | [-> | [-> | Hy]]]; [| | |by apply elem_of_nil in Hy];
      simpl; lia.
Qed.

(** The three counts of the report never exceed the number of analyzed
    reviews, and they add up to it exactly when every review is labelled
    human, bot or low effort; a review with any other label (such as
    "unknown") is counted in the total only. *)
Theorem label_counts_add_up (pageInfo : option PageInfo) (results : list AnalyzedReview) :
  let r := Popup.renderResults pageInfo results in
  (Popup.human r + Popup.bot r + Popup.lowEffort r <= Popup.total r)%nat
  ∧ (Popup.human r + Popup.bot r + Popup.lowEffort r = Popup.total r ↔
     Forall (fun x => credibility_label x ∈ ["human"; "bot"; "low_effort"]) results)
  ∧ Bookmarklet.count_label "human" results = Popup.human r
  ∧ Bookmarklet.count_label "bot" results = Popup.bot r
  ∧ Bookmarklet.count_label "low_effort" results = Popup.lowEffort r.
Proof.
  pose proof (count_labels results) as H. cbn.
  split; [lia|]. split; [|done].
  rewrite <- H. split.
  - intros Heq. apply Forall_forall. intros x Hx.
    destruct (decide (credibility_label x ∈ ["human"; "bot"; "low_effort"])) as [|Hn];
      [done|].
    assert (x ∈ filter (fun r => credibility_label r ∉ ["human"; "bot"; "low_effort"])
                  results) as Hin by (by apply list_elem_of_filter).
    destruct (filter _ results); [by apply elem_of_nil in Hin | simpl in Heq; lia].
  - intros Hall. clear H.
    assert (filter (fun r => credibility_label r ∉ ["human"; "bot"; "low_effort"]) results
            = []) as ->; [|simpl; lia].
    induction Hall as [|x l Hx _ IH]; [done|].
    rewrite filter_cons_False; [exact IH | by intros Hn].
Qed.

Lemma sub_self (m : Q) : sub (Fin m) (Fin m) = of_Z 0.
Proof.
  unfold sub, round64.
  assert (Qnum (m - m) = 0%Z) as ->; [|done].
  destruct m as [n d]. simpl. ring.
Qed.

Lemma unrated_counts_as_stars (r : AnalyzedReview) :
  unrated r → weighted_or_stars r = stars r.
Proof.
  unfold unrated, weighted_or_stars. destruct (weighted_rating r) as [| |x]; try done.
  simpl. by intros ->.
Qed.

(** When the service reports no usable adjusted rating for any review,
    the true rating is the displayed rating computed from the stars, and
    the truth gap is that rating minus itself: 0 whenever the rating is
    finite. *)
Theorem no_adjusted_ratings_no_gap (results : list AnalyzedReview) :
  Forall unrated results →
  let b := Bookmarklet.calculateTruthGap results in
  let p := Popup.calculateTruthGap results Null in
  avgTrue b = avgDisplayed b
  ∧ p = b
  ∧ gap b = sub (avgDisplayed b) (avgDisplayed b)
  ∧ ∀ q, avgDisplayed b = Fin q → gap b = of_Z 0.
Proof.
  intros Hun b p. subst b p.
  unfold Bookmarklet.calculateTruthGap, Popup.calculateTruthGap.
  destruct results as [|r rs]; [by repeat split; intros|].
  assert (r :: rs ≠ []) as Hne by done.
  rewrite (length_zero_false _ Hne). cbn [gap avgDisplayed avgTrue].
  assert (reduce_sum weighted_or_stars (r :: rs) = reduce_sum stars (r :: rs)) as ->.
  { unfold reduce_sum. generalize (of_Z 0). revert Hun. generalize (r :: rs). clear.
    intros l Hun. induction Hun as [|x l Hx _ IH]; intros acc; simpl; [done|].
    by rewrite IH, unrated_counts_as_stars. }
  repeat split. intros q ->. apply sub_self.
Qed.

(** Three reviews of 5, 4 and 2 stars for which the service reports no
    adjusted rating, a null one and a zero one. *)
Lemma no_adjusted_ratings_no_gap_witness :
  gap (Bookmarklet.calculateTruthGap
         [mkReview 5 Undefined; mkReview 4 Null; mkReview 2 (Num (of_Z 0))]) = of_Z 0.
Proof.
  assert (Forall unrated [mkReview 5 Undefined; mkReview 4 Null; mkReview 2 (Num (of_Z 0))])
    as Hun by (repeat (apply List.Forall_cons; [reflexivity|]); apply List.Forall_nil).
  destruct (no_adjusted_ratings_no_gap _ Hun) as (_ & _ & _ & H).
  eapply H. vm_compute. reflexivity.
Defined.

(** ** Whole sessions *)

Import Session.

(** *** The requests sent *)

Lemma fetches_advance {S A : Type} (G : Answer → Prop) (R : Request → Prop)
    (m : Async S A) (s : S) :
  fetches G R m →
  match advance m s with
  | (_, Finished _) => True
  | (_, Suspended p k) =>
      match p with Fetch r => R r | _ => True end ∧ ∀ a, G a → fetches G R (k a)
  end.
Proof.
  revert s. induction m as [a|k IH|s' k IH|p k IH]; intros s H; simpl in *.
  - done.
  - apply IH, H.
  - apply IH, H.
  - exact H.
Qed.

Lemma fetches_bind {S A B : Type} (G : Answer → Prop) (R : Request → Prop)
    (m : Async S A) (f : A → Async S B) :
  fetches G R m → (∀ a, fetches G R (f a)) → fetches G R (bind m f).
Proof.
  intros Hm Hf. induction m as [a|k IH|s' k IH|p k IH]; simpl in *.
  - apply Hf.
  - intros s. apply IH, Hm.
  - apply IH, Hm.
  - destruct Hm as [Hp Hk]. split; [done|]. intros a Ha. by apply IH, Hk.
Qed.

Lemma fetches_analyzeEach {S : Type} (G : Answer → Prop) (R : Request → Prop)
    (batch : list ReviewCandidate) (results : list AnalyzedReview) :
  Forall (fun c => R (request c)) batch →
  fetches G R (analyzeEach (S:=S) batch results).
Proof.
  intros Hb. revert results. induction Hb as [|c batch Hc _ IH]; intros results; simpl;
    [done|].
  split; [done|]. intros a _. destruct a as [|[[]]| | |]; simpl; auto.
  split; [done|]. intros b _. destruct b; simpl; auto.
Qed.

Section Invariants.
Context {S L : Type} (G : Answer → Prop).

Lemma sending_ok (R : Request → Prop) (p : Pending) (log : list Request) :
  match p with Fetch r => R r | _ => True end →
  Forall R log → Forall R (sending p log).
Proof.
  intros Hp Hlog. destruct p; simpl; try done.
  apply Forall_app. split; [done | by constructor].
Qed.

Lemma call_sends (R : Request → Prop) (l : L) (m : Async S unit) (sys : System S L) :
  fetches G R m → Sends G R sys → Sends G R (call l m sys).
Proof.
  intros Hm [Hsent Htasks]. unfold call.
  pose proof (fetches_advance G R m (state sys) Hm) as H.
  destruct (advance m (state sys)) as [s [a|p k]]; [by split|].
  destruct H as [Hp Hk]. split; cbn [sent tasks].
  - by apply sending_ok.
  - apply Forall_app. split; [done|]. by repeat constructor.
Qed.

Lemma settle_sends (R : Request → Prop) (i : nat) (a : Answer) (sys sys' : System S L) :
  G a → Sends G R sys → settle i a sys = Some sys' → Sends G R sys'.
Proof.
  intros Ha [Hsent Htasks]. unfold settle.
  destruct (tasks sys !! i) as [t|] eqn:Hi; simpl; [|done].
  destruct (admits (waiting t) a); [|done]. intros [= <-].
  pose proof (Forall_lookup_1 _ _ _ _ Htasks Hi a Ha) as Ht. simpl in Ht.
  pose proof (fetches_advance G R _ (state sys) Ht) as H.
  destruct (advance (resume t a) (state sys)) as [s [[]|p k]]; split; cbn [sent tasks].
  - done.
  - by apply Forall_delete.
  - destruct H as [Hp _]. by apply sending_ok.
  - destruct H as [_ Hk]. by apply Forall_insert.
Qed.

(** *** Invariants of the state *)

Lemma call_holds (I : S → Prop) (l : L) (m : Async S unit) (sys : System S L) :
  preserves I m → Holds I sys → Holds I (call l m sys).
Proof.
  intros Hm [HI Htasks]. unfold call.
  pose proof (stretches_advance _ _ _ _ _ (Hm (state sys))) as H.
  destruct (advance m (state sys)) as [s [a|p k]]; split; cbn [state tasks].
  - by apply H.
  - done.
  - destruct H as [H _]. by apply H.
  - destruct H as [_ Hk]. apply Forall_app. split; [done|].
    repeat constructor. intros a s1. apply Hk.
Qed.

Lemma settle_holds (I : S → Prop) (i : nat) (a : Answer) (sys sys' : System S L) :
  Holds I sys → settle i a sys = Some sys' → Holds I sys'.
Proof.
  intros [HI Htasks]. unfold settle.
  destruct (tasks sys !! i) as [t|] eqn:Hi; simpl; [|done].
  destruct (admits (waiting t) a); [|done]. intros [= <-].
  pose proof (Forall_lookup_1 _ _ _ _ Htasks Hi a (state sys)) as Ht. simpl in Ht.
  pose proof (stretches_advance _ _ _ _ _ Ht) as H.
  destruct (advance (resume t a) (state sys)) as [s [[]|p k]]; split; cbn [state tasks].
  - by apply H.
  - by apply Forall_delete.
  - destruct H as [H _]. by apply H.
  - destruct H as [_ Hk]. apply Forall_insert; [done|]. intros b s1. apply Hk.
Qed.

End Invariants.

Lemma extractReviews_ok (d : Document) : Forall candidateOk (extractReviews d).
Proof.
  rewrite selection_cases. apply Forall_take, Forall_app. split.
  - apply Forall_fmap. eapply Forall_impl; [apply selected_texts|].
    intros t (Ht & Hlen & _). repeat split; try done.
    exists 3%Z. split; [reflexivity | lia].
  - assert (Forall (fun c => star_value (Content.stars c)) (collect d)) as Hs.
    { destruct (selectors_spec d selectors []) as (H & _). apply H. constructor. }
    pose proof (collect_texts d) as Ht.
    apply Forall_forall. intros c Hc.
    rewrite Forall_forall in Hs, Ht.
    destruct (Ht c Hc) as [? [? _]]. repeat split; auto.
Qed.

(** The candidates of a genuine response are well formed. *)
Lemma genuine_reviews_ok (message : Message) :
  genuine (Delivered message) → Forall candidateOk (reviews message).
Proof.
  intros (d & Hd). rewrite (respond_reviews d message Hd). apply extractReviews_ok.
Qed.

Lemma analyzed_labelled (c : ReviewCandidate) (data : Data) : labelled (analyzed c data).
Proof.
  split; simpl.
  - destruct (credibility data ≫= classification) as [l|]; [|done].
    destruct (String.eqb_spec l EmptyString); done.
  - destruct (score <$> credibility data) as [[| |x]|]; try done.
    by destruct x as [| |q]; simpl; try destruct (negb _).
Qed.

Lemma analyzed_ok (c : ReviewCandidate) (data : Data) :
  candidateOk c → analyzedOk (analyzed c data).
Proof. intros Hc. split; [exact Hc | apply analyzed_labelled]. Qed.

#[local] Opaque extractReviews Bookmarklet.detectPageType Bookmarklet.calculateTruthGap
  Content.detectPageType Popup.renderResults.

Lemma batch_requests_ok (reviews : list ReviewCandidate) :
  Forall candidateOk reviews →
  Forall (fun c => requestOk (request c)) (take 20 reviews).
Proof. intros H. apply Forall_take. eapply Forall_impl; [exact H|]. by intros c. Qed.

Lemma filter_ok {A : Type} (P : A → Prop) (f : A → bool) (l : list A) :
  Forall P l → Forall P (List.filter f l).
Proof.
  intros H. apply Forall_forall. intros x Hx.
  apply list_elem_of_In, filter_In in Hx as [Hx _].
  rewrite Forall_forall in H. by apply H, list_elem_of_In.
Qed.

Lemma fetches_analyzeReviews {S : Type} (G : Answer → Prop)
    (reviews : list ReviewCandidate) :
  Forall candidateOk reviews → fetches G requestOk (analyzeReviews (S:=S) reviews).
Proof. intros H. by apply fetches_analyzeEach, batch_requests_ok. Qed.

(** A handler sends well-formed requests only: by its structure. *)
Ltac fetches_tac :=
  lazymatch goal with
  | |- fetches _ _ (mbind _ _) => apply fetches_bind; [fetches_tac | intro; fetches_tac]
  | |- fetches _ _ (if ?c then _ else _) => destruct c; fetches_tac
  | |- fetches _ _ (match ?x with _ => _ end) => destruct x; fetches_tac
  | |- fetches _ _ (analyzeReviews _) =>
      apply fetches_analyzeReviews;
      first [apply extractReviews_ok | apply filter_ok, extractReviews_ok
            | assumption | by apply filter_ok]
  | |- fetches _ _ (renderResults _ _) => unfold renderResults; fetches_tac
  | |- fetches _ _ Popup.handleNoReviews => unfold Popup.handleNoReviews; fetches_tac
  | |- fetches _ _ (Popup.showResults _) => unfold Popup.showResults; fetches_tac
  | |- _ => by cbn; intros
  end.

Lemma run_fetches : fetches anyAnswer requestOk run.
Proof. unfold run. cbv zeta. fetches_tac. Qed.

Lemma handleLoadMore_fetches : fetches anyAnswer requestOk handleLoadMore.
Proof. unfold handleLoadMore. cbv zeta. fetches_tac. Qed.

Lemma bookmarklet_sends (d : Document) (es : list Event) (sys : System State Origin) :
  steps (start d) es = Some sys → Sends anyAnswer requestOk sys.
Proof.
  assert (Sends anyAnswer requestOk (start d)) as H0.
  { apply call_sends; [apply run_fetches | by split]. }
  revert H0. generalize (start d). intros sys0. revert sys0.
  induction es as [|e es IH]; intros sys0 H0; simpl; [by intros [= <-]|].
  destruct (step sys0 e) as [sys1|] eqn:He; simpl; [|done].
  apply IH. destruct e as [|i a|d']; simpl in He.
  - injection He as <-. by apply call_sends; [apply handleLoadMore_fetches|].
  - by eapply settle_sends.
  - injection He as <-. exact H0.
Qed.

Lemma popup_handleAnalyze_fetches : fetches genuine requestOk Popup.handleAnalyze.
Proof.
  unfold Popup.handleAnalyze. cbn. intros st.
  destruct (Popup.isLoading st); cbn; [done|].
  split; [done|]. intros tab _.
  assert (∀ response, genuine response →
            fetches genuine requestOk
              (bind match response with
                    | Rejected => Popup.showError Popup.CouldNotConnect
                    | Delivered response0 =>
                        let reviews := reviews response0 in
                        modify (Popup.set_pageInfo (Some (pageInfo response0))) ;;
                        if (length reviews =? 0)%nat then Popup.handleNoReviews
                        else
                          modify (Popup.set_panel
                                    (Popup.Loading (Popup.AnalyzingReviews (length reviews)))) ;;
                          results ← analyzeReviews reviews;
                          modify (Popup.set_currentResults results) ;;
                          if (length results =? 0)%nat
                          then Popup.showError Popup.ApiAnalysisFailed
                          else Popup.showResults results
                    | _ => Popup.showError Popup.FailedToExtract
                    end
                 (fun _ => modify (Popup.set_isLoading false)))) as Hresp.
  { intros response Hg. apply fetches_bind; [|by cbn; intros].
    destruct response as [| | |message|]; try (by cbn; intros).
    pose proof (genuine_reviews_ok message Hg) as Hok. cbv zeta.
    fetches_tac. }
  destruct tab; cbn; try done.
  all: split; [done|]; intros _ _; cbn; split; [done|]; intros _ _; cbn.
  all: split; [done|]; intros response Hg; apply (Hresp response Hg).
Qed.

Lemma popup_handleLoadMore_fetches : fetches genuine requestOk Popup.handleLoadMore.
Proof.
  unfold Popup.handleLoadMore. cbn. intros st.
  destruct (Popup.isLoading st); cbn; [done|].
  split; [done|]. intros tab _.
  destruct tab; cbn; try done.
  all: split; [done|]; intros response Hg.
  all: destruct response as [| | |message|]; try (by cbn; intros).
  all: pose proof (genuine_reviews_ok message Hg) as Hok.
  all: change (fetches genuine requestOk
    (bind
       (let reviews := reviews message in
        if (0 <? length reviews)%nat then
          st ← get;
          let new := Popup.newReviews st reviews in
          if (0 <? length new)%nat then
            newResults ← analyzeReviews new;
            modify (fun st => Popup.set_currentResults
                                (Popup.currentResults st ++ newResults) st) ;;
            modify (Popup.set_pageInfo (Some (pageInfo message))) ;;
            st ← get;
            Popup.showResults (Popup.currentResults st)
          else modify (Popup.set_label Popup.NoMoreReviewsFound)
        else modify (Popup.set_label Popup.NoMoreReviewsFound))
       (fun _ => modify (Popup.set_isLoading false) ;; modify (Popup.set_disabled false)))).
  all: apply fetches_bind; [|by cbn; intros]; cbv zeta; fetches_tac.
Qed.

Lemma popup_sends (es : list Popup.Event) (sys : System Popup.State Popup.Origin) :
  Forall genuineEvent es →
  Popup.steps Popup.start es = Some sys → Sends genuine requestOk sys.
Proof.
  assert (Sends genuine requestOk Popup.start) as H0 by (by split).
  revert H0. generalize Popup.start. intros sys0 H0 Hes. revert sys0 H0.
  induction Hes as [|e es He _ IH]; intros sys0 H0; simpl; [by intros [= <-]|].
  destruct (Popup.step sys0 e) as [sys1|] eqn:Hstep; simpl; [|done].
  apply IH. destruct e as [| |i a]; simpl in Hstep.
  - injection Hstep as <-. by apply call_sends; [apply popup_handleAnalyze_fetches|].
  - injection Hstep as <-. by apply call_sends; [apply popup_handleLoadMore_fetches|].
  - by eapply settle_sends.
Qed.

(** Whatever happens in a session of the bookmarklet, and in a session
    of the popup in which every response of the content script is the
    one that it gives on some page, every request sent to the scoring
    service carries a trimmed text of more than 20 characters and an
    integer from 1 to 5 for stars. *)
Theorem every_request_is_well_formed
    (d : Document) (es : list Event) (sys : System State Origin)
    (pes : list Popup.Event) (psys : System Popup.State Popup.Origin) :
  steps (start d) es = Some sys →
  Forall genuineEvent pes →
  Popup.steps Popup.start pes = Some psys →
  Forall requestOk (sent sys) ∧ Forall requestOk (sent psys).
Proof.
  intros Hs Hg Hp. split.
  - by destruct (bookmarklet_sends d es sys Hs).
  - by destruct (popup_sends pes psys Hg Hp).
Qed.

(** The first analysis of the page with the reviews A and B, in the
    bookmarklet and in the popup. *)
Lemma every_request_is_well_formed_witness :
  ∃ sys psys,
    steps (start twoReviewsPage) firstAnalysis = Some sys
    ∧ Popup.steps Popup.start popupAnalysis = Some psys
    ∧ req_text <$> sent sys = [reviewA; reviewB]
    ∧ req_text <$> sent psys = [reviewA; reviewB]
    ∧ Forall requestOk (sent sys) ∧ Forall requestOk (sent psys).
Proof.
  assert ((fun s => req_text <$> sent s) <$> steps (start twoReviewsPage) firstAnalysis
          = Some [reviewA; reviewB]) as H1 by (vm_compute; reflexivity).
  assert ((fun s => req_text <$> sent s) <$> Popup.steps Popup.start popupAnalysis
          = Some [reviewA; reviewB]) as H2 by (vm_compute; reflexivity).
  assert (Forall genuineEvent popupAnalysis) as Hg.
  { unfold popupAnalysis.
    repeat (apply List.Forall_cons;
      [first [exact I | exists twoReviewsPage; vm_compute; reflexivity]|]).
    apply List.Forall_nil. }
  destruct (steps (start twoReviewsPage) firstAnalysis) as [sys|] eqn:Hs;
    [|discriminate H1].
  destruct (Popup.steps Popup.start popupAnalysis) as [psys|] eqn:Hps;
    [|discriminate H2].
  injection H1 as H1. injection H2 as H2.
  exists sys, psys.
  destruct (every_request_is_well_formed _ _ _ _ _ Hs Hg Hps) as [Ha Hb].
  split; [reflexivity|]. split; [reflexivity|].
  split; [exact H1|]. split; [exact H2|]. split; [exact Ha | exact Hb].
Defined.

(** *** What is shown agrees with what is held *)

(** The analysis loop on candidates that satisfy [P] adds analyses that
    satisfy [Q], and does not touch the state. *)
Lemma stretches_analyzeEach_ok {S : Type} (P : ReviewCandidate → Prop)
    (Q : AnalyzedReview → Prop) (Susp : S → S → Prop)
    (Fin : list AnalyzedReview → S → S → Prop)
    (batch : list ReviewCandidate) (results : list AnalyzedReview) (s0 s : S) :
  (∀ c data, P c → Q (analyzed c data)) →
  (∀ s1, Susp s1 s1) →
  Forall P batch → Forall Q results →
  (∀ res s0' s', Forall Q res → Susp s0' s' → Fin res s0' s') →
  Susp s0 s →
  stretches Susp Fin (analyzeEach batch results) s0 s.
Proof.
  intros HPQ Hrefl Hb. revert results s0 s.
  induction Hb as [|c batch Hc _ IH]; intros results s0 s Hres Hfin H; simpl;
    [by apply Hfin|].
  split; [done|]. intros a s1.
  destruct a as [|[[]]| | |]; simpl; try (by apply IH).
  split; [done|]. intros b s2. destruct b; simpl; try (by apply IH).
  apply IH; [|done|done]. apply Forall_app. split; [done|].
  apply Forall_singleton. by apply HPQ.
Qed.

Lemma keeps_refl {S : Type} (I : S → Prop) (s : S) : keeps I s s.
Proof. by intros ?. Qed.

Lemma set_button_overlayAgrees (b : Button) (st : State) :
  bookmarkletOk st → bookmarkletOk (set_button b st).
Proof.
  unfold bookmarkletOk, overlayAgrees, set_button.
  destruct (overlay st) as [| | | |r] eqn:E; try (by rewrite E).
  destruct (loadMoreBtn r); [done | by rewrite E].
Qed.

Lemma rendered_ok (results : list AnalyzedReview) (pageInfo : PageInfo) (s0 s : State) :
  Forall analyzedOk results →
  (bookmarkletOk s0 → Forall candidateOk (allExtractedReviews s)) →
  stretches (keeps bookmarkletOk) (fun _ => keeps bookmarkletOk)
    (renderResults results pageInfo) s0 s.
Proof.
  intros Hres H. unfold renderResults. cbn.
  destruct (length results =? 0)%nat eqn:E; cbn; intros H0; specialize (H H0).
  - apply Nat.eqb_eq, nil_length_inv in E as ->. by repeat split.
  - repeat split; try done. cbn. by destruct results.
Qed.

Lemma run_preserves : preserves bookmarkletOk run.
Proof.
  intros s. unfold run. cbn.
  destruct (length _ =? 0)%nat eqn:E.
  - destruct (_ && _); cbn.
    + intros (Hr & _ & _). split; [exact Hr|]. split; [apply extractReviews_ok | done].
    + intros (_ & _ & _). split; [done|]. split; [apply extractReviews_ok | done].
  - unfold mbind, Async_bind, analyzeReviews.
    apply stretches_bind, (stretches_analyzeEach_ok candidateOk analyzedOk).
    + apply analyzed_ok.
    + apply keeps_refl.
    + apply Forall_take, extractReviews_ok.
    + done.
    + intros res s0' s' Hres H. apply rendered_ok; [done|].
      intros H0. by destruct (H H0) as (_ & ? & _).
    + intros (Hr & _ & _). split; [exact Hr|]. split; [apply extractReviews_ok | done].
Qed.

Lemma handleLoadMore_preserves : preserves bookmarkletOk handleLoadMore.
Proof.
  intros st. unfold handleLoadMore. cbn.
  destruct (isLoadingMore st) eqn:Hflag; cbn; [apply keeps_refl|].
  split.
  { intros H. by apply set_button_overlayAgrees. }
  intros _ s1. cbn. split; [apply keeps_refl|]. intros _ s2. cbn.
  destruct (match length _ with 0%nat => false | _ => true end).
  - unfold mbind, Async_bind, analyzeReviews.
    apply stretches_bind, stretches_bind,
      (stretches_analyzeEach_ok candidateOk analyzedOk).
    + apply analyzed_ok.
    + apply keeps_refl.
    + apply Forall_take, filter_ok, extractReviews_ok.
    + done.
    + intros res s0' s' Hres Hk. cbn.
      assert (bookmarkletOk s0' →
              Forall analyzedOk (currentResults s' ++ res)
              ∧ Forall candidateOk
                  (allExtractedReviews s'
                   ++ additionalReviews s2 (extractReviews (document s2)))) as Hnew.
      { intros H0. destruct (Hk H0) as (Hr & He & _). split.
        - by apply Forall_app.
        - apply Forall_app. split; [done|]. apply filter_ok, extractReviews_ok. }
      destruct (length (currentResults s' ++ res) =? 0)%nat eqn:E; cbn;
        intros H0; destruct (Hnew H0) as [Hr He].
      * apply Nat.eqb_eq, nil_length_inv in E. by repeat split.
      * repeat split; try done. cbn. intros Hnil. by rewrite Hnil in E.
    + apply keeps_refl.
  - cbn. intros H. by apply set_button_overlayAgrees.
Qed.

Lemma bookmarklet_holds (d : Document) (es : list Event) (sys : System State Origin) :
  steps (start d) es = Some sys → Holds bookmarkletOk sys.
Proof.
  assert (Holds bookmarkletOk (start d)) as H0.
  { apply call_holds; [apply run_preserves | by repeat split]. }
  revert H0. generalize (start d). intros sys0. revert sys0.
  induction es as [|e es IH]; intros sys0 H0; simpl; [by intros [= <-]|].
  destruct (step sys0 e) as [sys1|] eqn:He; simpl; [|done].
  apply IH. destruct e as [|i a|d']; simpl in He.
  - injection He as <-. by apply call_holds; [apply handleLoadMore_preserves|].
  - by eapply settle_holds.
  - injection He as <-. exact H0.
Qed.

(** At every point of a session of the bookmarklet, what the overlay
    shows agrees with the analyzed reviews held: the figures on display
    are those of [currentResults], which is then not empty, and "no
    reviews" is shown only when there is none; every analyzed review held
    is a well-formed candidate, with a label that is not empty and a score
    that is a number. *)
Theorem overlay_agrees_with_results
    (d : Document) (es : list Event) (sys : System State Origin) :
  steps (start d) es = Some sys →
  overlayAgrees (state sys)
  ∧ Forall analyzedOk (currentResults (state sys))
  ∧ Forall candidateOk (allExtractedReviews (state sys)).
Proof.
  intros Hs. destruct (bookmarklet_holds d es sys Hs) as [(Hr & He & Ho) _]. done.
Qed.

(** The bookmarklet after the first analysis of the page with the
    reviews A and B, the call for A having failed. *)
Lemma overlay_agrees_with_results_witness :
  ∃ sys,
    steps (start twoReviewsPage) firstAnalysis = Some sys
    ∧ text <$> currentResults (state sys) = [reviewB]
    ∧ overlayAgrees (state sys).
Proof.
  assert ((fun s => text <$> currentResults (state s))
            <$> steps (start twoReviewsPage) firstAnalysis
          = Some [reviewB]) as H1 by (vm_compute; reflexivity).
  destruct (steps (start twoReviewsPage) firstAnalysis) as [sys|] eqn:Hs;
    [|discriminate H1].
  injection H1 as H1. exists sys.
  destruct (overlay_agrees_with_results _ _ _ Hs) as (Ho & _ & _).
  split; [reflexivity|]. split; [exact H1 | exact Ho].
Defined.

(** The state is left showing something other than a report. *)
Ltac no_report :=
  unfold keeps; intros [Hr _]; split; [done|]; by intros ?.

Lemma popup_handleAnalyze_preserves : preserves popupOk Popup.handleAnalyze.
Proof.
  intros st. unfold Popup.handleAnalyze. cbn.
  destruct (Popup.isLoading st) eqn:Hflag; cbn; [apply keeps_refl|].
  assert (∀ s, keeps popupOk s s) as Hrefl by apply keeps_refl.
  split; [no_report|].
  intros tab s1.
  destruct tab; cbn; try no_report.
  all: split; [apply Hrefl|]; intros _ s2; cbn; split; [apply Hrefl|]; intros _ s3; cbn.
  all: split; [apply Hrefl|]; intros response s4.
  all: destruct response as [| | |message|]; cbn; try no_report.
  all: destruct (length (reviews message) =? 0)%nat; cbn; try no_report.
  all: unfold mbind, Async_bind, analyzeReviews.
  all: apply stretches_bind, stretches_bind,
         (stretches_analyzeEach_ok (fun _ => True) labelled);
    [intros; apply analyzed_labelled | apply Hrefl
    | by apply Forall_true | done | | no_report].
  all: intros res s0' s' Hres _; cbn; destruct (length res =? 0)%nat; cbn.
  all: unfold keeps; intros _; split; [done|]; intros rep; cbn; try done.
  all: intros [= <-]; done.
Qed.

Lemma popup_handleLoadMore_preserves : preserves popupOk Popup.handleLoadMore.
Proof.
  intros st. unfold Popup.handleLoadMore. cbn.
  destruct (Popup.isLoading st) eqn:Hflag; cbn; [apply keeps_refl|].
  assert (∀ s, keeps popupOk s s) as Hrefl by apply keeps_refl.
  assert (∀ s0 s f g, keeps popupOk s0 s →
            Popup.currentResults (f s) = Popup.currentResults s →
            Popup.pageInfo (f s) = Popup.pageInfo s →
            Popup.panel (f s) = Popup.panel s →
            Popup.hidden (Popup.loadMoreBtn (f s)) = Popup.hidden (Popup.loadMoreBtn s) →
            g = f s → keeps popupOk s0 g) as Hsame.
  { intros s0 s f g Hk H1 H2 H3 H4 -> H0. destruct (Hk H0) as [Hr Hp].
    split; [by rewrite H1|]. intros r. rewrite H1, H2, H3, H4. apply Hp. }
  split.
  { by apply (Hsame st st (fun s => Popup.set_label Popup.LoadingMoreReviews
                (Popup.set_disabled true (Popup.set_isLoading true s)))). }
  intros tab s1.
  assert (∀ l s, keeps popupOk s
            (Popup.set_disabled false (Popup.set_isLoading false (Popup.set_label l s))))
    as Hlabel.
  { intros l s. by apply (Hsame s s (fun s => Popup.set_disabled false
                  (Popup.set_isLoading false (Popup.set_label l s)))). }
  destruct tab; cbn; try apply Hlabel.
  all: split; [apply Hrefl|]; intros response s2.
  all: destruct response as [| | |message|]; cbn; try apply Hlabel.
  all: destruct (match length (reviews message) with 0%nat => false | _ => true end);
    cbn; try apply Hlabel.
  all: destruct (match length (Popup.newReviews s2 (reviews message)) with
                 | 0%nat => false | _ => true end); cbn; try apply Hlabel.
  all: unfold mbind, Async_bind, analyzeReviews.
  all: apply stretches_bind, stretches_bind,
         (stretches_analyzeEach_ok (fun _ => True) labelled);
    [intros; apply analyzed_labelled | apply Hrefl
    | by apply Forall_true | done | | apply Hrefl].
  all: intros res s0' s' Hres Hk; cbn.
  all: intros H0; destruct (Hk H0) as [Hr _]; split; [by apply Forall_app|].
  all: intros rep; cbn; intros [= <-]; done.
Qed.

Lemma popup_holds (es : list Popup.Event) (sys : System Popup.State Popup.Origin) :
  Popup.steps Popup.start es = Some sys → Holds popupOk sys.
Proof.
  assert (Holds popupOk Popup.start) as H0 by (by repeat split).
  revert H0. generalize Popup.start. intros sys0. revert sys0.
  induction es as [|e es IH]; intros sys0 H0; simpl; [by intros [= <-]|].
  destruct (Popup.step sys0 e) as [sys1|] eqn:He; simpl; [|done].
  apply IH. destruct e as [| |i a]; simpl in He.
  - injection He as <-. by apply call_holds; [apply popup_handleAnalyze_preserves|].
  - injection He as <-. by apply call_holds; [apply popup_handleLoadMore_preserves|].
  - by eapply settle_holds.
Qed.

(** At every point of a session of the popup, a report on display is
    the report of the analyzed reviews and the page description that the
    popup holds, the Load More button is hidden whenever a report is
    shown, and every analyzed review held has a label that is not empty
    and a score that is a number. *)
Theorem panel_agrees_with_results
    (es : list Popup.Event) (sys : System Popup.State Popup.Origin) :
  Popup.steps Popup.start es = Some sys →
  panelAgrees (state sys) ∧ Forall labelled (Popup.currentResults (state sys)).
Proof.
  intros Hs. destruct (popup_holds es sys Hs) as [[Hr Hp] _]. done.
Qed.

(** The popup after the first analysis of the same page. *)
Lemma panel_agrees_with_results_witness :
  ∃ psys,
    Popup.steps Popup.start popupAnalysis = Some psys
    ∧ text <$> Popup.currentResults (state psys) = [reviewB]
    ∧ panelAgrees (state psys).
Proof.
  assert ((fun s => text <$> Popup.currentResults (state s))
            <$> Popup.steps Popup.start popupAnalysis
          = Some [reviewB]) as H1 by (vm_compute; reflexivity).
  destruct (Popup.steps Popup.start popupAnalysis) as [psys|] eqn:Hps;
    [|discriminate H1].
  injection H1 as H1. exists psys.
  destruct (panel_agrees_with_results _ _ Hps) as (Hp & _).
  split; [reflexivity|]. split; [exact H1 | exact Hp].
Defined.

(** ** The first analysis *)

Lemma exec_run (st : State) (outcomes : list Outcome) :
  let reviews := extractReviews (document st) in
  let batch := take 20 reviews in
  let results := successes batch outcomes in
  reviews ≠ [] →
  length outcomes = length batch →
  let r := exec run (concat (answers <$> outcomes)) st in
  result r = Some ()
  ∧ awaited r = concat (zip_with awaits batch outcomes)
  ∧ currentResults (final r) = results
  ∧ allExtractedReviews (final r) = reviews
  ∧ isLoadingMore (final r) = isLoadingMore st
  ∧ document (final r) = document st
  ∧ overlay (final r)
    = match results with
      | [] => NoReviewsFound
      | _ =>
          ResultsShown
            {| truthGap := calculateTruthGap results;
               human := count_label "human" results;
               bot := count_label "bot" results;
               lowEffort := count_label "low_effort" results;
               analyzedCount := length results;
               sampleReviews := take 5 results;
               loadMoreBtn :=
                 if String.eqb (type (detectPageType (document st))) "reviews"
                    || (length reviews <? 50)%nat
                 then Some {| disabled := false; label := LoadMoreReviews |}
                 else None |}
      end.
Proof.
  intros reviews batch results Hne Hlen r. subst r.
  unfold run. cbn. fold reviews.
  rewrite (length_zero_false _ Hne). cbn.
  unfold mbind, Async_bind, analyzeReviews. fold batch.
  rewrite <- (app_nil_r (concat _)), exec_analyzeEach by done.
  fold results. cbn [app].
  clearbody results batch. clear Hlen.
  destruct results as [|x xs]; cbn; rewrite app_nil_r; repeat split.
Qed.

Lemma popup_exec_handleAnalyze (st : Popup.State) (injected : Answer) (message : Message)
    (outcomes : list Outcome) :
  let batch := take 20 (reviews message) in
  let results := successes batch outcomes in
  Popup.isLoading st = false →
  admits ExecuteScript injected = true →
  reviews message ≠ [] →
  length outcomes = length batch →
  let r := exec Popup.handleAnalyze
             (Resolved :: injected :: Resolved :: Delivered message
              :: concat (answers <$> outcomes)) st in
  result r = Some ()
  ∧ awaited r = TabsQuery :: ExecuteScript :: Timeout 100 :: SendMessage "extractReviews"
                :: concat (zip_with awaits batch outcomes)
  ∧ Popup.currentResults (final r) = results
  ∧ Popup.pageInfo (final r) = Some (pageInfo message)
  ∧ Popup.isLoading (final r) = false
  ∧ Popup.panel (final r)
    = match results with
      | [] => Popup.Error Popup.ApiAnalysisFailed
      | _ => Popup.ResultsShown (Popup.renderResults (Some (pageInfo message)) results)
      end
  ∧ Popup.hidden (Popup.loadMoreBtn (final r))
    = match results with
      | [] => Popup.hidden (Popup.loadMoreBtn st)
      | _ => true
      end.
Proof.
  intros batch results Hflag Hinj Hne Hlen r. subst r.
  unfold Popup.handleAnalyze. cbn. rewrite Hflag.
  destruct injected; try discriminate Hinj; cbn.
  all: rewrite (length_zero_false _ Hne); cbn.
  all: unfold mbind, Async_bind, analyzeReviews; fold batch.
  all: rewrite !exec_bind_assoc, <- (app_nil_r (concat _)), exec_analyzeEach by done.
  all: fold results; cbn [app].
  all: clearbody results batch; clear Hlen.
  all: destruct results as [|x xs]; cbn; rewrite app_nil_r; repeat split.
Qed.

(** The first analysis of the bookmarklet, on a page where candidates
    are found: one request for each of the first 20 candidates; the
    analyzed reviews are those whose call succeeded, while every
    candidate extracted is recorded; the overlay shows the figures of the
    analyzed reviews, with a Load More button when the page is a reviews
    page or fewer than 50 candidates were extracted, or, when no call
    succeeded, that no reviews were found. *)
Theorem first_analysis_of_the_bookmarklet (st : State) (outcomes : list Outcome) :
  let reviews := extractReviews (document st) in
  let batch := take 20 reviews in
  let results := successes batch outcomes in
  reviews ≠ [] →
  length outcomes = length batch →
  let r := exec run (concat (answers <$> outcomes)) st in
  result r = Some ()
  ∧ fetched (awaited r) = request <$> batch
  ∧ currentResults (final r) = results
  ∧ allExtractedReviews (final r) = reviews
  ∧ overlay (final r)
    = match results with
      | [] => NoReviewsFound
      | _ =>
          ResultsShown
            {| truthGap := calculateTruthGap results;
               human := count_label "human" results;
               bot := count_label "bot" results;
               lowEffort := count_label "low_effort" results;
               analyzedCount := length results;
               sampleReviews := take 5 results;
               loadMoreBtn :=
                 if String.eqb (type (detectPageType (document st))) "reviews"
                    || (length reviews <? 50)%nat
                 then Some {| disabled := false; label := LoadMoreReviews |}
                 else None |}
      end.
Proof.
  intros reviews batch results Hne Hlen r.
  destruct (exec_run st outcomes Hne Hlen) as (Hr & Haw & Hcr & Hae & _ & _ & Ho).
  fold reviews batch results r in Hr, Haw, Hcr, Hae, Ho.
  split; [done|]. split; [|done].
  rewrite Haw. by apply fetched_awaits.
Qed.

(** The page with the reviews A and B, the call for A failing. *)
Lemma first_analysis_of_the_bookmarklet_witness :
  let r := exec run (concat (answers <$> secondSucceeds)) (fresh twoReviewsPage) in
  result r = Some ()
  ∧ req_text <$> fetched (awaited r) = [reviewA; reviewB]
  ∧ text <$> currentResults (final r) = [reviewB]
  ∧ Content.text <$> allExtractedReviews (final r) = [reviewA; reviewB].
Proof.
  assert (extractReviews (document (fresh twoReviewsPage)) ≠ []) as Hne
    by (vm_compute; discriminate).
  assert (length secondSucceeds
          = length (take 20 (extractReviews (document (fresh twoReviewsPage))))) as Hlen
    by (vm_compute; reflexivity).
  destruct (first_analysis_of_the_bookmarklet (fresh twoReviewsPage) secondSucceeds
              Hne Hlen) as (Hr & Hf & Hcr & Hae & _).
  split; [exact Hr|].
  split; [rewrite Hf; vm_compute; reflexivity|].
  split; [rewrite Hcr; vm_compute; reflexivity|].
  rewrite Hae; vm_compute; reflexivity.
Defined.

(** The first analysis of the popup, the content script having
    responded with candidates, whether or not the script could be
    injected: one request for each of the first 20 candidates; the
    analyzed reviews held are those whose call succeeded; the popup
    shows their report, computed with the description of the page in
    the response, and hides the Load More button, or, when no call
    succeeded, shows the error that the analysis failed; and it is no
    longer loading. *)
Theorem first_analysis_of_the_popup (st : Popup.State) (injected : Answer)
    (message : Message) (outcomes : list Outcome) :
  let batch := take 20 (reviews message) in
  let results := successes batch outcomes in
  Popup.isLoading st = false →
  admits ExecuteScript injected = true →
  reviews message ≠ [] →
  length outcomes = length batch →
  let r := exec Popup.handleAnalyze
             (Resolved :: injected :: Resolved :: Delivered message
              :: concat (answers <$> outcomes)) st in
  result r = Some ()
  ∧ fetched (awaited r) = request <$> batch
  ∧ Popup.currentResults (final r) = results
  ∧ Popup.pageInfo (final r) = Some (pageInfo message)
  ∧ Popup.isLoading (final r) = false
  ∧ Popup.panel (final r)
    = match results with
      | [] => Popup.Error Popup.ApiAnalysisFailed
      | _ => Popup.ResultsShown (Popup.renderResults (Some (pageInfo message)) results)
      end
  ∧ (results ≠ [] → Popup.hidden (Popup.loadMoreBtn (final r)) = true).
Proof.
  intros batch results Hflag Hinj Hne Hlen r.
  destruct (popup_exec_handleAnalyze st injected message outcomes Hflag Hinj Hne Hlen)
    as (Hr & Haw & Hcr & Hpi & Hfl & Hp & Hh).
  fold batch results r in Hr, Haw, Hcr, Hpi, Hfl, Hp, Hh.
  split; [done|]. split; [rewrite Haw; by apply fetched_awaits|].
  repeat (split; [done|]).
  intros Hres. rewrite Hh. by destruct results.
Qed.

(** The same page in the popup, the injection of the content script
    having failed. *)
Lemma first_analysis_of_the_popup_witness :
  let r := exec Popup.handleAnalyze
             (Resolved :: Rejected :: Resolved :: Delivered twoReviewsMessage
              :: concat (answers <$> secondSucceeds)) popupFresh in
  respond twoReviewsPage = Normal twoReviewsMessage
  ∧ result r = Some ()
  ∧ req_text <$> fetched (awaited r) = [reviewA; reviewB]
  ∧ text <$> Popup.currentResults (final r) = [reviewB]
  ∧ Popup.hidden (Popup.loadMoreBtn (final r)) = true.
Proof.
  assert (Popup.isLoading popupFresh = false) as Hflag by reflexivity.
  assert (admits ExecuteScript Rejected = true) as Hinj by reflexivity.
  assert (reviews twoReviewsMessage ≠ []) as Hne by discriminate.
  assert (length secondSucceeds = length (take 20 (reviews twoReviewsMessage)))
    as Hlen by reflexivity.
  destruct (first_analysis_of_the_popup popupFresh Rejected twoReviewsMessage
              secondSucceeds Hflag Hinj Hne Hlen) as (Hr & Hf & Hcr & _ & _ & _ & Hh).
  split; [vm_compute; reflexivity|].
  split; [exact Hr|].
  split; [rewrite Hf; vm_compute; reflexivity|].
  split; [rewrite Hcr; vm_compute; reflexivity|].
  apply Hh. discriminate.
Defined.

Lemma successes_all_failed (batch : list ReviewCandidate) (outcomes : list Outcome) :
  Forall (fun o => succeeded o = false) outcomes → successes batch outcomes = [].
Proof.
  intros H. revert batch. induction H as [|o outcomes Ho _ IH]; intros [|c batch];
    try done. rewrite successes_cons, IH.
  by destruct o as [|[] [data|]].
Qed.

(** When every call to the scoring service fails (the transport, the
    status of the reply or its body), the bookmarklet ends up showing
    that no reviews were found on the page, although it extracted some,
    and holds no analyzed review; the popup shows instead the error that
    the analysis failed. Each has sent one request per candidate of the
    batch. *)
Theorem every_call_failing
    (st : State) (pst : Popup.State) (message : Message)
    (outcomes poutcomes : list Outcome) :
  extractReviews (document st) ≠ [] →
  length outcomes = length (take 20 (extractReviews (document st))) →
  Forall (fun o => succeeded o = false) outcomes →
  Popup.isLoading pst = false →
  reviews message ≠ [] →
  length poutcomes = length (take 20 (reviews message)) →
  Forall (fun o => succeeded o = false) poutcomes →
  let r := exec run (concat (answers <$> outcomes)) st in
  let pr := exec Popup.handleAnalyze
              (Resolved :: Resolved :: Resolved :: Delivered message
               :: concat (answers <$> poutcomes)) pst in
  (result r = Some ()
   ∧ overlay (final r) = NoReviewsFound
   ∧ currentResults (final r) = []
   ∧ allExtractedReviews (final r) = extractReviews (document st)
   ∧ length (fetched (awaited r)) = length (take 20 (extractReviews (document st))))
  ∧ (result pr = Some ()
     ∧ Popup.panel (final pr) = Popup.Error Popup.ApiAnalysisFailed
     ∧ Popup.currentResults (final pr) = []
     ∧ Popup.isLoading (final pr) = false
     ∧ length (fetched (awaited pr)) = length (take 20 (reviews message))).
Proof.
  intros Hne Hlen Hfail Hflag Hpne Hplen Hpfail r pr. split.
  - destruct (exec_run st outcomes Hne Hlen) as (Hr & Haw & Hcr & Hae & _ & _ & Ho).
    fold r in Hr, Haw, Hcr, Hae, Ho.
    rewrite (successes_all_failed _ _ Hfail) in Hcr, Ho.
    repeat (split; [done|]).
    by rewrite Haw, fetched_awaits, length_fmap.
  - destruct (popup_exec_handleAnalyze pst Resolved message poutcomes Hflag eq_refl
                Hpne Hplen) as (Hr & Haw & Hcr & _ & Hfl & Hp & _).
    fold pr in Hr, Haw, Hcr, Hfl, Hp.
    rewrite (successes_all_failed _ _ Hpfail) in Hcr, Hp.
    repeat (split; [done|]).
    rewrite Haw. cbn. by rewrite fetched_awaits, length_fmap.
Qed.

(** The page with the reviews A and B, both calls failing. *)
Lemma every_call_failing_witness :
  overlay (final (exec run (concat (answers <$> bothFail)) (fresh twoReviewsPage)))
  = NoReviewsFound
  ∧ Popup.panel (final (exec Popup.handleAnalyze
                          (Resolved :: Resolved :: Resolved :: Delivered twoReviewsMessage
                           :: concat (answers <$> bothFail)) popupFresh))
    = Popup.Error Popup.ApiAnalysisFailed.
Proof.
  assert (extractReviews (document (fresh twoReviewsPage)) ≠ []) as Hne
    by (vm_compute; discriminate).
  assert (length bothFail
          = length (take 20 (extractReviews (document (fresh twoReviewsPage))))) as Hlen
    by (vm_compute; reflexivity).
  assert (Forall (fun o => succeeded o = false) bothFail) as Hfail
    by (repeat (apply List.Forall_cons; [reflexivity|]); apply List.Forall_nil).
  assert (Popup.isLoading popupFresh = false) as Hflag by reflexivity.
  assert (reviews twoReviewsMessage ≠ []) as Hpne by discriminate.
  assert (length bothFail = length (take 20 (reviews twoReviewsMessage))) as Hplen
    by reflexivity.
  destruct (every_call_failing (fresh twoReviewsPage) popupFresh twoReviewsMessage
              bothFail bothFail Hne Hlen Hfail Hflag Hpne Hplen Hfail)
    as ((_ & Ho & _) & (_ & Hp & _)).
  split; [exact Ho | exact Hp].
Defined.

(** ** Empty pages and failures *)

(** On a page where no candidate is found, nothing is sent to the
    scoring service: the bookmarklet shows the hint to the reviews page
    on a product page that links to one, and otherwise that no reviews
    were found; the popup, whose content script responded without
    candidates, shows its no-reviews panel, with the button to the
    reviews page in the same case, and is no longer loading. *)
Theorem no_candidates_no_requests
    (st : State) (pst : Popup.State) (injected : Answer) (message : Message) :
  extractReviews (document st) = [] →
  Popup.isLoading pst = false →
  admits ExecuteScript injected = true →
  reviews message = [] →
  let r := exec run [] st in
  let pr := exec Popup.handleAnalyze [Resolved; injected; Resolved; Delivered message] pst in
  let info := detectPageType (document st) in
  let pinfo := pageInfo message in
  (result r = Some () ∧ awaited r = []
   ∧ allExtractedReviews (final r) = []
   ∧ overlay (final r)
     = if String.eqb (type info) "product" && bool_decide (is_Some (reviewsUrl info))
       then ProductPageDetected else NoReviewsFound)
  ∧ (result pr = Some () ∧ fetched (awaited pr) = []
     ∧ Popup.currentResults (final pr) = Popup.currentResults pst
     ∧ Popup.isLoading (final pr) = false
     ∧ Popup.panel (final pr)
       = Popup.NoReviews (String.eqb (type pinfo) "product"
                          && bool_decide (is_Some (reviewsUrl pinfo)))).
Proof.
  intros Hnone Hflag Hinj Hpnone r pr info pinfo. subst r pr. split.
  - unfold run. cbn. rewrite Hnone. cbn. fold info.
    by destruct (_ && _).
  - unfold Popup.handleAnalyze. cbn. rewrite Hflag.
    destruct injected; try discriminate Hinj; cbn; rewrite Hpnone; cbn; done.
Qed.

(** The product page that shows no review. *)
Lemma no_candidates_no_requests_witness :
  respond productPage = Normal productMessage
  ∧ overlay (final (exec run [] (fresh productPage))) = ProductPageDetected
  ∧ Popup.panel (final (exec Popup.handleAnalyze
                          [Resolved; Resolved; Resolved; Delivered productMessage]
                          popupFresh))
    = Popup.NoReviews true.
Proof.
  assert (extractReviews (document (fresh productPage)) = []) as Hnone
    by (vm_compute; reflexivity).
  assert (Popup.isLoading popupFresh = false) as Hflag by reflexivity.
  assert (admits ExecuteScript Resolved = true) as Hinj by reflexivity.
  assert (reviews productMessage = []) as Hpnone by reflexivity.
  destruct (no_candidates_no_requests (fresh productPage) popupFresh Resolved
              productMessage Hnone Hflag Hinj Hpnone)
    as ((_ & _ & _ & Ho) & (_ & _ & _ & _ & Hp)).
  split; [vm_compute; reflexivity|]. split.
  - rewrite Ho. vm_compute. reflexivity.
  - rewrite Hp. vm_compute. reflexivity.
Defined.

(** The failures of [handleAnalyze] before the analysis: when the
    active tab cannot be queried, when the content script cannot be
    reached, and when it gives no response, the popup shows the
    corresponding error, sends nothing to the scoring service, keeps the
    analyzed reviews it held, and is no longer loading. *)
Theorem analysis_failures_are_shown (st : Popup.State) (injected : Answer) :
  Popup.isLoading st = false →
  admits ExecuteScript injected = true →
  let failed answers e :=
    let r := exec Popup.handleAnalyze answers st in
    result r = Some () ∧ fetched (awaited r) = []
    ∧ Popup.panel (final r) = Popup.Error e
    ∧ Popup.currentResults (final r) = Popup.currentResults st
    ∧ Popup.isLoading (final r) = false in
  failed [Rejected] Popup.OtherError
  ∧ failed [Resolved; injected; Resolved; Rejected] Popup.CouldNotConnect
  ∧ failed [Resolved; injected; Resolved; Resolved] Popup.FailedToExtract.
Proof.
  intros Hflag Hinj failed. subst failed. cbv beta.
  unfold Popup.handleAnalyze. cbn. rewrite Hflag.
  destruct injected; try discriminate Hinj; cbn; done.
Qed.

(** The three failures in the popup that has just opened. *)
Lemma analysis_failures_are_shown_witness :
  Popup.panel (final (exec Popup.handleAnalyze [Rejected] popupFresh))
  = Popup.Error Popup.OtherError
  ∧ Popup.panel (final (exec Popup.handleAnalyze
                          [Resolved; Rejected; Resolved; Rejected] popupFresh))
    = Popup.Error Popup.CouldNotConnect
  ∧ Popup.panel (final (exec Popup.handleAnalyze
                          [Resolved; Rejected; Resolved; Resolved] popupFresh))
    = Popup.Error Popup.FailedToExtract.
Proof.
  assert (Popup.isLoading popupFresh = false) as Hflag by reflexivity.
  assert (admits ExecuteScript Rejected = true) as Hinj by reflexivity.
  destruct (analysis_failures_are_shown popupFresh Rejected Hflag Hinj)
    as ((_ & _ & H1 & _) & (_ & _ & H2 & _) & (_ & _ & H3 & _)).
  split; [exact H1|]. split; [exact H2 | exact H3].
Defined.

(** ** A load-more pass that finds nothing new *)

Lemma nothing_new (seen : gset string) (l : list ReviewCandidate) :
  Forall (fun c => Content.text c ∈ seen) l →
  List.filter (fun r => bool_decide (Content.text r ∉ seen)) l = [].
Proof.
  induction 1 as [|c l Hc _ IH]; [done|]. simpl.
  rewrite bool_decide_eq_false_2; [done|]. by intros Hn.
Qed.

(** When every candidate found on the page has already been analyzed, a
    load-more pass sends nothing to the scoring service and changes
    neither the analyzed reviews nor what is shown, except for the Load
    More button: the bookmarklet leaves it disabled, reading that no more
    reviews were found; the popup gives it the same text and enables it
    again. Neither is loading afterwards. *)
Theorem load_more_with_nothing_new (st : State) (pst : Popup.State) (message : Message) :
  isLoadingMore st = false →
  Forall (fun c => Content.text c ∈ text <$> currentResults st)
    (extractReviews (document st)) →
  Popup.isLoading pst = false →
  Forall (fun c => Content.text c ∈ text <$> Popup.currentResults pst)
    (reviews message) →
  let r := exec handleLoadMore [Resolved; Resolved] st in
  let pr := exec Popup.handleLoadMore [Resolved; Delivered message] pst in
  (result r = Some () ∧ fetched (awaited r) = []
   ∧ final r = set_button {| disabled := true; label := NoMoreReviewsFound |} st)
  ∧ (result pr = Some () ∧ fetched (awaited pr) = []
     ∧ final pr
       = Popup.set_loadMoreBtn
           {| Popup.disabled := false;
              Popup.hidden := Popup.hidden (Popup.loadMoreBtn pst);
              Popup.label := Popup.NoMoreReviewsFound |} pst).
Proof.
  intros Hflag Hseen Hpflag Hpseen r pr. subst r pr. split.
  - unfold handleLoadMore. cbn. rewrite Hflag. cbn.
    set (st1 := set_button _ (set_isLoadingMore true st)).
    destruct (set_button_fields {| disabled := true; label := LoadingMoreReviews |}
                (set_isLoadingMore true st)) as (Hcr & _ & _ & Hdoc).
    fold st1 in Hcr, Hdoc. simpl in Hcr, Hdoc.
    rewrite Hdoc, (additionalReviews_ext st1 st) by done.
    unfold additionalReviews. rewrite nothing_new.
    2: { eapply Forall_impl; [exact Hseen|]. intros c Hc.
         by apply elem_of_list_to_set. }
    cbn. repeat split. subst st1.
    destruct st as [cr ae fl ov doc]. simpl in Hflag. subst fl.
    unfold set_button. cbn. destruct ov as [| | | |res]; try done.
    clear. cbn. destruct (loadMoreBtn res) eqn:E; cbn; rewrite ?E; reflexivity.
  - unfold Popup.handleLoadMore. cbn. rewrite Hpflag. cbn.
    set (st1 := Popup.set_label _ _).
    assert (Popup.newReviews st1 (reviews message) = []) as Hnew.
    { unfold Popup.newReviews. apply nothing_new.
      eapply Forall_impl; [exact Hpseen|]. intros c Hc.
      by apply elem_of_list_to_set. }
    destruct (length (reviews message)) eqn:Hn; cbn.
    + repeat split. subst st1. destruct pst as [cr pi fl pn btn]. simpl in Hpflag.
      by subst fl.
    + rewrite Hnew. cbn. repeat split. subst st1.
      destruct pst as [cr pi fl pn btn]. simpl in Hpflag. by subst fl.
Qed.

(** The bookmarklet and the popup once the reviews A and B of the page
    are both analyzed. *)
Lemma load_more_with_nothing_new_witness :
  let r := exec handleLoadMore [Resolved; Resolved] doneState in
  let pr := exec Popup.handleLoadMore [Resolved; Delivered twoReviewsMessage] popupDone in
  fetched (awaited r) = []
  ∧ currentResults (final r) = bothAnalyzed
  ∧ fetched (awaited pr) = []
  ∧ Popup.label (Popup.loadMoreBtn (final pr)) = Popup.NoMoreReviewsFound.
Proof.
  assert (isLoadingMore doneState = false) as Hflag by reflexivity.
  assert (Popup.isLoading popupDone = false) as Hpflag by reflexivity.
  assert (Forall (fun c => Content.text c ∈ text <$> currentResults doneState)
            (extractReviews (document doneState))) as Hseen.
  { apply (bool_decide_unpack _). vm_compute. exact I. }
  assert (Forall (fun c => Content.text c ∈ text <$> Popup.currentResults popupDone)
            (reviews twoReviewsMessage)) as Hpseen.
  { apply (bool_decide_unpack _). vm_compute. exact I. }
  destruct (load_more_with_nothing_new doneState popupDone twoReviewsMessage
              Hflag Hseen Hpflag Hpseen) as ((_ & Hf & Hfin) & (_ & Hpf & Hpfin)).
  split; [exact Hf|]. split; [rewrite Hfin; reflexivity|].
  split; [exact Hpf|]. rewrite Hpfin. reflexivity.
Defined.
